(** * Monte Carlo scenario engine (services/monteCarlo.ts)

    A shallow embedding of the simulation core: the two scenario-grid
    generators, the detailed-column mapper and the orchestrator
    [runFullSimulation] with its inlined path simulator and payoff
    valuator.

    Numbers.  The source computes on JavaScript numbers.  The
    definitions are written once, over an interface [Number] that lists
    the operations the source applies to numbers; control flow, list
    shapes and the slot bookkeeping are proved for every implementation
    of that interface.  Statements about the computed values (ordering
    of an axis, the closed form of a price) are proved for the instance
    [RNumber], exact real arithmetic.

    Randomness.  [Math.random] is a hidden global generator; it is made
    explicit as a generator state threaded through every draw
    ([RandomSource]).  The rejection loops of the Gaussian sampler run
    on a bound that the generator supplies.

    Array sizes.  [nPaths] is modelled as an integer; allocation limits
    of the engine are not modelled. *)

From Stdlib Require Import ZArith List Bool Lia Reals Lra Permutation.
From Stdlib Require String.
Import ListNotations.

Set Implicit Arguments.

(** ** JavaScript numbers *)

Class Number (num : Type) : Type := {
  of_Z : Z -> num;                    (* integer literals, integer values *)
  num_half : num;                     (* the literal [0.5] *)
  add : num -> num -> num;
  sub : num -> num -> num;
  mul : num -> num -> num;
  div : num -> num -> num;
  neg : num -> num;                   (* unary minus *)
  Math_pow : num -> Z -> num;         (* Math.pow, integer exponent *)
  Math_exp : num -> num;
  Math_log : num -> num;
  Math_sqrt : num -> num;
  Math_cos : num -> num;
  Math_max : num -> num -> num;
  Math_PI : num;
  strict_eq : num -> num -> bool      (* [===] on two numbers *)
}.

Declare Scope js_scope.
Delimit Scope js_scope with js.
Notation "x + y" := (add x y) : js_scope.
Notation "x - y" := (sub x y) : js_scope.
Notation "x * y" := (mul x y) : js_scope.
Notation "x / y" := (div x y) : js_scope.
Notation "- x" := (neg x) : js_scope.
Notation "x === y" := (strict_eq x y) (at level 70, no associativity) : js_scope.

(** The hidden generator behind [Math.random], made explicit: a draw
    returns a number and the next generator state.  [zeroRun g] bounds the
    number of draws equal to 0 that the generator yields in a row from
    [g]; the rejection loops of the Gaussian sampler stop within it. *)
Class RandomSource (num : Type) : Type := {
  rng : Type;
  Math_random : rng -> num * rng;
  zeroRun : rng -> nat
}.

(** Exact real arithmetic. *)
#[export] Instance RNumber : Number R := {|
  of_Z := IZR;
  num_half := (1 / 2)%R;
  add := Rplus;
  sub := Rminus;
  mul := Rmult;
  div := Rdiv;
  neg := Ropp;
  Math_pow := powerRZ;
  Math_exp := exp;
  Math_log := ln;
  Math_sqrt := sqrt;
  Math_cos := cos;
  Math_max := Rmax;
  Math_PI := PI;
  strict_eq := fun x y => if Req_dec_T x y then true else false
|}.

(** ** Gaussian sampler *)

Section Sampler.
Context {num : Type} `{Number num} `{RandomSource num}.
Local Open Scope js_scope.

(* [while (u === 0) u = Math.random()], entered with u = 0: draw until the
   first value that is not 0.  [retries] is the number of further draws
   allowed after a 0. *)
Fixpoint drawUntilNonZero (retries : nat) (g : rng) : num * rng :=
  let (u, g') := Math_random g in
  match retries with
  | O => (u, g')
  | S retries' =>
      if u === of_Z 0 then drawUntilNonZero retries' g' else (u, g')
  end.

(* Box-Muller transform for the standard normal distribution. *)
Definition gaussianRandom (g : rng) : num * rng :=
  let (u, g1) := drawUntilNonZero (zeroRun g) g in
  let (v, g2) := drawUntilNonZero (zeroRun g1) g1 in
  (Math_sqrt (of_Z (-2) * Math_log u) * Math_cos (of_Z 2 * Math_PI * v), g2).
End Sampler.

(** ** Scenario grid generators *)

Section Grid.
Context {num : Type} `{Number num}.
Local Open Scope js_scope.

(* [P*(1-s)^2, P*(1-s), P, P*(1+s), P*(1+s)^2] *)
Definition generateGeometricScenarios (pivot stepPercent : num) : list num :=
  let step := stepPercent / of_Z 100 in
  [ pivot * Math_pow (of_Z 1 - step) 2;
    pivot * (of_Z 1 - step);
    pivot;
    pivot * (of_Z 1 + step);
    pivot * Math_pow (of_Z 1 + step) 2 ].

(* [P-2s, P-s, P, P+s, P+2s] *)
Definition generateArithmeticScenarios (pivot stepPercent : num) : list num :=
  let step := stepPercent / of_Z 100 in
  [ pivot - of_Z 2 * step;
    pivot - step;
    pivot;
    pivot + step;
    pivot + of_Z 2 * step ].
End Grid.

(** ** Detailed-column mapper *)

(* Returns index 0-26 if match, -1 otherwise (source comment).  The three
   [if (sIdx === n) { ... }] groups of the source fall through to the next
   group when no inner test returns; [group2], [group3] and [fallthrough]
   are those continuations. *)
Definition getDetailedColumnIndex (sIdx vIdx tIdx : Z) : Z :=
  (* Part 1: central scenario, columns 0, 1, 2 *)
  if ((sIdx =? 2) && (vIdx =? 2))%Z then tIdx
  else
    (* Part 2: blocks of 8 per maturity *)
    let baseOffset := (3 + tIdx * 8)%Z in
    let fallthrough := (-1)%Z in
    let group3 :=
      if (sIdx =? 3)%Z then
        if (vIdx =? 2)%Z then (baseOffset + 5)%Z
        else if (vIdx =? 1)%Z then (baseOffset + 6)%Z
        else if (vIdx =? 3)%Z then (baseOffset + 7)%Z
        else fallthrough
      else fallthrough in
    let group2 :=
      if (sIdx =? 2)%Z then
        if (vIdx =? 1)%Z then (baseOffset + 3)%Z
        else if (vIdx =? 3)%Z then (baseOffset + 4)%Z
        else group3
      else group3 in
    if (sIdx =? 1)%Z then
      if (vIdx =? 2)%Z then (baseOffset + 0)%Z
      else if (vIdx =? 1)%Z then (baseOffset + 1)%Z
      else if (vIdx =? 3)%Z then (baseOffset + 2)%Z
      else group2
    else group2.

(** ** Exceptions, arrays and loops *)

Inductive exn : Type := RangeError.

(* A call either returns or throws. *)
Inductive outcome (A : Type) : Type :=
  | Returned (a : A)
  | Thrown (e : exn).
Arguments Thrown {A} e.

Definition bind {A B : Type} (c : outcome A) (k : A -> outcome B) : outcome B :=
  match c with
  | Returned a => k a
  | Thrown e => Thrown e
  end.

Notation "x <- c ;; k" := (bind c (fun x => k))
  (at level 61, c at next level, right associativity).

(* [for (let i = 0; i < n; i++) body], the state threaded through. *)
Fixpoint forEach {S : Type} (idxs : list nat) (body : nat -> S -> outcome S)
    (st : S) : outcome S :=
  match idxs with
  | [] => Returned st
  | i :: rest => st' <- body i st ;; forEach rest body st'
  end.

Definition forLoop {S : Type} (n : nat) (body : nat -> S -> outcome S)
    (st : S) : outcome S :=
  forEach (seq 0 n) body st.

(* A JavaScript array of arrays: an index holds a value or is a hole. *)
Definition jsarray (A : Type) : Type := list (option A).

(* [a[i] = v]: in range it overwrites, past the end the array grows and the
   skipped indices are holes. *)
Fixpoint js_set {A : Type} (a : jsarray A) (i : nat) (v : A) : jsarray A :=
  match i, a with
  | O, [] => [Some v]
  | O, _ :: tl => Some v :: tl
  | S i', [] => None :: js_set [] i' v
  | S i', x :: tl => x :: js_set tl i' v
  end.

(* [a[p] = v] on a typed array: a write past the end is dropped. *)
Fixpoint typed_set {A : Type} (a : list A) (p : nat) (v : A) : list A :=
  match a, p with
  | [], _ => []
  | _ :: tl, O => v :: tl
  | x :: tl, S p' => x :: typed_set tl p' v
  end.

(** ** Data model (types.ts) *)

Record SimulationParams (num : Type) : Type := {
  r : num;              (* interest rate (%) *)
  q : num;              (* dividend yield (%) *)
  s0 : num;             (* spot pivot *)
  s0Step : num;         (* spot step (%) *)
  vol : num;            (* volatility pivot (%) *)
  volStep : num;        (* volatility step (%) *)
  nPaths : Z;
  maturities : list num;
  strikes : list num
}.

Module SRow.
Record ScenarioRow (num : Type) : Type := {
  s0 : num;
  vol : num;
  t : num;
  k : num;
  price : num;
  stdErr : num
}.
End SRow.
Abbreviation ScenarioRow := SRow.ScenarioRow.

Record SimulationResult (num : Type) : Type := {
  results : list (ScenarioRow num);
  centralDistribution : list num;
  detailedPaths : jsarray (list num)
}.

(** ** Orchestrator *)

Section Engine.
Context {num : Type} `{Number num} `{RandomSource num}.
Local Open Scope js_scope.

(* [new Float64Array(n)]: zero-filled, RangeError on a negative length. *)
Definition newFloat64Array (n : Z) : outcome (list num) :=
  if (n <? 0)%Z then Thrown RangeError
  else Returned (repeat (of_Z 0) (Z.to_nat n)).

(* Lines 113-122 of runFullSimulation: the simulation core for one
   (S0, Vol, T) tuple. *)
Definition simulateTerminalPrices (currentS0 currentVol t rDec qDec : num)
    (nPaths : Z) (g : rng) : outcome (list num * rng) :=
  let drift := (rDec - qDec - num_half * currentVol * currentVol) * t in
  let diffusion := currentVol * Math_sqrt t in
  terminalPrices <- newFloat64Array nPaths ;;
  Returned
    (fold_left
       (fun (acc : list num * rng) (p : nat) =>
          let (z, g') := gaussianRandom (snd acc) in
          (typed_set (fst acc) p (currentS0 * Math_exp (drift + diffusion * z)),
           g'))
       (seq 0 (Z.to_nat nPaths)) (terminalPrices, g)).

(* Lines 140-149: pricing of one strike on a simulated sample. *)
Definition sumPayoffs (terminalPrices : list num) (nPaths : Z) (k : num) : num :=
  fold_left
    (fun (sumPayoff : num) (p : nat) =>
       let st := nth p terminalPrices (of_Z 0) in
       let payoff := Math_max (st - k) (of_Z 0) in
       sumPayoff + payoff)
    (seq 0 (Z.to_nat nPaths)) (of_Z 0).

Definition strikePrice (discountFactor : num) (terminalPrices : list num)
    (nPaths : Z) (k : num) : num :=
  let avgPayoff := sumPayoffs terminalPrices nPaths k / of_Z nPaths in
  discountFactor * avgPayoff.

(* The loop variables of runFullSimulation.  [st_log] is ghost state: it
   records, per iterated (i, j, tIdx), the sample that iteration
   simulated, so that a theorem can name "the sample simulated for a
   triple". *)
Record LoopState : Type := {
  st_rng : rng;
  st_results : list (ScenarioRow num);
  st_central : list num;
  st_detailed : jsarray (list num);
  st_log : list ((nat * nat * nat) * list num)
}.

Definition centralS0Index : nat := 2.
Definition centralVolIndex : nat := 2.

(* [t === targetDistT], where targetDistT = maturities[0] is undefined
   for an empty list. *)
Definition isTargetMaturity (t : num) (targetDistT : option num) : bool :=
  match targetDistT with
  | Some t0 => t === t0
  | None => false
  end.

(* Body of the innermost scenario loop (lines 110-159). *)
Definition scenarioStep (p : SimulationParams num) (s0List volList : list num)
    (i j tIdx : nat) (st : LoopState) : outcome LoopState :=
  let rDec := r p / of_Z 100 in
  let qDec := q p / of_Z 100 in
  let targetDistT := nth_error (maturities p) 0 in
  let currentS0 := nth i s0List (of_Z 0) in
  let currentVol := nth j volList (of_Z 0) in
  let t := nth tIdx (maturities p) (of_Z 0) in
  let discountFactor := Math_exp ((- rDec) * t) in
  sim <- simulateTerminalPrices currentS0 currentVol t rDec qDec (nPaths p)
           (st_rng st) ;;
  let terminalPrices := fst sim in
  let central :=
    if (i =? centralS0Index)%nat && (j =? centralVolIndex)%nat
       && isTargetMaturity t targetDistT
    then terminalPrices else st_central st in
  let detailedIdx :=
    getDetailedColumnIndex (Z.of_nat i) (Z.of_nat j) (Z.of_nat tIdx) in
  let detailed :=
    if (detailedIdx =? -1)%Z then st_detailed st
    else js_set (st_detailed st) (Z.to_nat detailedIdx) terminalPrices in
  let rows :=
    map (fun k =>
           {| SRow.s0 := currentS0; SRow.vol := currentVol; SRow.t := t;
              SRow.k := k;
              SRow.price := strikePrice discountFactor terminalPrices (nPaths p) k;
              SRow.stdErr := of_Z 0 |})
        (strikes p) in
  Returned {| st_rng := snd sim;
              st_results := st_results st ++ rows;
              st_central := central;
              st_detailed := detailed;
              st_log := st_log st ++ [((i, j, tIdx), terminalPrices)] |}.

Definition initialState (g : rng) : LoopState :=
  {| st_rng := g;
     st_results := [];
     st_central := [];
     st_detailed := repeat (Some []) 27;
     st_log := [] |}.

Definition runLoops (p : SimulationParams num) (g : rng) : outcome LoopState :=
  let s0List := generateGeometricScenarios (s0 p) (s0Step p) in
  let volList := generateArithmeticScenarios (vol p / of_Z 100) (volStep p) in
  forLoop (length s0List) (fun i =>
    forLoop (length volList) (fun j =>
      forLoop (length (maturities p)) (fun tIdx =>
        scenarioStep p s0List volList i j tIdx)))
    (initialState g).

Definition runFullSimulation (p : SimulationParams num) (g : rng)
    : outcome (SimulationResult num) :=
  st <- runLoops p g ;;
  Returned {| results := st_results st;
              centralDistribution := st_central st;
              detailedPaths := st_detailed st |}.

(* The ghost log of a run: which sample each iteration simulated. *)
Definition sampleLog (p : SimulationParams num) (g : rng)
    : list ((nat * nat * nat) * list num) :=
  match runLoops p g with
  | Returned st => st_log st
  | Thrown _ => []
  end.
End Engine.

(** ** Iteration space and specification-side definitions *)

(* The (i, j, tIdx) triples in the order the three nested loops visit
   them, for M maturities. *)
Definition scenarioTriples (M : nat) : list (nat * nat * nat) :=
  flat_map (fun i =>
    flat_map (fun j => map (fun tIdx => (i, j, tIdx)) (seq 0 M)) (seq 0 5))
    (seq 0 5).

Definition columnOf (key : nat * nat * nat) : Z :=
  let '(i, j, tIdx) := key in
  getDetailedColumnIndex (Z.of_nat i) (Z.of_nat j) (Z.of_nat tIdx).

Definition isMapped (key : nat * nat * nat) : bool :=
  negb (columnOf key =? -1)%Z.

(* The enumeration of the mapping table, as the specification words it:
   offsets within a block, keyed by (spotIndex, volIndex). *)
Definition blockOffsets : list ((Z * Z) * Z) :=
  [ ((1, 2), 0); ((1, 1), 1); ((1, 3), 2); ((2, 1), 3);
    ((2, 3), 4); ((3, 2), 5); ((3, 1), 6); ((3, 3), 7) ]%Z.

Fixpoint lookupOffset (s v : Z) (tbl : list ((Z * Z) * Z)) : option Z :=
  match tbl with
  | [] => None
  | ((s', v'), off) :: rest =>
      if ((s =? s') && (v =? v'))%Z then Some off else lookupOffset s v rest
  end.

(* [None] is the specification's "unmapped". *)
Definition tableColumn (s v tIdx : Z) : option Z :=
  if ((s =? 2) && (v =? 2))%Z then Some tIdx
  else option_map (fun off => 3 + 8 * tIdx + off)%Z (lookupOffset s v blockOffsets).

Fixpoint strictlyAscending (l : list R) : Prop :=
  match l with
  | a :: (b :: _) as tl => (a < b)%R /\ strictlyAscending tl
  | _ => True
  end.

Fixpoint strictlyDescending (l : list R) : Prop :=
  match l with
  | a :: (b :: _) as tl => (b < a)%R /\ strictlyDescending tl
  | _ => True
  end.

(* Discounted sum of call payoffs, as the valuator's formula words it. *)
Definition payoffSum (sample : list R) (K : R) : R :=
  fold_right (fun x acc => (Rmax (x - K) 0 + acc)%R) 0%R sample.

(** ** Replaying a run from its log *)

Section Replay.
Context {num : Type} `{Number num} `{RandomSource num}.
Local Open Scope js_scope.

(* The draws of one sample, as a plain recursion: [f] turns a Gaussian
   draw into a terminal price. *)
Fixpoint drawPrices (f : num -> num) (n : nat) (g : rng) : list num * rng :=
  match n with
  | O => ([], g)
  | S n' =>
      let (z, g') := gaussianRandom g in
      let (rest, g'') := drawPrices f n' g' in
      (f z :: rest, g'')
  end.

(* Terminal price of one path, given its draw (line 121). *)
Definition terminalPrice (currentS0 currentVol t rDec qDec z : num) : num :=
  currentS0 *
  Math_exp ((rDec - qDec - num_half * currentVol * currentVol) * t
            + currentVol * Math_sqrt t * z).

(* One iteration of the scenario loop on a run that does not throw. *)
Definition stepOrStay (p : SimulationParams num) (s0List volList : list num)
    (st : LoopState) (key : nat * nat * nat) : LoopState :=
  let '(i, j, tIdx) := key in
  match scenarioStep p s0List volList i j tIdx st with
  | Returned st' => st'
  | Thrown _ => st
  end.

Definition isCentralEntry (p : SimulationParams num)
    (e : (nat * nat * nat) * list num) : bool :=
  let '(i, j, tIdx) := fst e in
  (i =? centralS0Index)%nat && (j =? centralVolIndex)%nat
  && isTargetMaturity (nth tIdx (maturities p) (of_Z 0))
                      (nth_error (maturities p) 0).

Definition centralFrom (p : SimulationParams num) (init : list num)
    (log : list ((nat * nat * nat) * list num)) : list num :=
  fold_left (fun c e => if isCentralEntry p e then snd e else c) log init.

Definition detailedFrom (init : jsarray (list num))
    (log : list ((nat * nat * nat) * list num)) : jsarray (list num) :=
  fold_left
    (fun d e =>
       if (columnOf (fst e) =? -1)%Z then d
       else js_set d (Z.to_nat (columnOf (fst e))) (snd e))
    log init.

Definition rowsOfEntry (p : SimulationParams num) (s0List volList : list num)
    (e : (nat * nat * nat) * list num) : list (ScenarioRow num) :=
  let '(i, j, tIdx) := fst e in
  let t := nth tIdx (maturities p) (of_Z 0) in
  map (fun k =>
         {| SRow.s0 := nth i s0List (of_Z 0);
            SRow.vol := nth j volList (of_Z 0);
            SRow.t := t;
            SRow.k := k;
            SRow.price :=
              strikePrice (Math_exp ((- (r p / of_Z 100)) * t)) (snd e)
                          (nPaths p) k;
            SRow.stdErr := of_Z 0 |})
      (strikes p).

(* The two axes of a run (line 81 and line 84). *)
Definition spotAxis (p : SimulationParams num) : list num :=
  generateGeometricScenarios (s0 p) (s0Step p).

Definition volAxis (p : SimulationParams num) : list num :=
  generateArithmeticScenarios (vol p / of_Z 100) (volStep p).

(* A sample is the output of the simulation core for the scenario of its
   triple, from some generator state. *)
Definition isSampleOf (p : SimulationParams num) (s0List volList : list num)
    (e : (nat * nat * nat) * list num) : Prop :=
  let '(i, j, tIdx) := fst e in
  exists g : rng,
    snd e =
    fst (drawPrices
           (terminalPrice (nth i s0List (of_Z 0)) (nth j volList (of_Z 0))
                          (nth tIdx (maturities p) (of_Z 0))
                          (r p / of_Z 100) (q p / of_Z 100))
           (Z.to_nat (nPaths p)) g).
End Replay.

(** ** Vocabulary of the statements *)

Section Statements.
Context {num : Type} `{Number num} `{RandomSource num}.
Local Open Scope js_scope.

(* The input contract: a positive path count, at least one maturity and
   one strike.  Of "all numeric fields finite" the control flow only uses
   that a maturity is a number equal to itself. *)
Definition validParams (p : SimulationParams num) : Prop :=
  (1 <= nPaths p)%Z /\ maturities p <> [] /\ strikes p <> [] /\
  Forall (fun m => (m === m) = true) (maturities p).

(* The run simulated [sample] at the iteration (i, j, tIdx). *)
Definition simulatedFor (p : SimulationParams num) (g : rng)
    (key : nat * nat * nat) (sample : list num) : Prop :=
  In (key, sample) (sampleLog p g).

Definition rowKey (row : ScenarioRow num) : num * num * num * num :=
  (SRow.s0 row, SRow.vol row, SRow.t row, SRow.k row).

(* spot (outermost) -> vol -> maturity -> strike (innermost) *)
Definition crossProduct (p : SimulationParams num)
    : list (num * num * num * num) :=
  flat_map (fun s =>
    flat_map (fun v =>
      flat_map (fun t => map (fun k => (s, v, t, k)) (strikes p))
               (maturities p))
      (volAxis p))
    (spotAxis p).
End Statements.

(** ** Concrete inputs *)

(* A generator without zeros: its uniform draws are 1/2, 1/2, 1/4, 1/2,
   1/6, 1/2, ...  A Gaussian draw takes an even-numbered draw as u and the
   following 1/2 as v. *)
#[export] Instance counterSource : RandomSource R := {|
  rng := nat;
  Math_random := fun n =>
    ((if Nat.even n then / INR (n + 2) else 1 / 2)%R, S n);
  zeroRun := fun _ => 0%nat
|}.

Definition seed : @rng R counterSource := 0%nat.

(* The parameters of the end-to-end example, with two paths. *)
Definition exampleParams : SimulationParams R :=
  {| r := 3; q := 0; s0 := 50000; s0Step := 2.5; vol := 20; volStep := 1;
     nPaths := 2; maturities := [4; 5; 6]; strikes := [50000; 52000] |}%R.

(* The first maturity occurs twice. *)
Definition repeatedMaturityParams : SimulationParams R :=
  {| r := 0; q := 0; s0 := 1; s0Step := 1; vol := 100; volStep := 1;
     nPaths := 1; maturities := [1; 1]; strikes := [1] |}%R.


(* Four maturities. *)
Definition fourMaturitiesParams : SimulationParams R :=
  {| r := 3; q := 0; s0 := 50000; s0Step := 2.5; vol := 20; volStep := 1;
     nPaths := 1; maturities := [1; 2; 3; 4]; strikes := [50000] |}%R.

(** ** Proof automation *)

(* Case analysis on every integer equality test of the goal. *)
Ltac split_eqb :=
  repeat match goal with
         | |- context [(?a =? ?b)%Z] => destruct (Z.eqb_spec a b); cbn [andb]
         end.

(* Evaluate a concrete run, leaving the real-number operations alone. *)
Ltac run_concrete_in E :=
  cbv - [Rplus Rminus Rmult Rdiv Ropp Rinv exp ln sqrt cos PI Rmax IZR
         powerRZ Req_dec_T INR] in E.

(** ** Column table of the detailed view (ResultTable.tsx, App.tsx) *)

Import String.StringSyntax.
Delimit Scope string_scope with string.

Module ColDef.
Record t : Type := {
  sIdx : nat;
  vIdx : nat;
  tIdx : nat;
  label : String.string
}.
End ColDef.

(* ResultTable.tsx, lines 19-57: the 27 columns; [forEach] with [push]
   appends in order. *)
Definition colDefs : list ColDef.t :=
  flat_map
    (fun tIdx =>
       [ {| ColDef.sIdx := 2; ColDef.vIdx := 2; ColDef.tIdx := tIdx;
            ColDef.label := "Pivot"%string |} ])
    [0; 1; 2]%nat
  ++
  flat_map
    (fun tIdx =>
       [ {| ColDef.sIdx := 1; ColDef.vIdx := 2; ColDef.tIdx := tIdx;
            ColDef.label := "S-"%string |};
         {| ColDef.sIdx := 1; ColDef.vIdx := 1; ColDef.tIdx := tIdx;
            ColDef.label := "S-, V-"%string |};
         {| ColDef.sIdx := 1; ColDef.vIdx := 3; ColDef.tIdx := tIdx;
            ColDef.label := "S-, V+"%string |};
         {| ColDef.sIdx := 2; ColDef.vIdx := 1; ColDef.tIdx := tIdx;
            ColDef.label := "V-"%string |};
         {| ColDef.sIdx := 2; ColDef.vIdx := 3; ColDef.tIdx := tIdx;
            ColDef.label := "V+"%string |};
         {| ColDef.sIdx := 3; ColDef.vIdx := 2; ColDef.tIdx := tIdx;
            ColDef.label := "S+"%string |};
         {| ColDef.sIdx := 3; ColDef.vIdx := 1; ColDef.tIdx := tIdx;
            ColDef.label := "S+, V-"%string |};
         {| ColDef.sIdx := 3; ColDef.vIdx := 3; ColDef.tIdx := tIdx;
            ColDef.label := "S+, V+"%string |} ])
    [0; 1; 2]%nat.

(* App.tsx, lines 76-90: the same table rebuilt for the export, without
   labels; an entry {sIdx, vIdx, tIdx} is the triple (sIdx, vIdx, tIdx). *)
Definition exportColDefs : list (nat * nat * nat) :=
  flat_map (fun tIdx => [ (2, 2, tIdx) ]) [0; 1; 2]%nat
  ++
  flat_map
    (fun tIdx =>
       [ (1, 2, tIdx); (1, 1, tIdx); (1, 3, tIdx);
         (2, 1, tIdx); (2, 3, tIdx);
         (3, 2, tIdx); (3, 1, tIdx); (3, 3, tIdx) ])
    [0; 1; 2]%nat.

Definition colDefKey (c : ColDef.t) : nat * nat * nat :=
  (ColDef.sIdx c, ColDef.vIdx c, ColDef.tIdx c).

(** ** Spreadsheet export (App.tsx, handleExportExcel) *)

(* A cell of a sheet: (string | number), or undefined when an array was
   read out of range. *)
Inductive cell (num : Type) : Type :=
  | CellNum (x : num)
  | CellStr (s : String.string)
  | CellUndefined.
Arguments CellStr {num} s.
Arguments CellUndefined {num}.

(* [a[i]] on a number array, [i] an integer. *)
Definition arrayCell {num : Type} (a : list num) (i : Z) : cell num :=
  if (i <? 0)%Z then CellUndefined
  else match nth_error a (Z.to_nat i) with
       | Some x => CellNum x
       | None => CellUndefined
       end.

Section ExportSheets.
Context {num : Type} `{Number num}.
Local Open Scope js_scope.

(* Lines 93-99: the three header rows. *)
Definition headerRow1 (p : SimulationParams num) : list (cell num) :=
  let s0Values := generateGeometricScenarios (s0 p) (s0Step p) in
  CellStr "Stock Price :"%string
  :: map (fun c : nat * nat * nat =>
            let '(sIdx, _, _) := c in arrayCell s0Values (Z.of_nat sIdx))
         exportColDefs.

Definition headerRow2 (p : SimulationParams num) : list (cell num) :=
  let volValues := generateArithmeticScenarios (vol p / of_Z 100) (volStep p) in
  CellStr "Volatilité"%string
  :: map (fun c : nat * nat * nat =>
            let '(_, vIdx, _) := c in arrayCell volValues (Z.of_nat vIdx))
         exportColDefs.

Definition headerRow3 (p : SimulationParams num) : list (cell num) :=
  CellStr "Maturity"%string
  :: map (fun c : nat * nat * nat =>
            let '(_, _, tIdx) := c in arrayCell (maturities p) (Z.of_nat tIdx))
         exportColDefs.

(* Lines 154-158: one cell of the path sheet.  A hole or an index past the
   end of [detailedPaths] reads undefined, which is falsy; an array,
   even empty, is truthy. *)
Definition pathCell (detailed : jsarray (list num)) (c : nat) (pathIdx : Z)
    : cell num :=
  match nth_error detailed c with
  | Some (Some column) =>
      if (Z.of_nat (length column) >? pathIdx)%Z then arrayCell column pathIdx
      else CellStr String.EmptyString
  | _ => CellStr String.EmptyString
  end.

(* Lines 136-161: the rows of the sheet "Simulated Paths"%string below its
   header. *)
Definition simulatedPathRows (p : SimulationParams num)
    (res : SimulationResult num) : list (list (cell num)) :=
  let totalPaths := nPaths p in
  let exportCount := Z.min totalPaths 200000 in
  let startIndex := (totalPaths - exportCount)%Z in
  map (fun i : nat =>
         let pathIdx := (startIndex + Z.of_nat i)%Z in
         CellNum (of_Z (Z.of_nat i + 1))
         :: map (fun c => pathCell (detailedPaths res) c pathIdx)
                (seq 0 (length exportColDefs)))
      (seq 0 (Z.to_nat exportCount)).

Definition sheet2Data (p : SimulationParams num) (res : SimulationResult num)
    : list (list (cell num)) :=
  [headerRow1 p; headerRow2 p; headerRow3 p] ++ simulatedPathRows p res.
End ExportSheets.

(** ** Application state (App.tsx) *)

Section App.
Context {num : Type} `{Number num} `{RandomSource num}.
Local Open Scope js_scope.

(* The state hooks that the run handler and the heatmap read or write. *)
Record AppState : Type := {
  app_results : option (SimulationResult num);
  selectedMaturity : num;
  selectedStrike : num
}.

(* useState(null), useState(0), useState(0) *)
Definition initialAppState : AppState :=
  {| app_results := None;
     selectedMaturity := of_Z 0;
     selectedStrike := of_Z 0 |}.

(* Lines 47-61, the body of the deferred callback of handleRunSimulation:
   the new state and the alert, if one is raised.  [maturities[0]] and
   [strikes[0]] are read only when a row exists, hence when both lists
   are non-empty. *)
Definition handleRunSimulation (p : SimulationParams num) (g : rng)
    (st : AppState) : AppState * option String.string :=
  match runFullSimulation p g with
  | Returned simResults =>
      if (0 <? length (results simResults))%nat then
        ({| app_results := Some simResults;
            selectedMaturity := nth 0 (maturities p) (of_Z 0);
            selectedStrike := nth 0 (strikes p) (of_Z 0) |}, None)
      else
        ({| app_results := Some simResults;
            selectedMaturity := selectedMaturity st;
            selectedStrike := selectedStrike st |}, None)
  | Thrown _ =>
      (st, Some "Simulation failed. Please check your inputs."%string)
  end.

(* Lines 184-189: the rows handed to the heatmap. *)
Definition currentHeatmapData (st : AppState) : list (ScenarioRow num) :=
  match app_results st with
  | None => []
  | Some res =>
      filter (fun row =>
                (SRow.t row === selectedMaturity st)
                && (SRow.k row === selectedStrike st))
             (results res)
  end.
End App.

(** ** Sidebar (components/Sidebar.tsx) *)

Section Sidebar.
Context {num : Type} `{Number num}.

(* [while (newMat.length <= index) newMat.push(0)]: [trips] is the number
   of times the loop body runs. *)
Fixpoint pushZeros (trips : nat) (newMat : list num) : list num :=
  match trips with
  | O => newMat
  | S trips' => pushZeros trips' (newMat ++ [of_Z 0])
  end.

(* Lines 77-85, the state update of updateMaturity.  After the padding
   loop [index] is in range, so the assignment overwrites in place. *)
Definition updateMaturity (index : nat) (val : num)
    (prev : SimulationParams num) : SimulationParams num :=
  let newMat := maturities prev in
  let newMat := pushZeros (S index - length newMat) newMat in
  let newMat := typed_set newMat index val in
  {| r := r prev; q := q prev; s0 := s0 prev; s0Step := s0Step prev;
     vol := vol prev; volStep := volStep prev; nPaths := nPaths prev;
     maturities := newMat; strikes := strikes prev |}.
End Sidebar.

(** ** Generator bookkeeping *)

Section Generator.
Context {num : Type} `{Number num} `{RandomSource num}.

(* The generator state after [k] calls of Math.random. *)
Fixpoint rngAfter (k : nat) (g : rng) : rng :=
  match k with
  | O => g
  | S k' => rngAfter k' (snd (Math_random g))
  end.

(* The value of call number [k] (from 0) of Math.random. *)
Definition drawAt (k : nat) (g : rng) : num :=
  fst (Math_random (rngAfter k g)).

(* The generator state after [n] calls of gaussianRandom. *)
Fixpoint skipGaussian (n : nat) (g : rng) : rng :=
  match n with
  | O => g
  | S n' => skipGaussian n' (snd (gaussianRandom g))
  end.
End Generator.

(* A generator that yields 0 twice before its first nonzero draw. *)
Definition zeroFirstSource : RandomSource R := {|
  rng := nat;
  Math_random := fun n => ((if (n <? 2)%nat then 0 else 1 / 2)%R, S n);
  zeroRun := fun n => (2 - n)%nat
|}.

(* A sequence of edits of the three maturity inputs of the sidebar. *)
Definition applyMaturityEdits {num : Type} `{Number num}
    (edits : list (nat * num)) (p : SimulationParams num)
    : SimulationParams num :=
  fold_left (fun prev edit => updateMaturity (fst edit) (snd edit) prev)
            edits p.


(** ** Pricing sheet of the export (App.tsx, lines 101-126), exact arithmetic *)

Section PricingSheet.
Local Open Scope R_scope.

(* [Math.abs(x - y) < tol], [y] read from an array: an index out of range
   reads undefined, the difference is NaN and the comparison is false. *)
Definition within (x : R) (y : option R) (tol : R) : bool :=
  match y with
  | Some y' => if Rlt_dec (Rabs (x - y')) tol then true else false
  | None => false
  end.

(* The predicate of [results.results.find(...)], lines 117-122. *)
Definition rowMatches (sVal vVal tVal : option R) (strike : R)
    (row : ScenarioRow R) : bool :=
  within (SRow.s0 row) sVal 0.001
  && within (SRow.vol row) vVal 0.0001
  && within (SRow.t row) tVal 0.001
  && within (SRow.k row) (Some strike) 0.001.

(* Lines 110-123: the price shown for [strike] in column [c]. *)
Definition pricingCell (p : SimulationParams R) (res : SimulationResult R)
    (strike : R) (c : nat * nat * nat) : R :=
  let s0Values := generateGeometricScenarios (s0 p) (s0Step p) in
  let volValues := generateArithmeticScenarios (vol p / 100) (volStep p) in
  let '(sIdx, vIdx, tIdx) := c in
  let sVal := nth_error s0Values sIdx in
  let vVal := nth_error volValues vIdx in
  let tVal := nth_error (maturities p) tIdx in
  match find (rowMatches sVal vVal tVal strike) (results res) with
  | Some m => SRow.price m
  | None => 0
  end.

(* Lines 101-126. *)
Definition sheet1Data (p : SimulationParams R) (res : SimulationResult R)
    : list (list (cell R)) :=
  [ headerRow1 p; headerRow2 p; headerRow3 p;
    [CellStr "Strike Price"%string] ]
  ++ map (fun strike =>
            CellNum strike
            :: map (fun c => CellNum (pricingCell p res strike c))
                   exportColDefs)
         (strikes p).

(* Distinct positions of [l] hold values at least [tol] apart. *)
Definition separatedBy (tol : R) (l : list R) : Prop :=
  forall a b : nat,
    (a < length l)%nat -> (b < length l)%nat ->
    Rabs (nth a l 0 - nth b l 0) < tol -> a = b.
End PricingSheet.

(* Every maturity is 0. *)
Definition zeroMaturityParams : SimulationParams R :=
  {| r := 3; q := 0; s0 := 50000; s0Step := 2.5; vol := 20; volStep := 1;
     nPaths := 2; maturities := [0; 0]; strikes := [49000; 50000] |}%R.


(** ** Histogram of the distribution chart (ResultTable.tsx, lines 298-347),
       exact arithmetic *)

(* The [name] of a bin: the number [mid], or the string [min.toFixed(0)]
   of the single bin, kept symbolic. *)
Inductive binName : Type :=
  | NameNumber (x : R)
  | NameToFixed0 (x : R).

Module Bin.
Record t : Type := {
  rangeStart : R;
  rangeEnd : R;
  mid : R;
  name : binName;
  count : nat
}.
End Bin.

Section Histogram.
Local Open Scope R_scope.

(* [val < min], [min] starting at Infinity ([None]). *)
Definition belowMin (val : R) (min : option R) : bool :=
  match min with
  | None => true
  | Some m => if Rlt_dec val m then true else false
  end.

(* [val > max], [max] starting at -Infinity ([None]). *)
Definition aboveMax (val : R) (max : option R) : bool :=
  match max with
  | None => true
  | Some m => if Rgt_dec val m then true else false
  end.

(* Lines 301-308: the scan for the least and the greatest value. *)
Definition scanRange (data : list R) : option R * option R :=
  fold_left
    (fun (acc : option R * option R) (val : R) =>
       let (min, max) := acc in
       (if belowMin val min then Some val else min,
        if aboveMax val max then Some val else max))
    data (None, None).

(* [bins[index].count++] when [bins[index]] exists. *)
Fixpoint bumpCount (bins : list Bin.t) (index : nat) : list Bin.t :=
  match bins, index with
  | [], _ => []
  | bin :: rest, O =>
      {| Bin.rangeStart := Bin.rangeStart bin;
         Bin.rangeEnd := Bin.rangeEnd bin;
         Bin.mid := Bin.mid bin;
         Bin.name := Bin.name bin;
         Bin.count := S (Bin.count bin) |} :: rest
  | bin :: rest, S index' => bin :: bumpCount rest index'
  end.

(* Lines 336-340: the bin of a value, clamped to 0 .. binsToUse - 1 in
   the order of the two tests. *)
Definition binIndex (min step : R) (binsToUse : nat) (val : R) : Z :=
  let index := Int_part ((val - min) / step) in
  let index :=
    if (index >=? Z.of_nat binsToUse)%Z then (Z.of_nat binsToUse - 1)%Z
    else index in
  if (index <? 0)%Z then 0%Z else index.

(* Lines 298-347.  The data are finite numbers; [min] or [max] is not
   finite only while it still holds its initial value. *)
Definition chartData (data : list R) (binCount : nat) : list Bin.t :=
  match data with
  | [] => []
  | _ :: _ =>
      match scanRange data with
      | (Some min, Some max) =>
          let binsToUse := binCount in
          if Req_dec_T min max then
            [ {| Bin.rangeStart := min;
                 Bin.rangeEnd := max;
                 Bin.mid := min;
                 Bin.name := NameToFixed0 min;
                 Bin.count := length data |} ]
          else
            let step := (max - min) / INR binsToUse in
            let bins :=
              map (fun i : nat =>
                     {| Bin.rangeStart := min + INR i * step;
                        Bin.rangeEnd := min + (INR i + 1) * step;
                        Bin.mid := min + (INR i * step) + (step / 2);
                        Bin.name :=
                          NameNumber (min + (INR i * step) + (step / 2));
                        Bin.count := 0 |})
                  (seq 0 binsToUse) in
            fold_left
              (fun bins val =>
                 bumpCount bins (Z.to_nat (binIndex min step binsToUse val)))
              data bins
      | _ => []
      end
  end.

(* [mn] and [mx] are the least and the greatest value of [data]. *)
Definition rangeOf (data : list R) (mn mx : R) : Prop :=
  In mn data /\ In mx data /\ forall v, In v data -> mn <= v <= mx.

(* The number of values of [data] in [lo, hi), or in [lo, hi] when
   [closed]. *)
Definition countBetween (lo hi : R) (closed : bool) (data : list R) : nat :=
  length
    (filter
       (fun v =>
          (if Rle_dec lo v then true else false)
          && ((if Rlt_dec v hi then true else false)
              || (closed && (if Rle_dec v hi then true else false))))
       data).
End Histogram.


(** ** Axes and rows of the result table (ResultTable.tsx, lines 64-110),
       exact arithmetic *)

Section ResultTable.
Local Open Scope R_scope.

(* [Array.from(new Set(xs))]: the distinct values of [xs] in the order of
   their first occurrence. *)
Definition arrayFromSet (xs : list R) : list R :=
  fold_left
    (fun set x => if in_dec Req_dec_T x set then set else set ++ [x])
    xs [].

(* [.sort((a, b) => a - b)] on numbers orders them ascending; insertion
   stands for the built-in sort. *)
Fixpoint insertAscending (x : R) (sorted : list R) : list R :=
  match sorted with
  | [] => [x]
  | y :: rest =>
      if Rle_dec x y then x :: sorted else y :: insertAscending x rest
  end.

Definition sortAscending (xs : list R) : list R :=
  fold_right insertAscending [] xs.

(* Lines 64-74. *)
Definition s0Values (res : SimulationResult R) : list R :=
  sortAscending (arrayFromSet (map (@SRow.s0 R) (results res))).

Definition volValues (res : SimulationResult R) : list R :=
  sortAscending (arrayFromSet (map (@SRow.vol R) (results res))).

(* Line 77: the table is replaced by the message "Not enough simulation
   steps generated"%string. *)
Definition notEnoughSteps (res : SimulationResult R) : bool :=
  (length (results res) =? 0)%nat
  || (length (s0Values res) <? 5)%nat
  || (length (volValues res) <? 5)%nat.

(* Lines 89-107: the value shown for strike [k] in column [c]. *)
Definition tableCell (p : SimulationParams R) (res : SimulationResult R)
    (k : R) (c : ColDef.t) : R :=
  if (length (s0Values res) <=? ColDef.sIdx c)%nat
     || (length (volValues res) <=? ColDef.vIdx c)%nat
     || (length (maturities p) <=? ColDef.tIdx c)%nat
  then 0
  else
    let sVal := nth_error (s0Values res) (ColDef.sIdx c) in
    let vVal := nth_error (volValues res) (ColDef.vIdx c) in
    let tVal := nth_error (maturities p) (ColDef.tIdx c) in
    match find (rowMatches sVal vVal tVal k) (results res) with
    | Some m => SRow.price m
    | None => 0
    end.

(* Lines 86-110: one row per strike, the strike and its 27 values. *)
Definition tableRows (p : SimulationParams R) (res : SimulationResult R)
    : list (R * list R) :=
  map (fun k => (k, map (tableCell p res k) colDefs)) (strikes p).
End ResultTable.

(* A spot step of 0. *)
Definition flatSpotParams : SimulationParams R :=
  {| r := 3; q := 0; s0 := 50000; s0Step := 0; vol := 20; volStep := 1;
     nPaths := 1; maturities := [1]; strikes := [50000] |}%R.


(** ** Heatmap (ResultTable.tsx, lines 187-280), exact arithmetic *)

(* A CSS colour: a literal, or [rgba(r, g, b, opacity)] with a computed
   opacity. *)
Inductive color : Type :=
  | ColorLiteral (css : String.string)
  | Rgba (red green blue : Z) (opacity : R).

Module Heatmap.
Section Heatmap.
Local Open Scope R_scope.

(* Lines 191-193. *)
Definition s0Axis (data : list (ScenarioRow R)) : list R :=
  sortAscending (arrayFromSet (map (@SRow.s0 R) data)).

Definition volAxis (data : list (ScenarioRow R)) : list R :=
  sortAscending (arrayFromSet (map (@SRow.vol R) data)).

(* Lines 196-197: [Math.min(...xs)] and [Math.max(...xs)]; without
   arguments they are Infinity and -Infinity ([None]). *)
Definition minPrice (data : list (ScenarioRow R)) : option R :=
  fold_left
    (fun m x => match m with None => Some x | Some m' => Some (Rmin m' x) end)
    (map (@SRow.price R) data) None.

Definition maxPrice (data : list (ScenarioRow R)) : option R :=
  fold_left
    (fun m x => match m with None => Some x | Some m' => Some (Rmax m' x) end)
    (map (@SRow.price R) data) None.

(* Lines 199-214, with the variables of the closure as parameters. *)
Definition getColor (minPrice maxPrice : R) (isDarkMode : bool) (price : R)
    : color :=
  if Req_dec_T maxPrice minPrice then
    if isDarkMode then ColorLiteral "#1e293b"%string
    else ColorLiteral "rgb(243, 244, 246)"%string
  else
    let ratio := (price - minPrice) / (maxPrice - minPrice) in
    if isDarkMode then
      let opacity := 0.2 + (ratio * 0.8) in
      Rgba 99 102 241 opacity
    else
      let opacity := 0.1 + (ratio * 0.9) in
      Rgba 79 70 229 opacity.

(* Lines 259-260: the price shown in the cell of [vol] and [s0]. *)
Definition cellPrice (data : list (ScenarioRow R)) (vol s0 : R) : R :=
  match find (fun d =>
                within (SRow.s0 d) (Some s0) 0.001
                && within (SRow.vol d) (Some vol) 0.0001)
             data with
  | Some cell => SRow.price cell
  | None => 0
  end.

(* Lines 253-275: the body of the table, one list per volatility. *)
Definition grid (data : list (ScenarioRow R)) : list (list R) :=
  map (fun vol => map (fun s0 => cellPrice data vol s0) (s0Axis data))
      (volAxis data).
End Heatmap.
End Heatmap.

(* Separation of the values of a concrete list, position by position. *)
Ltac separated_concrete :=
  intros a b Ha Hb; cbn in Ha, Hb;
  repeat (destruct a as [|a]; [|try lia]);
  repeat (destruct b as [|b]; [|try lia]);
  try reflexivity; try lia;
  cbn - [Rabs Rplus Rminus Rmult Rdiv Ropp Rinv IZR];
  try change (Pos.to_nat 2) with 2%nat; cbn [pow];
  intros Hlt; exfalso; revert Hlt;
  unfold Rabs; destruct (Rcase_abs _); lra.

(* Two rows of a heatmap with different prices. *)
Definition twoPriceRows : list (ScenarioRow R) :=
  [ {| SRow.s0 := 1; SRow.vol := 1; SRow.t := 1; SRow.k := 1;
       SRow.price := 2; SRow.stdErr := 0 |};
    {| SRow.s0 := 2; SRow.vol := 1; SRow.t := 1; SRow.k := 1;
       SRow.price := 6; SRow.stdErr := 0 |} ]%R.


(** ** Numbers with NaN *)

(* The real numbers with a NaN value ([None]): NaN propagates through the
   operations, [Math.pow(NaN, 0)] is 1, and NaN is not [===] to any
   number, itself included. *)
Definition nanLift2 (f : R -> R -> R) (x y : option R) : option R :=
  match x, y with
  | Some a, Some b => Some (f a b)
  | _, _ => None
  end.

Definition nanNumber : Number (option R) := {|
  of_Z := fun z => Some (IZR z);
  num_half := Some (1 / 2)%R;
  add := nanLift2 Rplus;
  sub := nanLift2 Rminus;
  mul := nanLift2 Rmult;
  div := nanLift2 Rdiv;
  neg := option_map Ropp;
  Math_pow := fun x z =>
    if (z =? 0)%Z then Some 1%R else option_map (fun a => powerRZ a z) x;
  Math_exp := option_map exp;
  Math_log := option_map ln;
  Math_sqrt := option_map sqrt;
  Math_cos := option_map cos;
  Math_max := nanLift2 Rmax;
  Math_PI := Some PI;
  strict_eq := fun x y =>
    match x, y with
    | Some a, Some b => if Req_dec_T a b then true else false
    | _, _ => false
    end
|}.

(* A generator whose draws are all 1/2. *)
Definition nanSource : RandomSource (option R) := {|
  rng := nat;
  Math_random := fun n => (Some (1 / 2)%R, S n);
  zeroRun := fun _ => 0%nat
|}.

Definition nanSeed : @rng (option R) nanSource := 0%nat.

(* Two maturities, before the first maturity input is cleared. *)
Definition twoMaturitiesParams : SimulationParams (option R) :=
  {| r := Some 3%R; q := Some 0%R; s0 := Some 50000%R; s0Step := Some 2.5%R;
     vol := Some 20%R; volStep := Some 1%R; nPaths := 2;
     maturities := [Some 1%R; Some 2%R]; strikes := [Some 50000%R] |}.

(** * Properties *)

(** ** Detailed-column mapper *)

Lemma mapper_pivot (tIdx : Z) : getDetailedColumnIndex 2 2 tIdx = tIdx.
Proof. reflexivity. Qed.

Lemma mapper_matches_table (s v tIdx : Z) :
  getDetailedColumnIndex s v tIdx =
  match tableColumn s v tIdx with Some c => c | None => (-1)%Z end.
Proof.
  unfold getDetailedColumnIndex, tableColumn, blockOffsets, lookupOffset, option_map.
  cbv zeta. split_eqb; try lia.
Qed.

Lemma mapped_columns_three_maturities :
  map columnOf (filter isMapped (scenarioTriples 3)) =
  [4; 12; 20; 3; 11; 19; 5; 13; 21; 6; 14; 22; 0; 1; 2; 7; 15; 23;
   9; 17; 25; 8; 16; 24; 10; 18; 26]%Z.
Proof. vm_compute. reflexivity. Qed.

(** C4: the mapper reproduces the enumeration of the mapping table
    ([tableColumn]: pivot/pivot maps to the maturity index, the eight
    listed pairs to 3 + 8*maturityIndex + offset, every other pair is
    unmapped); for three maturities exactly 27 of the 75 triples are
    mapped and their columns are a permutation of 0..26. *)
Theorem C4_mapper_enumeration :
  (forall s v tIdx : Z,
      getDetailedColumnIndex s v tIdx =
      match tableColumn s v tIdx with Some c => c | None => (-1)%Z end) /\
  length (scenarioTriples 3) = 75%nat /\
  length (filter isMapped (scenarioTriples 3)) = 27%nat /\
  Permutation (map columnOf (filter isMapped (scenarioTriples 3)))
              (map Z.of_nat (seq 0 27)).
Proof.
  split; [exact mapper_matches_table|].
  split; [reflexivity|]. split; [reflexivity|].
  rewrite mapped_columns_three_maturities.
  apply NoDup_Permutation_bis.
  - repeat (apply NoDup_cons; [cbn; intuition discriminate|]). apply NoDup_nil.
  - cbn. lia.
  - intros x Hx. cbn in Hx. cbn.
    repeat (destruct Hx as [<-|Hx]; [tauto|]). contradiction.
Qed.

(** ** Scenario grid generators *)

Section GridShape.
Context {num : Type} `{Number num}.

Lemma generateGeometricScenarios_length (pivot stepPercent : num) :
  length (generateGeometricScenarios pivot stepPercent) = 5%nat.
Proof. reflexivity. Qed.

Lemma generateArithmeticScenarios_length (pivot stepPercent : num) :
  length (generateArithmeticScenarios pivot stepPercent) = 5%nat.
Proof. reflexivity. Qed.

Lemma generateGeometricScenarios_pivot (pivot stepPercent d : num) :
  nth 2 (generateGeometricScenarios pivot stepPercent) d = pivot.
Proof. reflexivity. Qed.

Lemma generateArithmeticScenarios_pivot (pivot stepPercent d : num) :
  nth 2 (generateArithmeticScenarios pivot stepPercent) d = pivot.
Proof. reflexivity. Qed.
End GridShape.

Section GridOrder.
Local Open Scope R_scope.

Lemma arithmetic_values (pivot stepPercent : R) :
  generateArithmeticScenarios pivot stepPercent =
  [ pivot - 2 * (stepPercent / 100); pivot - stepPercent / 100; pivot;
    pivot + stepPercent / 100; pivot + 2 * (stepPercent / 100) ].
Proof. reflexivity. Qed.

Lemma geometric_values (pivot stepPercent : R) :
  generateGeometricScenarios pivot stepPercent =
  [ pivot * ((1 - stepPercent / 100) * (1 - stepPercent / 100));
    pivot * (1 - stepPercent / 100); pivot;
    pivot * (1 + stepPercent / 100);
    pivot * ((1 + stepPercent / 100) * (1 + stepPercent / 100)) ].
Proof.
  unfold generateGeometricScenarios. cbn.
  change (Pos.to_nat 2) with 2%nat. cbn [pow]. rewrite !Rmult_1_r. reflexivity.
Qed.

Lemma arithmetic_ascending_iff (pivot stepPercent : R) :
  strictlyAscending (generateArithmeticScenarios pivot stepPercent) <->
  0 < stepPercent.
Proof.
  rewrite arithmetic_values. cbn [strictlyAscending]. split.
  - intros (_ & H & _). lra.
  - intros Hs. repeat split; lra.
Qed.

Lemma geometric_ascending_iff (pivot stepPercent : R) :
  strictlyAscending (generateGeometricScenarios pivot stepPercent) <->
  0 < pivot * stepPercent /\ -100 < stepPercent < 100.
Proof.
  rewrite geometric_values. cbn [strictlyAscending].
  remember (stepPercent / 100) as s eqn:Es.
  assert (Hs : stepPercent = 100 * s) by (subst s; field). rewrite Hs. clear Es Hs.
  split.
  - intros (H0 & H1 & H2 & H3 & _).
    assert (Hps : 0 < pivot * s) by nra.
    split; [nra|]. split.
    + destruct (Rlt_le_dec (-1) s) as [Hlt|Hle]; [lra|]. exfalso. nra.
    + destruct (Rlt_le_dec s 1) as [Hlt|Hle]; [lra|]. exfalso. nra.
  - intros (Hps & Hlo & Hhi).
    assert (Hps' : 0 < pivot * s) by nra.
    repeat split; nra.
Qed.

Lemma arithmetic_descending_iff (pivot stepPercent : R) :
  strictlyDescending (generateArithmeticScenarios pivot stepPercent) <->
  stepPercent < 0.
Proof.
  rewrite arithmetic_values. cbn [strictlyDescending]. split.
  - intros (_ & Hd & _). lra.
  - intros Hs. repeat split; lra.
Qed.

Lemma geometric_descending_iff (pivot stepPercent : R) :
  strictlyDescending (generateGeometricScenarios pivot stepPercent) <->
  pivot * stepPercent < 0 /\ -100 < stepPercent < 100.
Proof.
  rewrite geometric_values. cbn [strictlyDescending].
  remember (stepPercent / 100) as s eqn:Es.
  assert (Hs : stepPercent = 100 * s) by (subst s; field). rewrite Hs. clear Es Hs.
  split.
  - intros (H0 & H1 & H2 & H3 & _).
    assert (Hps : pivot * s < 0) by nra.
    split; [nra|]. split.
    + destruct (Rlt_le_dec (-1) s) as [Hlt|Hle]; [lra|]. exfalso. nra.
    + destruct (Rlt_le_dec s 1) as [Hlt|Hle]; [lra|]. exfalso. nra.
  - intros (Hps & Hlo & Hhi).
    assert (Hps' : pivot * s < 0) by nra.
    repeat split; nra.
Qed.

(** C6 (amended): both generators return exactly five values with the
    pivot at index 2.  In exact arithmetic the arithmetic axis is strictly
    ascending exactly when the step is positive (strictly descending
    exactly when it is negative), and the geometric axis is strictly
    ascending exactly when pivot * step is positive and the step lies
    strictly between -100 and 100 percent (strictly descending exactly
    when pivot * step is negative and the step lies in that range). *)
Theorem C6_axis_shape_and_order (pivot stepPercent : R) :
  length (generateGeometricScenarios pivot stepPercent) = 5%nat /\
  nth 2 (generateGeometricScenarios pivot stepPercent) 0 = pivot /\
  length (generateArithmeticScenarios pivot stepPercent) = 5%nat /\
  nth 2 (generateArithmeticScenarios pivot stepPercent) 0 = pivot /\
  (strictlyAscending (generateArithmeticScenarios pivot stepPercent) <->
   0 < stepPercent) /\
  (strictlyDescending (generateArithmeticScenarios pivot stepPercent) <->
   stepPercent < 0) /\
  (strictlyAscending (generateGeometricScenarios pivot stepPercent) <->
   0 < pivot * stepPercent /\ -100 < stepPercent < 100) /\
  (strictlyDescending (generateGeometricScenarios pivot stepPercent) <->
   pivot * stepPercent < 0 /\ -100 < stepPercent < 100).
Proof.
  split; [reflexivity|]. split; [reflexivity|].
  split; [reflexivity|]. split; [reflexivity|].
  split; [apply arithmetic_ascending_iff|].
  split; [apply arithmetic_descending_iff|].
  split; [apply geometric_ascending_iff | apply geometric_descending_iff].
Qed.

(** C6 fails as stated: with a nonzero step the geometric axis of a zero
    pivot is constant (neither ascending nor descending), and the
    arithmetic axis of a negative step descends. *)
Lemma C6_counterexample :
  (1 <> 0 /\ ~ strictlyAscending (generateGeometricScenarios 0 1)
          /\ ~ strictlyDescending (generateGeometricScenarios 0 1)) /\
  (-1 <> 0 /\ ~ strictlyAscending (generateArithmeticScenarios 20 (-1))).
Proof.
  split; split; try lra.
  - rewrite geometric_ascending_iff, geometric_descending_iff. lra.
  - rewrite arithmetic_ascending_iff. lra.
Qed.
End GridOrder.

(** ** Loops that do not throw *)

Lemma forEach_returned {S : Type} (body : nat -> S -> outcome S)
    (f : S -> nat -> S) (idxs : list nat) :
  (forall i st, In i idxs -> body i st = Returned (f st i)) ->
  forall st, forEach idxs body st = Returned (fold_left f idxs st).
Proof.
  induction idxs as [|i rest IH]; intros Hbody st; cbn.
  - reflexivity.
  - rewrite Hbody by (left; reflexivity). cbn.
    apply IH. intros i' st' Hin. apply Hbody. right. exact Hin.
Qed.

Lemma fold_left_flat_map {A B C : Type} (f : A -> C -> A) (g : B -> list C)
    (l : list B) (a : A) :
  fold_left f (flat_map g l) a =
  fold_left (fun acc x => fold_left f (g x) acc) l a.
Proof.
  revert a. induction l as [|x l IH]; intros a; cbn.
  - reflexivity.
  - rewrite fold_left_app. apply IH.
Qed.

Lemma fold_left_map {A B C : Type} (f : A -> C -> A) (h : B -> C)
    (l : list B) (a : A) :
  fold_left f (map h l) a = fold_left (fun acc x => f acc (h x)) l a.
Proof.
  revert a. induction l as [|x l IH]; intros a; cbn; [reflexivity | apply IH].
Qed.

Lemma typed_set_app {A : Type} (done : list A) (x v : A) (rest : list A) :
  typed_set (done ++ x :: rest) (length done) v = done ++ v :: rest.
Proof.
  induction done as [|d done IH]; cbn; [reflexivity | now rewrite IH].
Qed.

Section Simulation.
Context {num : Type} `{Number num} `{RandomSource num}.
Local Open Scope js_scope.

Lemma drawPrices_length (f : num -> num) (n : nat) (g : rng) :
  length (fst (drawPrices f n g)) = n.
Proof.
  revert g. induction n as [|n IH]; intros g; cbn.
  - reflexivity.
  - destruct (gaussianRandom g) as [z g']. specialize (IH g').
    destruct (drawPrices f n g') as [rest g'']. cbn in *. now rewrite IH.
Qed.

Lemma fill_loop (f : num -> num) (zero : num) (m : nat) :
  forall (done : list num) (g : rng),
    fold_left
      (fun (acc : list num * rng) (p : nat) =>
         let (z, g') := gaussianRandom (snd acc) in
         (typed_set (fst acc) p (f z), g'))
      (seq (length done) m) (done ++ repeat zero m, g) =
    (done ++ fst (drawPrices f m g), snd (drawPrices f m g)).
Proof.
  induction m as [|m IH]; intros done g; cbn.
  - reflexivity.
  - destruct (gaussianRandom g) as [z g'] eqn:Ez. cbn.
    rewrite typed_set_app.
    replace (done ++ f z :: repeat zero m) with ((done ++ [f z]) ++ repeat zero m)
      by (rewrite <- app_assoc; reflexivity).
    replace (Datatypes.S (length done)) with (length (done ++ [f z]))
      by (rewrite length_app; cbn; lia).
    rewrite IH. destruct (drawPrices f m g') as [rest g'']. cbn.
    rewrite <- app_assoc. reflexivity.
Qed.

Lemma simulateTerminalPrices_returned (currentS0 currentVol t rDec qDec : num)
    (n : Z) (g : rng) :
  (0 <= n)%Z ->
  simulateTerminalPrices currentS0 currentVol t rDec qDec n g =
  Returned (drawPrices (terminalPrice currentS0 currentVol t rDec qDec)
                       (Z.to_nat n) g).
Proof.
  intros Hn. unfold simulateTerminalPrices, newFloat64Array.
  destruct (Z.ltb_spec n 0) as [Hneg|_]; [lia|]. cbn [bind].
  f_equal.
  pose proof (fill_loop (terminalPrice currentS0 currentVol t rDec qDec)
                (of_Z 0) (Z.to_nat n) [] g) as Hfill.
  cbn [length app] in Hfill. unfold terminalPrice in *.
  rewrite Hfill. now destruct (drawPrices _ _ g).
Qed.

Lemma simulateTerminalPrices_thrown (currentS0 currentVol t rDec qDec : num)
    (n : Z) (g : rng) :
  (n < 0)%Z ->
  simulateTerminalPrices currentS0 currentVol t rDec qDec n g = Thrown RangeError.
Proof.
  intros Hn. unfold simulateTerminalPrices, newFloat64Array.
  destruct (Z.ltb_spec n 0) as [_|Hpos]; [reflexivity | lia].
Qed.
End Simulation.

Section Run.
Context {num : Type} `{Number num} `{RandomSource num}.
Local Open Scope js_scope.

Variable p : SimulationParams num.
Hypothesis nPaths_nonneg : (0 <= nPaths p)%Z.

Lemma scenarioStep_returned (s0List volList : list num) (i j tIdx : nat)
    (st : LoopState) :
  exists tp : list num,
    isSampleOf p s0List volList ((i, j, tIdx), tp) /\
    scenarioStep p s0List volList i j tIdx st =
    Returned
      {| st_rng := st_rng (stepOrStay p s0List volList st (i, j, tIdx));
         st_results := st_results st
                       ++ rowsOfEntry p s0List volList ((i, j, tIdx), tp);
         st_central := centralFrom p (st_central st) [((i, j, tIdx), tp)];
         st_detailed := detailedFrom (st_detailed st) [((i, j, tIdx), tp)];
         st_log := st_log st ++ [((i, j, tIdx), tp)] |}.
Proof.
  unfold stepOrStay, scenarioStep.
  rewrite simulateTerminalPrices_returned by exact nPaths_nonneg.
  cbn [bind].
  eexists. split.
  - exists (st_rng st). cbn [snd fst]. reflexivity.
  - reflexivity.
Qed.

Lemma stepOrStay_fold (s0List volList : list num)
    (keys : list (nat * nat * nat)) :
  forall st0 : LoopState,
  exists entries : list ((nat * nat * nat) * list num),
    map fst entries = keys /\
    Forall (isSampleOf p s0List volList) entries /\
    st_log (fold_left (stepOrStay p s0List volList) keys st0)
    = st_log st0 ++ entries /\
    st_results (fold_left (stepOrStay p s0List volList) keys st0)
    = st_results st0 ++ flat_map (rowsOfEntry p s0List volList) entries /\
    st_central (fold_left (stepOrStay p s0List volList) keys st0)
    = centralFrom p (st_central st0) entries /\
    st_detailed (fold_left (stepOrStay p s0List volList) keys st0)
    = detailedFrom (st_detailed st0) entries.
Proof.
  induction keys as [|[[i j] tIdx] keys IH]; intros st0.
  - exists []. cbn. rewrite !app_nil_r. repeat split; constructor.
  - destruct (scenarioStep_returned s0List volList i j tIdx st0)
      as (tp & Hsample & Hstep).
    cbn [fold_left]. unfold stepOrStay at 2 4 6 8. rewrite Hstep.
    match goal with
    | |- context [fold_left _ keys ?s] => destruct (IH s) as (es & Hk & Hs & Hl & Hr & Hc & Hd)
    end.
    exists (((i, j, tIdx), tp) :: es).
    rewrite Hl, Hr, Hc, Hd. cbn [st_log st_results st_central st_detailed].
    repeat split.
    + cbn. now rewrite Hk.
    + constructor; assumption.
    + now rewrite <- app_assoc.
    + cbn [flat_map]. now rewrite <- app_assoc.
Qed.

Lemma scenarioStep_stepOrStay (s0List volList : list num) (i j tIdx : nat)
    (st : LoopState) :
  scenarioStep p s0List volList i j tIdx st =
  Returned (stepOrStay p s0List volList st (i, j, tIdx)).
Proof.
  destruct (scenarioStep_returned s0List volList i j tIdx st) as (tp & _ & Hstep).
  unfold stepOrStay. rewrite Hstep. reflexivity.
Qed.

Lemma runLoops_fold (g : rng) :
  runLoops p g =
  Returned (fold_left (stepOrStay p (spotAxis p) (volAxis p))
                      (scenarioTriples (length (maturities p)))
                      (initialState g)).
Proof.
  unfold runLoops, forLoop, scenarioTriples.
  rewrite generateGeometricScenarios_length, generateArithmeticScenarios_length.
  fold (spotAxis p). fold (volAxis p).
  rewrite fold_left_flat_map.
  apply forEach_returned. intros i st _.
  rewrite fold_left_flat_map.
  apply forEach_returned. intros j st' _.
  rewrite fold_left_map.
  apply forEach_returned. intros tIdx st'' _.
  apply scenarioStep_stepOrStay.
Qed.

Lemma runLoops_returned (g : rng) :
  exists st : LoopState,
    runLoops p g = Returned st /\
    map fst (st_log st) = scenarioTriples (length (maturities p)) /\
    Forall (isSampleOf p (spotAxis p) (volAxis p)) (st_log st) /\
    st_results st
    = flat_map (rowsOfEntry p (spotAxis p) (volAxis p)) (st_log st) /\
    st_central st = centralFrom p [] (st_log st) /\
    st_detailed st = detailedFrom (repeat (Some []) 27) (st_log st).
Proof.
  eexists. split; [apply runLoops_fold|].
  destruct (stepOrStay_fold (spotAxis p) (volAxis p)
              (scenarioTriples (length (maturities p))) (initialState g))
    as (es & Hk & Hs & Hl & Hr & Hc & Hd).
  cbn [initialState st_log st_results st_central st_detailed app] in *.
  rewrite Hl, Hr, Hc, Hd. repeat split; assumption.
Qed.
End Run.

(** ** Result rows *)

Lemma map_flat_map_comm {A B C : Type} (f : B -> C) (g : A -> list B)
    (l : list A) :
  map f (flat_map g l) = flat_map (fun x => map f (g x)) l.
Proof.
  induction l as [|x l IH]; cbn; [reflexivity|].
  now rewrite map_app, IH.
Qed.

Lemma flat_map_of_map {A B C : Type} (f : B -> list C) (g : A -> B)
    (l : list A) :
  flat_map f (map g l) = flat_map (fun x => f (g x)) l.
Proof.
  induction l as [|x l IH]; cbn; [reflexivity | now rewrite IH].
Qed.

Lemma flat_map_nested {A B C : Type} (f : B -> list C) (g : A -> list B)
    (l : list A) :
  flat_map f (flat_map g l) = flat_map (fun x => flat_map f (g x)) l.
Proof.
  induction l as [|x l IH]; cbn; [reflexivity|].
  now rewrite flat_map_app, IH.
Qed.

Lemma nth_over_seq {A : Type} (d : A) (l : list A) :
  map (fun i => nth i l d) (seq 0 (length l)) = l.
Proof.
  induction l as [|x l IH]; cbn; [reflexivity|].
  f_equal. rewrite <- seq_shift, map_map. exact IH.
Qed.

Lemma flat_map_by_index {A B : Type} (d : A) (f : A -> list B) (l : list A) :
  flat_map f l = flat_map (fun i => f (nth i l d)) (seq 0 (length l)).
Proof.
  rewrite <- (nth_over_seq d l) at 1. apply flat_map_of_map.
Qed.

Lemma flat_map_length_const {A B : Type} (f : A -> list B) (n : nat)
    (l : list A) :
  (forall x, length (f x) = n) -> length (flat_map f l) = (length l * n)%nat.
Proof.
  intros Hf. induction l as [|x l IH]; cbn; [reflexivity|].
  rewrite length_app, Hf, IH. reflexivity.
Qed.

Section Rows.
Context {num : Type} `{Number num} `{RandomSource num}.
Local Open Scope js_scope.

Lemma rowKey_rowsOfEntry (p : SimulationParams num) (s0List volList : list num)
    (e : (nat * nat * nat) * list num) :
  map rowKey (rowsOfEntry p s0List volList e) =
  (let '(i, j, tIdx) := fst e in
   map (fun k => (nth i s0List (of_Z 0), nth j volList (of_Z 0),
                  nth tIdx (maturities p) (of_Z 0), k)) (strikes p)).
Proof.
  unfold rowsOfEntry. destruct e as [[[i j] tIdx] tp]. cbn [fst snd].
  rewrite map_map. reflexivity.
Qed.

Lemma crossProduct_by_index (p : SimulationParams num) :
  flat_map
    (fun key : nat * nat * nat =>
       let '(i, j, tIdx) := key in
       map (fun k => (nth i (spotAxis p) (of_Z 0), nth j (volAxis p) (of_Z 0),
                      nth tIdx (maturities p) (of_Z 0), k)) (strikes p))
    (scenarioTriples (length (maturities p)))
  = crossProduct p.
Proof.
  unfold scenarioTriples, crossProduct.
  rewrite flat_map_nested.
  rewrite (flat_map_by_index (of_Z 0) _ (spotAxis p)).
  change (length (spotAxis p)) with 5%nat.
  apply flat_map_ext. intros i.
  rewrite flat_map_nested.
  rewrite (flat_map_by_index (of_Z 0) _ (volAxis p)).
  change (length (volAxis p)) with 5%nat.
  apply flat_map_ext. intros j.
  rewrite flat_map_of_map.
  rewrite (flat_map_by_index (of_Z 0) _ (maturities p)). reflexivity.
Qed.

Lemma crossProduct_length (p : SimulationParams num) :
  length (crossProduct p)
  = (25 * length (maturities p) * length (strikes p))%nat.
Proof.
  unfold crossProduct.
  rewrite (@flat_map_length_const _ _ _ (5 * (length (maturities p) * length (strikes p)))).
  - change (length (spotAxis p)) with 5%nat. lia.
  - intros s.
    rewrite (@flat_map_length_const _ _ _ (length (maturities p) * length (strikes p))).
    + change (length (volAxis p)) with 5%nat. lia.
    + intros v. apply flat_map_length_const. intros t. apply length_map.
Qed.

Lemma rows_cross_product (p : SimulationParams num) (g : rng) :
  (0 <= nPaths p)%Z ->
  exists res : SimulationResult num,
    runFullSimulation p g = Returned res /\
    length (results res)
    = (25 * length (maturities p) * length (strikes p))%nat /\
    map rowKey (results res) = crossProduct p.
Proof.
  intros Hn0.
  destruct (runLoops_returned p Hn0 g) as (st & Hrun & Hkeys & _ & Hres & _).
  unfold runFullSimulation. rewrite Hrun. cbn [bind].
  eexists. split; [reflexivity|]. cbn [results].
  assert (Hmap : map rowKey (st_results st) = crossProduct p).
  { rewrite Hres, map_flat_map_comm.
    rewrite (flat_map_ext _ _ (rowKey_rowsOfEntry p (spotAxis p) (volAxis p))).
    rewrite <- crossProduct_by_index, <- Hkeys, flat_map_of_map. reflexivity. }
  split; [|exact Hmap].
  rewrite <- crossProduct_length, <- Hmap, length_map. reflexivity.
Qed.

(** C5: a run on valid parameters returns 25*M*K rows, one per element of
    the spot x vol x maturity x strike cross product, in the order spot
    (outermost), vol, maturity, strike (innermost). *)
Theorem C5_rows_cross_product (p : SimulationParams num) (g : rng) :
  validParams p ->
  exists res : SimulationResult num,
    runFullSimulation p g = Returned res /\
    length (results res)
    = (25 * length (maturities p) * length (strikes p))%nat /\
    map rowKey (results res) = crossProduct p.
Proof.
  intros (Hn & _). apply rows_cross_product. lia.
Qed.
End Rows.

(** ** The iteration order around the central scenario *)

Lemma in_scenarioTriples (M i j tIdx : nat) :
  In (i, j, tIdx) (scenarioTriples M) <-> (i < 5 /\ j < 5 /\ tIdx < M)%nat.
Proof.
  unfold scenarioTriples. rewrite in_flat_map. split.
  - intros (i' & Hi & Hin). apply in_flat_map in Hin as (j' & Hj & Hin).
    apply in_map_iff in Hin as (t' & Heq & Ht).
    injection Heq as -> -> ->. apply in_seq in Hi, Hj, Ht. lia.
  - intros (Hi & Hj & Ht). exists i. split; [apply in_seq; lia|].
    apply in_flat_map. exists j. split; [apply in_seq; lia|].
    apply in_map_iff. exists tIdx. split; [reflexivity | apply in_seq; lia].
Qed.

Lemma seq_split_at (M t : nat) :
  (t < M)%nat -> seq 0 M = seq 0 t ++ t :: seq (S t) (M - S t).
Proof.
  intros Ht. assert (E : M = (t + S (M - S t))%nat) by lia.
  rewrite E at 1. rewrite seq_app. reflexivity.
Qed.

(* Everything the loops visit after (2, 2, tStar) is either a later
   maturity of the central pair or another (spot, vol) pair. *)
Lemma scenarioTriples_split_central (M tStar : nat) :
  (tStar < M)%nat ->
  exists before after : list (nat * nat * nat),
    scenarioTriples M = before ++ (2, 2, tStar)%nat :: after /\
    (forall i j tIdx, In (i, j, tIdx) after ->
       (i, j) <> (2, 2)%nat \/ (tStar < tIdx)%nat).
Proof.
  intros Ht.
  set (G := fun i j : nat => map (fun tIdx : nat => (i, j, tIdx)) (seq 0 M)).
  set (F := fun i : nat => flat_map (G i) (seq 0 5)).
  exists (flat_map F [0; 1]%nat ++ flat_map (G 2%nat) [0; 1]%nat
          ++ map (fun tIdx : nat => (2, 2, tIdx)%nat) (seq 0 tStar)).
  exists (map (fun tIdx : nat => (2, 2, tIdx)%nat) (seq (S tStar) (M - S tStar))
          ++ flat_map (G 2%nat) [3; 4]%nat ++ flat_map F [3; 4]%nat).
  split.
  - change (scenarioTriples M) with (flat_map F ([0; 1] ++ 2 :: [3; 4])%nat).
    rewrite flat_map_app. cbn [flat_map].
    change (F 2%nat) with (flat_map (G 2%nat) ([0; 1] ++ 2 :: [3; 4])%nat).
    rewrite flat_map_app. cbn [flat_map].
    unfold G at 3.
    rewrite (seq_split_at Ht).
    rewrite map_app. cbn [map].
    repeat rewrite <- app_assoc. cbn [app]. reflexivity.
  - intros i j tIdx Hin.
    apply in_app_or in Hin as [Hin|Hin];
      [|apply in_app_or in Hin as [Hin|Hin]].
    + apply in_map_iff in Hin as (t' & Heq & Hseq).
      injection Heq as <- <- <-. apply in_seq in Hseq. right. lia.
    + apply in_flat_map in Hin as (j' & Hj & Hin).
      apply in_map_iff in Hin as (t' & Heq & _).
      injection Heq as <- <- <-. left. cbn in Hj. intros Heq'.
      injection Heq' as ->. lia.
    + apply in_flat_map in Hin as (i' & Hi & Hin).
      apply in_flat_map in Hin as (j' & _ & Hin).
      apply in_map_iff in Hin as (t' & Heq & _).
      injection Heq as <- <- <-. left. cbn in Hi. intros Heq'.
      injection Heq' as -> _. lia.
Qed.

(** ** Array stores *)

Lemma js_set_length {A : Type} (a : jsarray A) (i : nat) (v : A) :
  length (js_set a i v) = Nat.max (length a) (S i).
Proof.
  revert a. induction i as [|i IH]; intros [|x a]; cbn [js_set length];
    try rewrite IH; cbn [length]; lia.
Qed.

Lemma js_set_nth_same {A : Type} (a : jsarray A) (i : nat) (v : A) :
  nth_error (js_set a i v) i = Some (Some v).
Proof.
  revert a. induction i as [|i IH]; intros [|x a]; cbn; try reflexivity; apply IH.
Qed.

Lemma js_set_nth_other {A : Type} (a : jsarray A) (i j : nat) (v : A) :
  j <> i -> (j < length a)%nat ->
  nth_error (js_set a i v) j = nth_error a j.
Proof.
  revert a j. induction i as [|i IH]; intros [|x a] [|j] Hne Hlt; cbn in *;
    try reflexivity; try lia.
  apply IH; lia.
Qed.

Lemma columnOf_lower_bound (key : nat * nat * nat) : (-1 <= columnOf key)%Z.
Proof.
  destruct key as [[i j] tIdx]. unfold columnOf, getDetailedColumnIndex.
  cbv zeta. split_eqb; lia.
Qed.

Lemma columnOf_zero (i j tIdx : nat) :
  columnOf (i, j, tIdx) = 0%Z -> (i, j, tIdx) = (2, 2, 0)%nat.
Proof.
  unfold columnOf, getDetailedColumnIndex. cbv zeta.
  split_eqb; intros Hc; try lia.
  f_equal; [f_equal|]; lia.
Qed.

Section Stores.
Context {num : Type} `{Number num} `{RandomSource num}.
Local Open Scope js_scope.

Lemma centralFrom_unchanged (p : SimulationParams num) (init : list num)
    (log : list ((nat * nat * nat) * list num)) :
  Forall (fun e => isCentralEntry p e = false) log ->
  centralFrom p init log = init.
Proof.
  unfold centralFrom. induction 1 as [|e log He _ IH]; cbn.
  - reflexivity.
  - rewrite He. exact IH.
Qed.

Lemma centralFrom_last (p : SimulationParams num) (init : list num)
    (l1 l2 : list ((nat * nat * nat) * list num))
    (e : (nat * nat * nat) * list num) :
  isCentralEntry p e = true ->
  Forall (fun e' => isCentralEntry p e' = false) l2 ->
  centralFrom p init (l1 ++ e :: l2) = snd e.
Proof.
  intros He Hl2. unfold centralFrom. rewrite fold_left_app. cbn [fold_left].
  rewrite He. apply (centralFrom_unchanged p (snd e) Hl2).
Qed.


Lemma detailedFrom_unchanged (init : jsarray (list num))
    (log : list ((nat * nat * nat) * list num)) (c : nat) :
  (c < length init)%nat ->
  Forall (fun e => columnOf (fst e) <> Z.of_nat c) log ->
  nth_error (detailedFrom init log) c = nth_error init c.
Proof.
  unfold detailedFrom. intros Hc Hlog. revert init Hc.
  induction Hlog as [|e log He _ IH]; intros init Hc; cbn [fold_left].
  - reflexivity.
  - pose proof (columnOf_lower_bound (fst e)) as Hlb.
    destruct (Z.eqb_spec (columnOf (fst e)) (-1)) as [Heq|Hne].
    + apply IH. exact Hc.
    + rewrite IH by (rewrite js_set_length; lia).
      apply js_set_nth_other; lia.
Qed.

Lemma detailedFrom_last (init : jsarray (list num))
    (l1 l2 : list ((nat * nat * nat) * list num))
    (e : (nat * nat * nat) * list num) (c : nat) :
  columnOf (fst e) = Z.of_nat c ->
  Forall (fun e' => columnOf (fst e') <> Z.of_nat c) l2 ->
  nth_error (detailedFrom init (l1 ++ e :: l2)) c = Some (Some (snd e)).
Proof.
  intros He Hl2. unfold detailedFrom. rewrite fold_left_app. cbn [fold_left].
  rewrite He. destruct (Z.eqb_spec (Z.of_nat c) (-1)) as [Heq|_]; [lia|].
  rewrite Nat2Z.id.
  match goal with
  | |- nth_error (fold_left ?f l2 ?d) c = _ =>
      change (fold_left f l2 d) with (detailedFrom d l2)
  end.
  rewrite detailedFrom_unchanged.
  - apply js_set_nth_same.
  - rewrite js_set_length. lia.
  - exact Hl2.
Qed.
End Stores.

(** ** Central distribution *)

Section Central.
Context {num : Type} `{Number num} `{RandomSource num}.
Local Open Scope js_scope.

Lemma log_around_central (p : SimulationParams num) (g : rng) (tStar : nat) :
  (0 <= nPaths p)%Z ->
  (tStar < length (maturities p))%nat ->
  exists (st : LoopState) (lb la : list ((nat * nat * nat) * list num))
         (tp : list num),
    runLoops p g = Returned st /\
    st_log st = lb ++ ((2, 2, tStar)%nat, tp) :: la /\
    isSampleOf p (spotAxis p) (volAxis p) ((2, 2, tStar)%nat, tp) /\
    (forall i j tIdx tp', In ((i, j, tIdx), tp') la ->
       ((i, j) <> (2, 2)%nat \/ (tStar < tIdx)%nat) /\
       (tIdx < length (maturities p))%nat) /\
    st_central st = centralFrom p [] (st_log st) /\
    st_detailed st = detailedFrom (repeat (Some []) 27) (st_log st).
Proof.
  intros Hn Ht.
  destruct (runLoops_returned p Hn g) as (st & Hrun & Hkeys & Hs & _ & Hc & Hd).
  destruct (scenarioTriples_split_central Ht) as (before & after & Hsplit & Hafter).
  pose proof Hkeys as Hkeys'. rewrite Hsplit in Hkeys'.
  apply map_eq_app in Hkeys' as (lb & rest & Hlog & Hlb & Hrest).
  apply map_eq_cons in Hrest as (e & la & -> & He & Hla).
  destruct e as [key tp]. cbn [fst] in He. subst key.
  exists st, lb, la, tp. repeat split; try assumption.
  - rewrite Hlog in Hs. apply Forall_app in Hs as (_ & Hs).
    now inversion Hs.
  - apply (Hafter i j tIdx). rewrite <- Hla.
    apply in_map_iff. exists ((i, j, tIdx), tp'). split; [reflexivity | assumption].
  - assert (Hin : In (i, j, tIdx) (scenarioTriples (length (maturities p)))).
    { rewrite Hsplit. apply in_or_app. right. right. rewrite <- Hla.
      apply in_map_iff. exists ((i, j, tIdx), tp'). split; [reflexivity | assumption]. }
    apply in_scenarioTriples in Hin. lia.
Qed.

Lemma isCentralEntry_pivot (p : SimulationParams num) (tIdx : nat)
    (tp : list num) :
  maturities p <> [] ->
  isCentralEntry p ((2, 2, tIdx)%nat, tp)
  = (nth tIdx (maturities p) (of_Z 0) === nth 0 (maturities p) (of_Z 0)).
Proof.
  intros Hne. unfold isCentralEntry, isTargetMaturity. cbn [fst].
  destruct (maturities p) as [|m ms]; [contradiction|]. reflexivity.
Qed.

Lemma isCentralEntry_other (p : SimulationParams num) (i j tIdx : nat)
    (tp : list num) :
  (i, j) <> (2, 2)%nat -> isCentralEntry p ((i, j, tIdx), tp) = false.
Proof.
  intros Hne. unfold isCentralEntry, centralS0Index, centralVolIndex. cbn [fst].
  destruct (Nat.eqb_spec i 2) as [->|_]; [|reflexivity].
  destruct (Nat.eqb_spec j 2) as [->|_]; [|reflexivity].
  contradiction.
Qed.

Lemma central_is_last_match (p : SimulationParams num) (g : rng) (tStar : nat) :
  (0 <= nPaths p)%Z ->
  maturities p <> [] ->
  (tStar < length (maturities p))%nat ->
  (nth tStar (maturities p) (of_Z 0) === nth 0 (maturities p) (of_Z 0)) = true ->
  (forall tIdx, (tStar < tIdx < length (maturities p))%nat ->
     (nth tIdx (maturities p) (of_Z 0) === nth 0 (maturities p) (of_Z 0)) = false) ->
  exists (st : LoopState) (lb la : list ((nat * nat * nat) * list num))
         (tp : list num),
    runLoops p g = Returned st /\
    st_log st = lb ++ ((2, 2, tStar)%nat, tp) :: la /\
    isSampleOf p (spotAxis p) (volAxis p) ((2, 2, tStar)%nat, tp) /\
    (forall i j tIdx tp', In ((i, j, tIdx), tp') la ->
       (i, j) <> (2, 2)%nat \/ (tStar < tIdx)%nat) /\
    st_central st = tp /\
    st_detailed st = detailedFrom (repeat (Some []) 27) (st_log st).
Proof.
  intros Hn0 Hms Ht Hstar Hlater.
  destruct (log_around_central p g Hn0 Ht)
    as (st & lb & la & tp & Hrun & Hlog & Hsample & Hla & Hc & Hd).
  exists st, lb, la, tp. repeat split; try assumption.
  - intros i j tIdx tp' Hin. apply (Hla i j tIdx tp' Hin).
  - rewrite Hc, Hlog.
    apply (centralFrom_last p [] lb ((2, 2, tStar)%nat, tp)).
    + rewrite isCentralEntry_pivot by exact Hms. exact Hstar.
    + apply Forall_forall. intros [[[i j] tIdx] tp'] Hin.
      destruct (Hla i j tIdx tp' Hin) as ([Hne|Hlt] & Hbound).
      * apply isCentralEntry_other. exact Hne.
      * destruct (Nat.eq_dec i 2) as [->|Hi];
          [destruct (Nat.eq_dec j 2) as [->|Hj]|].
        -- rewrite isCentralEntry_pivot by exact Hms. apply Hlater. lia.
        -- apply isCentralEntry_other. congruence.
        -- apply isCentralEntry_other. congruence.
Qed.

(** C2 (amended): on valid parameters the central distribution is the
    sample simulated for pivot spot, pivot volatility and the last
    maturity index whose value equals the first maturity (index 0 when the
    first maturity does not recur); it has length nPaths. *)
Theorem C2_central_distribution (p : SimulationParams num) (g : rng)
    (tStar : nat) :
  validParams p ->
  (tStar < length (maturities p))%nat ->
  (nth tStar (maturities p) (of_Z 0) === nth 0 (maturities p) (of_Z 0)) = true ->
  (forall tIdx, (tStar < tIdx < length (maturities p))%nat ->
     (nth tIdx (maturities p) (of_Z 0) === nth 0 (maturities p) (of_Z 0)) = false) ->
  exists res : SimulationResult num,
    runFullSimulation p g = Returned res /\
    simulatedFor p g (2, 2, tStar)%nat (centralDistribution res) /\
    (exists g' : rng,
        centralDistribution res =
        fst (drawPrices
               (terminalPrice (s0 p) (vol p / of_Z 100)
                              (nth tStar (maturities p) (of_Z 0))
                              (r p / of_Z 100) (q p / of_Z 100))
               (Z.to_nat (nPaths p)) g')) /\
    length (centralDistribution res) = Z.to_nat (nPaths p).
Proof.
  intros (Hn & Hms & _ & _) Ht Hstar Hlater.
  assert (Hn0 : (0 <= nPaths p)%Z) by lia.
  destruct (central_is_last_match p g Hn0 Hms Ht Hstar Hlater)
    as (st & lb & la & tp & Hrun & Hlog & Hsample & _ & Hcentral & _).
  unfold runFullSimulation, simulatedFor, sampleLog. rewrite Hrun. cbn [bind].
  eexists. split; [reflexivity|]. cbn [centralDistribution]. rewrite Hcentral.
  destruct Hsample as (g' & Hg'). cbn [fst snd] in Hg'.
  repeat split.
  - rewrite Hlog. apply in_or_app. right. left. reflexivity.
  - exists g'. exact Hg'.
  - rewrite Hg'. apply drawPrices_length.
Qed.

(** C10: on valid parameters whose first maturity value does not occur
    again at a later index, the central distribution and detailed slot 0
    (the column of spotIndex 2, volIndex 2, maturityIndex 0) hold the same
    sample, the one simulated for that triple. *)
Theorem C10_central_equals_slot_zero (p : SimulationParams num) (g : rng) :
  validParams p ->
  (forall tIdx, (0 < tIdx < length (maturities p))%nat ->
     (nth tIdx (maturities p) (of_Z 0) === nth 0 (maturities p) (of_Z 0)) = false) ->
  exists res : SimulationResult num,
    runFullSimulation p g = Returned res /\
    getDetailedColumnIndex 2 2 0 = 0%Z /\
    nth_error (detailedPaths res) 0 = Some (Some (centralDistribution res)) /\
    simulatedFor p g (2, 2, 0)%nat (centralDistribution res).
Proof.
  intros (Hn & Hms & _ & Hself) Hunique.
  assert (Hn0 : (0 <= nPaths p)%Z) by lia.
  assert (Ht : (0 < length (maturities p))%nat).
  { destruct (maturities p); [contradiction | cbn; lia]. }
  assert (Hstar : (nth 0 (maturities p) (of_Z 0)
                   === nth 0 (maturities p) (of_Z 0)) = true).
  { destruct (maturities p) as [|m ms]; [contradiction|].
    now inversion Hself. }
  destruct (central_is_last_match p g Hn0 Hms Ht Hstar Hunique)
    as (st & lb & la & tp & Hrun & Hlog & _ & Hla & Hcentral & Hd).
  unfold runFullSimulation, simulatedFor, sampleLog. rewrite Hrun. cbn [bind].
  eexists. split; [reflexivity|].
  cbn [centralDistribution detailedPaths]. rewrite Hcentral.
  split; [reflexivity|]. split.
  - rewrite Hd, Hlog.
    apply (detailedFrom_last (repeat (Some []) 27) lb ((2, 2, 0)%nat, tp) 0).
    + reflexivity.
    + apply Forall_forall. intros [[[i j] tIdx] tp'] Hin. cbn [fst].
      intros Hcol. apply columnOf_zero in Hcol. injection Hcol as -> -> ->.
      destruct (Hla _ _ _ _ Hin) as [Hne|Hlt]; [congruence | lia].
  - rewrite Hlog. apply in_or_app. right. left. reflexivity.
Qed.
End Central.

(** ** Invalid parameters *)

Section Invalid.
Context {num : Type} `{Number num} `{RandomSource num}.
Local Open Scope js_scope.

Lemma run_negative_paths (p : SimulationParams num) (g : rng) :
  (nPaths p < 0)%Z -> maturities p <> [] ->
  runFullSimulation p g = Thrown RangeError.
Proof.
  intros Hn Hms. unfold runFullSimulation, runLoops, forLoop.
  rewrite generateGeometricScenarios_length, generateArithmeticScenarios_length.
  destruct (maturities p) as [|m ms] eqn:Em; [contradiction|].
  cbn [length seq forEach]. unfold scenarioStep at 1.
  rewrite simulateTerminalPrices_thrown by exact Hn. reflexivity.
Qed.

Lemma run_no_maturities (p : SimulationParams num) (g : rng) :
  maturities p = [] ->
  runFullSimulation p g =
  Returned {| results := []; centralDistribution := [];
              detailedPaths := repeat (Some []) 27 |}.
Proof.
  intros Hms. unfold runFullSimulation, runLoops, forLoop.
  rewrite generateGeometricScenarios_length, generateArithmeticScenarios_length.
  rewrite Hms. reflexivity.
Qed.

Lemma run_no_strikes (p : SimulationParams num) (g : rng) :
  (0 <= nPaths p)%Z -> strikes p = [] ->
  exists res : SimulationResult num,
    runFullSimulation p g = Returned res /\ results res = [].
Proof.
  intros Hn0 Hk.
  destruct (runLoops_returned p Hn0 g) as (st & Hrun & _ & _ & Hres & _).
  unfold runFullSimulation. rewrite Hrun. cbn [bind].
  eexists. split; [reflexivity|]. cbn [results]. rewrite Hres. clear Hres.
  induction (st_log st) as [|[[[i j] tIdx] tp] log IH]; [reflexivity|].
  cbn [flat_map]. rewrite IH. unfold rowsOfEntry. cbn [fst]. rewrite Hk.
  reflexivity.
Qed.


Lemma isSampleOf_length (p : SimulationParams num) (s0List volList : list num)
    (e : (nat * nat * nat) * list num) :
  isSampleOf p s0List volList e -> length (snd e) = Z.to_nat (nPaths p).
Proof.
  destruct e as [[[i j] tIdx] tp]. intros (g' & Hg'). cbn [fst snd] in *.
  rewrite Hg'. apply drawPrices_length.
Qed.


End Invalid.

(** ** Concrete runs in exact arithmetic *)

Lemma R_strict_eq_refl (x : R) : strict_eq x x = true.
Proof. cbn. destruct (Req_dec_T x x); [reflexivity | contradiction]. Defined.


Lemma validParams_repeatedMaturity : validParams repeatedMaturityParams.
Proof.
  unfold validParams. cbn [nPaths maturities strikes repeatedMaturityParams].
  split; [lia|]. split; [discriminate|]. split; [discriminate|].
  repeat constructor; apply R_strict_eq_refl.
Defined.

(* C2 on the parameters with a repeated first maturity: the central
   distribution is the sample of maturity index 1. *)
Lemma C2_central_distribution_witness :
  exists res : SimulationResult R,
    runFullSimulation repeatedMaturityParams seed = Returned res /\
    simulatedFor repeatedMaturityParams seed (2, 2, 1)%nat
                 (centralDistribution res) /\
    (exists g' : rng,
        centralDistribution res =
        fst (drawPrices
               (terminalPrice (s0 repeatedMaturityParams)
                  (div (vol repeatedMaturityParams) (of_Z 100))
                  (nth 1 (maturities repeatedMaturityParams) (of_Z 0))
                  (div (r repeatedMaturityParams) (of_Z 100))
                  (div (q repeatedMaturityParams) (of_Z 100)))
               (Z.to_nat (nPaths repeatedMaturityParams)) g')) /\
    length (centralDistribution res) = Z.to_nat (nPaths repeatedMaturityParams).
Proof.
  apply (@C2_central_distribution _ _ _ repeatedMaturityParams seed 1%nat).
  - exact validParams_repeatedMaturity.
  - cbn. lia.
  - apply R_strict_eq_refl.
  - cbn [maturities repeatedMaturityParams length]. intros tIdx Ht. lia.
Defined.

(* Two Gaussian draws of the concrete generator differ when their uniform
   draws u = 1/a and u = 1/b differ. *)
Lemma boxMuller_distinct (a b A B : R) :
  (1 < a)%R -> (1 < b)%R -> a <> b -> B <> 0%R ->
  (A + B * (sqrt (-2 * ln (/ a)) * cos (2 * PI * (1 / 2))))%R
  <> (A + B * (sqrt (-2 * ln (/ b)) * cos (2 * PI * (1 / 2))))%R.
Proof.
  intros Ha Hb Hab HB Heq.
  replace (2 * PI * (1 / 2))%R with PI in Heq by lra.
  rewrite cos_PI in Heq.
  assert (Hla : (0 < ln a)%R) by (rewrite <- ln_1; apply ln_increasing; lra).
  assert (Hlb : (0 < ln b)%R) by (rewrite <- ln_1; apply ln_increasing; lra).
  rewrite !ln_Rinv in Heq by lra.
  assert (Hs : sqrt (-2 * - ln a) = sqrt (-2 * - ln b)).
  { apply (Rmult_eq_reg_l B); [lra | exact HB]. }
  apply sqrt_inj in Hs; [|lra|lra].
  assert (Hl : ln a = ln b) by lra.
  apply ln_inv in Hl; [contradiction | lra | lra].
Qed.

(** C2 fails as stated: when the first maturity value occurs again, the
    central distribution is not the sample simulated for (2, 2, 0). *)
Lemma C2_counterexample :
  validParams repeatedMaturityParams /\
  exists res : SimulationResult R,
    runFullSimulation repeatedMaturityParams seed = Returned res /\
    ~ simulatedFor repeatedMaturityParams seed (2, 2, 0)%nat
        (centralDistribution res).
Proof.
  split; [exact validParams_repeatedMaturity|].
  unfold simulatedFor.
  match goal with
  | |- context [sampleLog ?p ?g] => remember (sampleLog p g) as log eqn:Elog
  end.
  match goal with
  | |- context [runFullSimulation ?p ?g] =>
      remember (runFullSimulation p g) as out eqn:Eout
  end.
  run_concrete_in Elog. run_concrete_in Eout.
  subst out. eexists. split; [reflexivity|].
  cbn [centralDistribution]. subst log.
  destruct (Req_dec_T 1 1) as [_|Hne]; [|contradiction].
  intros Hin. cbn [In] in Hin.
  repeat (destruct Hin as [Hin|Hin]; [try discriminate Hin|]); try contradiction.
  injection Hin as Hin.
  apply Rmult_eq_reg_l in Hin; [|lra].
  apply exp_inv in Hin.
  revert Hin. apply boxMuller_distinct; try lra.
  rewrite sqrt_1. lra.
Qed.

(** ** Path simulator and payoff valuator in exact arithmetic *)

Section ExactArithmetic.
Context `{RandomSource R}.
Local Open Scope R_scope.

Lemma drawPrices_constant (f : R -> R) (c : R) (n : nat) (g : rng) :
  (forall z, f z = c) -> fst (drawPrices f n g) = repeat c n.
Proof.
  intros Hf. revert g. induction n as [|n IH]; intros g; cbn.
  - reflexivity.
  - destruct (gaussianRandom g) as [z g']. specialize (IH g').
    destruct (drawPrices f n g') as [rest g'']. cbn in *. now rewrite Hf, IH.
Qed.

Lemma terminalPrice_zero_maturity (S sigma r q z : R) :
  terminalPrice S sigma 0 r q z = S.
Proof.
  unfold terminalPrice. cbn. rewrite sqrt_0.
  replace ((r - q - 1 / 2 * sigma * sigma) * 0 + sigma * 0 * z) with 0 by ring.
  rewrite exp_0. ring.
Qed.

(** C7: with maturity T = 0 the path simulator returns, without throwing,
    N prices all equal to the spot S, for every volatility, rate,
    dividend yield and path count N >= 1 (exact arithmetic). *)
Theorem C7_zero_maturity_paths (S sigma r q : R) (N : Z) (g : rng) :
  (1 <= N)%Z ->
  exists g' : rng,
    simulateTerminalPrices S sigma 0 r q N g
    = Returned (repeat S (Z.to_nat N), g').
Proof.
  intros HN.
  rewrite simulateTerminalPrices_returned by lia.
  exists (snd (drawPrices (terminalPrice S sigma 0 r q) (Z.to_nat N) g)).
  f_equal.
  rewrite <- (drawPrices_constant (terminalPrice S sigma 0 r q) (Z.to_nat N) g
                (terminalPrice_zero_maturity S sigma r q)).
  now destruct (drawPrices _ _ g).
Qed.
End ExactArithmetic.

Section Valuator.
Local Open Scope R_scope.

Lemma fold_left_by_index {A B : Type} (f : A -> B -> A) (d : B) (l : list B)
    (a : A) :
  fold_left (fun acc p => f acc (nth p l d)) (seq 0 (length l)) a
  = fold_left f l a.
Proof.
  transitivity (fold_left f (map (fun i => nth i l d) (seq 0 (length l))) a).
  - symmetry. apply fold_left_map.
  - now rewrite nth_over_seq.
Qed.

Lemma fold_left_payoffs (K : R) (l : list R) (a : R) :
  fold_left (fun acc x => acc + Rmax (x - K) 0) l a = a + payoffSum l K.
Proof.
  unfold payoffSum. revert a.
  induction l as [|x l IH]; intros a; cbn [fold_left fold_right].
  - ring.
  - rewrite IH. ring.
Qed.

Lemma sumPayoffs_payoffSum (sample : list R) (K : R) :
  sumPayoffs sample (Z.of_nat (length sample)) K = payoffSum sample K.
Proof.
  unfold sumPayoffs. rewrite Nat2Z.id. cbn [add sub Math_max of_Z RNumber].
  rewrite (fold_left_by_index (fun acc x => acc + Rmax (x - K) 0) 0 sample 0).
  rewrite fold_left_payoffs. ring.
Qed.

Lemma payoffSum_nonneg (sample : list R) (K : R) : 0 <= payoffSum sample K.
Proof.
  unfold payoffSum. induction sample as [|x l IH]; cbn [fold_right]; [lra|].
  pose proof (Rmax_r (x - K) 0). lra.
Qed.

Lemma payoffSum_zero (sample : list R) (K : R) :
  (forall x, In x sample -> x <= K) -> payoffSum sample K = 0.
Proof.
  unfold payoffSum.
  induction sample as [|x l IH]; intros Hmax; cbn [fold_right]; [reflexivity|].
  rewrite IH by (intros y Hy; apply Hmax; right; exact Hy).
  rewrite Rmax_right by (specialize (Hmax x (or_introl eq_refl)); lra).
  ring.
Qed.

(** C8: on a sample of length N >= 1 the payoff valuator returns
    exp(-r*T) * (1/N) * sum of max(terminal_i - K, 0); the value is
    non-negative, and zero when K is at least every element of the sample
    (exact arithmetic). *)
Theorem C8_payoff_valuator (sample : list R) (K T r : R) :
  (1 <= length sample)%nat ->
  let N := Z.of_nat (length sample) in
  let price := strikePrice (exp (- r * T)) sample N K in
  price = exp (- (r * T)) * (1 / IZR N) * payoffSum sample K /\
  0 <= price /\
  ((forall x, In x sample -> x <= K) -> price = 0).
Proof.
  intros HN N price.
  assert (HNpos : 0 < IZR N).
  { apply IZR_lt. unfold N. lia. }
  assert (Hprice : price = exp (- (r * T)) * (1 / IZR N) * payoffSum sample K).
  { unfold price, strikePrice, N. rewrite sumPayoffs_payoffSum.
    cbn [mul div neg Math_exp of_Z RNumber].
    replace (- r * T) with (- (r * T)) by ring.
    unfold Rdiv. ring. }
  split; [exact Hprice|]. split.
  - rewrite Hprice.
    pose proof (exp_pos (- (r * T))) as He.
    pose proof (payoffSum_nonneg sample K) as Hs.
    assert (Hinv : 0 < 1 / IZR N) by (apply Rdiv_lt_0_compat; lra).
    apply Rmult_le_pos; [apply Rmult_le_pos; lra | exact Hs].
  - intros Hmax. rewrite Hprice, (payoffSum_zero sample Hmax). ring.
Qed.
End Valuator.

(** ** Detailed slots *)

Lemma mapper_range_three_maturities (s v tIdx : Z) :
  (0 <= tIdx <= 2)%Z ->
  (-1 <= getDetailedColumnIndex s v tIdx <= 26)%Z.
Proof.
  intros Ht. unfold getDetailedColumnIndex. cbv zeta. split_eqb; lia.
Qed.


Section Slots.
Context {num : Type} `{Number num} `{RandomSource num}.
Local Open Scope js_scope.

Lemma detailedFrom_slot (log : list ((nat * nat * nat) * list num)) (c : nat) :
  forall init : jsarray (list num),
    (c < length init)%nat ->
    (Forall (fun e => columnOf (fst e) <> Z.of_nat c) log /\
     nth_error (detailedFrom init log) c = nth_error init c) \/
    (exists e, In e log /\ columnOf (fst e) = Z.of_nat c /\
               nth_error (detailedFrom init log) c = Some (Some (snd e))).
Proof.
  induction log as [|e log IH]; intros init Hc.
  - left. split; [constructor | reflexivity].
  - change (detailedFrom init (e :: log))
      with (detailedFrom
              (if (columnOf (fst e) =? -1)%Z then init
               else js_set init (Z.to_nat (columnOf (fst e))) (snd e)) log).
    pose proof (columnOf_lower_bound (fst e)) as Hlb.
    match goal with
    | |- context [detailedFrom ?d log] =>
        assert (Hc' : (c < length d)%nat)
          by (destruct (columnOf (fst e) =? -1)%Z;
              [exact Hc | rewrite js_set_length; lia]);
        destruct (IH d Hc') as [(Hnone & Hnth)|(e' & Hin & Hcol & Hnth)]
    end.
    + destruct (Z.eq_dec (columnOf (fst e)) (Z.of_nat c)) as [Heq|Hne].
      * right. exists e. split; [left; reflexivity|]. split; [exact Heq|].
        rewrite Hnth, Heq.
        destruct (Z.eqb_spec (Z.of_nat c) (-1)) as [Hm|_]; [lia|].
        rewrite Nat2Z.id. apply js_set_nth_same.
      * left. split; [constructor; assumption|].
        rewrite Hnth.
        destruct (Z.eqb_spec (columnOf (fst e)) (-1)) as [_|Hm]; [reflexivity|].
        apply js_set_nth_other; lia.
    + right. exists e'. split; [right; exact Hin|]. split; assumption.
Qed.

Lemma detailedFrom_length_within (log : list ((nat * nat * nat) * list num)) :
  forall init : jsarray (list num),
    Forall (fun e => (columnOf (fst e) < Z.of_nat (length init))%Z) log ->
    length (detailedFrom init log) = length init.
Proof.
  unfold detailedFrom.
  induction log as [|e log IH]; intros init Hlog; cbn [fold_left].
  - reflexivity.
  - inversion Hlog as [|e' log' He Hrest]; subst.
    pose proof (columnOf_lower_bound (fst e)) as Hlb.
    destruct (Z.eqb_spec (columnOf (fst e)) (-1)) as [_|Hm].
    + apply IH. exact Hrest.
    + assert (Hlen : length (js_set init (Z.to_nat (columnOf (fst e))) (snd e))
                     = length init) by (rewrite js_set_length; lia).
      rewrite IH; [exact Hlen|]. rewrite Hlen. exact Hrest.
Qed.

(* The slot invariant in the range the mapper was written for: at most
   three maturities. *)
Lemma detailed_slots_up_to_three_maturities (p : SimulationParams num)
    (g : rng) :
  validParams p ->
  (length (maturities p) <= 3)%nat ->
  exists res : SimulationResult num,
    runFullSimulation p g = Returned res /\
    length (detailedPaths res) = 27%nat /\
    forall c : nat, (c < 27)%nat ->
      ((exists key, In key (scenarioTriples (length (maturities p))) /\
                    columnOf key = Z.of_nat c) ->
       exists key tp,
         columnOf key = Z.of_nat c /\ simulatedFor p g key tp /\
         nth_error (detailedPaths res) c = Some (Some tp) /\
         length tp = Z.to_nat (nPaths p)) /\
      ((forall key, In key (scenarioTriples (length (maturities p))) ->
                    columnOf key <> Z.of_nat c) ->
       nth_error (detailedPaths res) c = Some (Some [])).
Proof.
  intros (Hn & _) HM.
  assert (Hn0 : (0 <= nPaths p)%Z) by lia.
  destruct (runLoops_returned p Hn0 g) as (st & Hrun & Hkeys & Hs & _ & _ & Hd).
  unfold runFullSimulation, simulatedFor, sampleLog. rewrite Hrun. cbn [bind].
  eexists. split; [reflexivity|]. cbn [detailedPaths]. rewrite Hd.
  split.
  - rewrite detailedFrom_length_within; [apply repeat_length|].
    rewrite repeat_length. apply Forall_forall. intros [[[i j] tIdx] tp] Hin.
    cbn [fst].
    assert (Hk : In (i, j, tIdx) (scenarioTriples (length (maturities p)))).
    { rewrite <- Hkeys. apply in_map_iff. now exists ((i, j, tIdx), tp). }
    apply in_scenarioTriples in Hk.
    pose proof (@mapper_range_three_maturities (Z.of_nat i) (Z.of_nat j)
                  (Z.of_nat tIdx)) as Hr.
    unfold columnOf. lia.
  - intros c Hc.
    destruct (detailedFrom_slot (st_log st) (c := c) (repeat (Some []) 27))
      as [(Hnone & Hnth)|(e & Hin & Hcol & Hnth)];
      [rewrite repeat_length; exact Hc | |].
    + split.
      * intros (key & Hkey & Hcol). exfalso.
        rewrite <- Hkeys in Hkey. apply in_map_iff in Hkey as (e & <- & Hin).
        rewrite Forall_forall in Hnone. exact (Hnone e Hin Hcol).
      * intros _. rewrite Hnth. apply nth_error_repeat. exact Hc.
    + split.
      * intros _. exists (fst e), (snd e). split; [exact Hcol|].
        split; [now destruct e|]. split; [exact Hnth|].
        rewrite Forall_forall in Hs. specialize (Hs e Hin).
        apply isSampleOf_length in Hs. exact Hs.
      * intros Hno. exfalso. apply (Hno (fst e)); [|exact Hcol].
        rewrite <- Hkeys. apply in_map. exact Hin.
Qed.
End Slots.


(** ** Instances of the theorems on concrete inputs *)

Lemma validParams_example : validParams exampleParams.
Proof.
  unfold validParams. cbn [nPaths maturities strikes exampleParams].
  split; [lia|]. split; [discriminate|]. split; [discriminate|].
  repeat constructor; apply R_strict_eq_refl.
Defined.


(* C5 on the example parameters: 25 * 3 * 2 rows. *)
Lemma C5_rows_cross_product_witness :
  exists res : SimulationResult R,
    runFullSimulation exampleParams seed = Returned res /\
    length (results res) = 150%nat /\
    map rowKey (results res) = crossProduct exampleParams.
Proof.
  apply (@C5_rows_cross_product _ _ _ exampleParams seed).
  exact validParams_example.
Defined.

(* C10 on the example parameters, whose maturities are distinct. *)
Lemma C10_central_equals_slot_zero_witness :
  exists res : SimulationResult R,
    runFullSimulation exampleParams seed = Returned res /\
    getDetailedColumnIndex 2 2 0 = 0%Z /\
    nth_error (detailedPaths res) 0 = Some (Some (centralDistribution res)) /\
    simulatedFor exampleParams seed (2, 2, 0)%nat (centralDistribution res).
Proof.
  apply (@C10_central_equals_slot_zero _ _ _ exampleParams seed).
  - exact validParams_example.
  - cbn [maturities exampleParams length nth]. intros tIdx Ht.
    destruct tIdx as [|[|[|tIdx]]]; try lia;
      cbn; destruct (Req_dec_T _ _) as [Heq|_]; try reflexivity; lra.
Defined.

(* C7 on three paths from spot 50000. *)
Lemma C7_zero_maturity_paths_witness :
  exists g' : rng,
    simulateTerminalPrices 50000%R (1 / 5)%R 0%R (3 / 100)%R 0%R 3 seed
    = Returned (repeat 50000%R 3, g').
Proof.
  apply (@C7_zero_maturity_paths counterSource 50000%R (1 / 5)%R (3 / 100)%R
           0%R 3%Z seed).
  lia.
Defined.

(* C8 on the sample [3; 1] with strike 2. *)
Lemma C8_payoff_valuator_witness :
  let price := strikePrice (exp (- 0 * 1)) [3; 1]%R 2 2%R in
  (price = exp (- (0 * 1)) * (1 / 2) * payoffSum [3; 1] 2 /\
   0 <= price /\
   ((forall x, In x [3; 1] -> x <= 2) -> price = 0))%R.
Proof.
  apply (@C8_payoff_valuator [3; 1]%R 2%R 1%R 0%R).
  cbn. lia.
Defined.

(** * Further properties *)

(** ** Column table and mapper *)

Lemma mapped_key_in_table (i j t : nat) :
  (t < 3)%nat -> columnOf (i, j, t) <> (-1)%Z ->
  nth_error exportColDefs (Z.to_nat (columnOf (i, j, t))) = Some (i, j, t).
Proof.
  intros Ht. unfold columnOf, getDetailedColumnIndex. cbv zeta.
  assert (Ht' : t = 0%nat \/ t = 1%nat \/ t = 2%nat) by lia.
  split_eqb; intros Hc; try (exfalso; apply Hc; reflexivity);
    repeat match goal with
           | E : Z.of_nat ?n = _ |- _ =>
               let v := fresh in
               assert (v : n = Z.to_nat (Z.of_nat n)) by (symmetry; apply Nat2Z.id);
               rewrite E in v; cbn in v; subst n; clear E
           end;
    destruct Ht' as [-> | [-> | ->]]; reflexivity.
Qed.

Lemma table_entry_is_mapped (c : nat) (key : nat * nat * nat) :
  nth_error exportColDefs c = Some key ->
  (c < 27)%nat /\ (snd key < 3)%nat /\ columnOf key = Z.of_nat c.
Proof.
  intros Hc.
  assert (Hlt : (c < 27)%nat).
  { change 27%nat with (length exportColDefs).
    apply nth_error_Some. congruence. }
  do 27 (destruct c as [|c];
         [cbn in Hc; injection Hc as <-; cbn; repeat split; lia|]).
  lia.
Qed.

(** X1: column c of the export table (and of the on-screen table, which
    lists the same triples) names exactly the scenario that the mapper
    sends to slot c, for the maturity indices 0..2. *)
Theorem X1_column_table_inverts_mapper :
  map colDefKey colDefs = exportColDefs /\
  length exportColDefs = 27%nat /\
  forall (c : nat) (key : nat * nat * nat),
    nth_error exportColDefs c = Some key <->
    ((snd key < 3)%nat /\ columnOf key = Z.of_nat c).
Proof.
  split; [reflexivity|]. split; [reflexivity|].
  intros c [[i j] t]. split.
  - intros Hc. apply table_entry_is_mapped in Hc. tauto.
  - cbn [snd]. intros (Ht & Hcol).
    pose proof (mapped_key_in_table i j Ht) as Hin.
    rewrite Hcol, Nat2Z.id in Hin. apply Hin. lia.
Qed.

(** ** Detailed slots and the path sheet *)

Section SlotContents.
Context {num : Type} `{Number num} `{RandomSource num}.
Local Open Scope js_scope.

Lemma slot_holds_column_sample (p : SimulationParams num) (g : rng)
    (c : nat) (key : nat * nat * nat) :
  validParams p ->
  (length (maturities p) <= 3)%nat ->
  nth_error exportColDefs c = Some key ->
  exists res : SimulationResult num,
    runFullSimulation p g = Returned res /\
    ((snd key < length (maturities p))%nat ->
     exists tp : list num,
       simulatedFor p g key tp /\
       length tp = Z.to_nat (nPaths p) /\
       nth_error (detailedPaths res) c = Some (Some tp)) /\
    ((length (maturities p) <= snd key)%nat ->
     nth_error (detailedPaths res) c = Some (Some [])).
Proof.
  intros (Hn & _) HM Hkey.
  assert (Hn0 : (0 <= nPaths p)%Z) by lia.
  destruct (table_entry_is_mapped _ Hkey) as (Hc & Ht & Hcol).
  destruct (runLoops_returned p Hn0 g) as (st & Hrun & Hkeys & Hs & _ & _ & Hd).
  unfold runFullSimulation, simulatedFor, sampleLog. rewrite Hrun. cbn [bind].
  eexists. split; [reflexivity|]. cbn [detailedPaths]. rewrite Hd.
  destruct (detailedFrom_slot (st_log st) (c := c) (repeat (Some []) 27))
    as [(Hnone & Hnth)|(e & Hin & Hcole & Hnth)];
    [rewrite repeat_length; exact Hc | |].
  - split.
    + intros Hlt. exfalso.
      destruct key as [[i j] t]. cbn [snd] in *.
      assert (Hk : In (i, j, t) (scenarioTriples (length (maturities p)))).
      { apply in_scenarioTriples.
        assert (Hij : (i < 5 /\ j < 5)%nat).
        { do 27 (destruct c as [|c];
                 [cbn in Hkey; injection Hkey as <- <- <-; lia|]).
          lia. }
        lia. }
      rewrite <- Hkeys in Hk. apply in_map_iff in Hk as (e & He & Hin).
      rewrite Forall_forall in Hnone. apply (Hnone e Hin).
      rewrite He. exact Hcol.
    + intros _. rewrite Hnth. apply nth_error_repeat. exact Hc.
  - assert (Hk : In (fst e) (scenarioTriples (length (maturities p)))).
    { rewrite <- Hkeys. apply in_map. exact Hin. }
    destruct e as [[[i j] t] tp]. cbn [fst snd] in *.
    apply in_scenarioTriples in Hk.
    assert (Heq : key = (i, j, t)).
    { assert (Ht3 : (t < 3)%nat) by lia.
      pose proof (mapped_key_in_table i j Ht3) as Htab.
      rewrite Hcole, Nat2Z.id in Htab.
      rewrite Htab in Hkey by lia. congruence. }
    subst key. cbn [snd] in *. split.
    + intros _. exists tp. split; [exact Hin|]. split; [|exact Hnth].
      rewrite Forall_forall in Hs. specialize (Hs _ Hin).
      apply isSampleOf_length in Hs. exact Hs.
    + intros Hge. lia.
Qed.

(** X2: on valid parameters with at most three maturities, slot c of
    detailedPaths holds the sample simulated for the scenario that column
    c of the export table names, when that scenario's maturity is
    configured, and is the empty array otherwise. *)
Theorem X2_slot_holds_its_column_sample (p : SimulationParams num) (g : rng)
    (c : nat) (key : nat * nat * nat) :
  validParams p ->
  (length (maturities p) <= 3)%nat ->
  nth_error exportColDefs c = Some key ->
  exists res : SimulationResult num,
    runFullSimulation p g = Returned res /\
    ((snd key < length (maturities p))%nat ->
     exists tp : list num,
       simulatedFor p g key tp /\
       length tp = Z.to_nat (nPaths p) /\
       nth_error (detailedPaths res) c = Some (Some tp)) /\
    ((length (maturities p) <= snd key)%nat ->
     nth_error (detailedPaths res) c = Some (Some [])).
Proof.
  intros Hvalid HM Hkey. now apply slot_holds_column_sample.
Qed.

End SlotContents.

Lemma nth_error_map_seq {A : Type} (f : nat -> A) (n i : nat) :
  (i < n)%nat -> nth_error (map f (seq 0 n)) i = Some (f i).
Proof.
  intros Hi. rewrite nth_error_map, nth_error_seq.
  destruct (Nat.ltb_spec i n); [reflexivity | lia].
Qed.

Section PathSheet.
Context {num : Type} `{Number num} `{RandomSource num}.
Local Open Scope js_scope.

(** X3: the sheet "Simulated Paths" has min(nPaths, 200000) data rows
    (none for a non-positive nPaths) under its three header rows; every
    row, header or data, has 28 cells, and data row i starts with the
    1-based index i + 1. *)
Theorem X3_path_sheet_shape (p : SimulationParams num)
    (res : SimulationResult num) :
  length (simulatedPathRows p res) = Z.to_nat (Z.min (nPaths p) 200000) /\
  length (sheet2Data p res)
  = (3 + Z.to_nat (Z.min (nPaths p) 200000))%nat /\
  Forall (fun row => length row = 28%nat) (sheet2Data p res) /\
  forall (i : nat) (row : list (cell num)),
    nth_error (simulatedPathRows p res) i = Some row ->
    nth_error row 0 = Some (CellNum (of_Z (Z.of_nat i + 1))).
Proof.
  assert (Hlen : length (simulatedPathRows p res)
                 = Z.to_nat (Z.min (nPaths p) 200000)).
  { unfold simulatedPathRows. rewrite length_map, length_seq. reflexivity. }
  split; [exact Hlen|]. split.
  { unfold sheet2Data. rewrite length_app, Hlen. reflexivity. }
  split.
  - unfold sheet2Data. apply Forall_app. split.
    + repeat constructor.
    + unfold simulatedPathRows. apply Forall_forall. intros row Hin.
      apply in_map_iff in Hin as (i & <- & _).
      cbn [length]. rewrite length_map, length_seq. reflexivity.
  - intros i row Hrow.
    assert (Hi : (i < Z.to_nat (Z.min (nPaths p) 200000))%nat).
    { rewrite <- Hlen. apply nth_error_Some. congruence. }
    unfold simulatedPathRows in Hrow.
    rewrite (nth_error_map_seq _ Hi) in Hrow. injection Hrow as <-.
    reflexivity.
Qed.

(** X4: after a run on valid parameters with at most three maturities,
    data row i of the sheet "Simulated Paths" holds in column c path
    number (nPaths - min(nPaths, 200000)) + i of the sample simulated for
    the scenario that the header of column c names; the cell is the empty
    string when that scenario's maturity is not configured.  Only the
    last 200000 paths of a sample are exported. *)
Theorem X4_path_sheet_cells (p : SimulationParams num) (g : rng)
    (i c : nat) (key : nat * nat * nat) :
  validParams p ->
  (length (maturities p) <= 3)%nat ->
  (Z.of_nat i < Z.min (nPaths p) 200000)%Z ->
  nth_error exportColDefs c = Some key ->
  exists (res : SimulationResult num) (row : list (cell num)),
    runFullSimulation p g = Returned res /\
    nth_error (simulatedPathRows p res) i = Some row /\
    ((snd key < length (maturities p))%nat ->
     exists tp : list num,
       simulatedFor p g key tp /\
       nth_error row (S c)
       = Some (CellNum
                 (nth (Z.to_nat (nPaths p - Z.min (nPaths p) 200000) + i) tp
                      (of_Z 0)))) /\
    ((length (maturities p) <= snd key)%nat ->
     nth_error row (S c) = Some (CellStr String.EmptyString)).
Proof.
  intros Hvalid HM Hi Hkey.
  destruct (slot_holds_column_sample g c Hvalid HM Hkey)
    as (res & Hres & Hpop & Hempty).
  destruct (table_entry_is_mapped _ Hkey) as (Hc & _).
  assert (Hi' : (i < Z.to_nat (Z.min (nPaths p) 200000))%nat) by lia.
  exists res. eexists. split; [exact Hres|]. split.
  { unfold simulatedPathRows. apply (nth_error_map_seq _ Hi'). }
  cbn [nth_error].
  change (length exportColDefs) with 27%nat.
  rewrite (nth_error_map_seq _ Hc). unfold pathCell. split.
  - intros Hlt. destruct (Hpop Hlt) as (tp & Hsim & Hlen & Hslot).
    exists tp. split; [exact Hsim|]. rewrite Hslot.
    set (pathIdx := (nPaths p - Z.min (nPaths p) 200000 + Z.of_nat i)%Z).
    assert (Hrange : (0 <= pathIdx < Z.of_nat (length tp))%Z).
    { unfold pathIdx. rewrite Hlen. lia. }
    destruct (Z.gtb_spec (Z.of_nat (length tp)) pathIdx) as [_|Hle]; [|lia].
    unfold arrayCell.
    destruct (Z.ltb_spec pathIdx 0) as [Hneg|_]; [lia|].
    replace (Z.to_nat (nPaths p - Z.min (nPaths p) 200000) + i)%nat
      with (Z.to_nat pathIdx) by (unfold pathIdx; lia).
    rewrite (nth_error_nth' tp (of_Z 0)) by lia. reflexivity.
  - intros Hge. rewrite (Hempty Hge). cbn [length].
    destruct (Z.gtb_spec (Z.of_nat 0)
                (nPaths p - Z.min (nPaths p) 200000 + Z.of_nat i))
      as [Hgt|_]; [lia | reflexivity].
Qed.

End PathSheet.

(** ** Run handler and heatmap rows *)

Lemma map_filter_comm {A B : Type} (f : A -> B) (Q : B -> bool) (l : list A) :
  map f (filter (fun x => Q (f x)) l) = filter Q (map f l).
Proof.
  induction l as [|x l IH]; cbn; [reflexivity|].
  destruct (Q (f x)); cbn; now rewrite IH.
Qed.

Lemma filter_flat_map {A B : Type} (Q : B -> bool) (f : A -> list B)
    (l : list A) :
  filter Q (flat_map f l) = flat_map (fun x => filter Q (f x)) l.
Proof.
  induction l as [|x l IH]; cbn; [reflexivity|].
  now rewrite filter_app, IH.
Qed.

Lemma filter_none {A : Type} (Q : A -> bool) (l : list A) :
  Forall (fun x => Q x = false) l -> filter Q l = [].
Proof.
  induction 1 as [|x l Hx _ IH]; cbn; [reflexivity|]. now rewrite Hx.
Qed.

Lemma map_as_flat_map {A B : Type} (f : A -> B) (l : list A) :
  flat_map (fun x => [f x]) l = map f l.
Proof.
  induction l as [|x l IH]; cbn; [reflexivity | now rewrite IH].
Qed.

Lemma tail_from_index {A : Type} (P : A -> Prop) (d x : A) (l : list A) :
  (forall i, (0 < i < length (x :: l))%nat -> P (nth i (x :: l) d)) ->
  Forall P l.
Proof.
  intros Hi. apply Forall_forall. intros y Hy.
  apply (In_nth _ _ d) in Hy as (n & Hn & <-).
  apply (Hi (S n)). cbn [length]. lia.
Qed.

Section Handler.
Context {num : Type} `{Number num} `{RandomSource num}.
Local Open Scope js_scope.

Lemma filter_first_cross (s v m0 k0 : num) (ms ks : list num) :
  (m0 === m0) = true -> (k0 === k0) = true ->
  Forall (fun t => (t === m0) = false) ms ->
  Forall (fun k => (k === k0) = false) ks ->
  filter (fun key : num * num * num * num =>
            let '(_, _, t, k) := key in (t === m0) && (k === k0))
         (flat_map (fun t => map (fun k => (s, v, t, k)) (k0 :: ks)) (m0 :: ms))
  = [(s, v, m0, k0)].
Proof.
  intros Hm Hk Hms Hks.
  assert (Hrest : filter (fun key : num * num * num * num =>
                            let '(_, _, t, k) := key in (t === m0) && (k === k0))
                         (map (fun k => (s, v, m0, k)) ks) = []).
  { apply filter_none, Forall_forall. intros [[[s' v'] t'] k'] Hin.
    apply in_map_iff in Hin as (k & Heq & Hk'). injection Heq as <- <- <- <-.
    rewrite Forall_forall in Hks. rewrite (Hks _ Hk').
    apply andb_false_r. }
  assert (Hlater : filter (fun key : num * num * num * num =>
                             let '(_, _, t, k) := key in (t === m0) && (k === k0))
                          (flat_map (fun t => map (fun k => (s, v, t, k)) (k0 :: ks)) ms)
                   = []).
  { apply filter_none, Forall_forall. intros [[[s' v'] t'] k'] Hin.
    apply in_flat_map in Hin as (t & Ht & Hin).
    apply in_map_iff in Hin as (k & Heq & _). injection Heq as <- <- <- <-.
    rewrite Forall_forall in Hms. now rewrite (Hms _ Ht). }
  cbn [flat_map]. rewrite filter_app, Hlater, app_nil_r.
  change (map (fun k => (s, v, m0, k)) (k0 :: ks))
    with ((s, v, m0, k0) :: map (fun k => (s, v, m0, k)) ks).
  cbn [filter]. rewrite Hm, Hk. cbn [andb]. rewrite Hrest. reflexivity.
Qed.

(** X5: after a run on valid parameters whose first maturity and first
    strike do not occur again in their lists, the handler raises no alert
    and the heatmap receives exactly 25 rows: one per (spot, vol) pair, in
    loop order, all at the first maturity and the first strike. *)
Theorem X5_heatmap_rows_after_run (p : SimulationParams num) (g : rng)
    (st : AppState) :
  validParams p ->
  (nth 0 (strikes p) (of_Z 0) === nth 0 (strikes p) (of_Z 0)) = true ->
  (forall i, (0 < i < length (maturities p))%nat ->
     (nth i (maturities p) (of_Z 0) === nth 0 (maturities p) (of_Z 0)) = false) ->
  (forall i, (0 < i < length (strikes p))%nat ->
     (nth i (strikes p) (of_Z 0) === nth 0 (strikes p) (of_Z 0)) = false) ->
  snd (handleRunSimulation p g st) = None /\
  map rowKey (currentHeatmapData (fst (handleRunSimulation p g st)))
  = flat_map
      (fun s => map (fun v => (s, v, nth 0 (maturities p) (of_Z 0),
                               nth 0 (strikes p) (of_Z 0)))
                    (volAxis p))
      (spotAxis p).
Proof.
  intros (Hn & Hms & Hks & Hself) Hk0 Hmu Hku.
  assert (Hn0 : (0 <= nPaths p)%Z) by lia.
  destruct (rows_cross_product p g Hn0) as (res & Hres & Hlen & Hkeys).
  unfold handleRunSimulation. rewrite Hres.
  destruct (maturities p) as [|m0 ms] eqn:Em; [contradiction|].
  destruct (strikes p) as [|k0 ks] eqn:Ek; [contradiction|].
  cbn [nth] in *.
  assert (Hpos : (0 <? length (results res))%nat = true).
  { apply Nat.ltb_lt. rewrite Hlen. cbn [length]. lia. }
  rewrite Hpos. cbn [fst snd]. split; [reflexivity|].
  unfold currentHeatmapData. cbn [app_results selectedMaturity selectedStrike].
  set (Q := fun key : num * num * num * num =>
              let '(_, _, t, k) := key in (t === m0) && (k === k0)).
  replace (filter (fun row => (SRow.t row === m0) && (SRow.k row === k0))
                  (results res))
    with (filter (fun row => Q (rowKey row)) (results res))
    by (apply filter_ext; intros row; reflexivity).
  rewrite map_filter_comm. subst Q.
  rewrite Hkeys. unfold crossProduct. rewrite Em, Ek.
  rewrite filter_flat_map. apply flat_map_ext. intros s.
  rewrite filter_flat_map.
  assert (Hm0 : (m0 === m0) = true) by now inversion Hself.
  assert (Hmt : Forall (fun t => (t === m0) = false) ms)
    by exact (tail_from_index _ (of_Z 0) Hmu).
  assert (Hkt : Forall (fun k => (k === k0) = false) ks)
    by exact (tail_from_index _ (of_Z 0) Hku).
  rewrite <- map_as_flat_map. apply flat_map_ext. intros v.
  now apply filter_first_cross.
Qed.

(** X6: when the run throws (negative nPaths with a configured maturity)
    the handler leaves the state, with its previous results and
    selection, untouched and raises the alert; when the run returns no
    row (no maturity or no strike) it stores the row-less result without
    any alert, keeps the previous selection, and the heatmap receives no
    row. *)
Theorem X6_run_handler_without_rows (p : SimulationParams num) (g : rng)
    (st : AppState) :
  ((nPaths p < 0)%Z -> maturities p <> [] ->
   handleRunSimulation p g st
   = (st, Some "Simulation failed. Please check your inputs."%string)) /\
  ((0 <= nPaths p)%Z -> maturities p = [] \/ strikes p = [] ->
   exists res : SimulationResult num,
     runFullSimulation p g = Returned res /\
     results res = [] /\
     handleRunSimulation p g st
     = ({| app_results := Some res;
           selectedMaturity := selectedMaturity st;
           selectedStrike := selectedStrike st |}, None) /\
     currentHeatmapData (fst (handleRunSimulation p g st)) = []).
Proof.
  split.
  - intros Hn Hms. unfold handleRunSimulation.
    rewrite (run_negative_paths p g Hn Hms). reflexivity.
  - intros Hn0 Hempty.
    assert (Hrun : exists res, runFullSimulation p g = Returned res
                               /\ results res = []).
    { destruct Hempty as [Hms|Hks].
      - eexists. split; [apply (run_no_maturities p g Hms) | reflexivity].
      - apply (run_no_strikes p g Hn0 Hks). }
    destruct Hrun as (res & Hres & Hrows).
    exists res. split; [exact Hres|]. split; [exact Hrows|].
    unfold handleRunSimulation. rewrite Hres, Hrows. cbn [length Nat.ltb Nat.leb].
    split; [reflexivity|].
    cbn [fst]. unfold currentHeatmapData. cbn [app_results]. rewrite Hrows.
    reflexivity.
Qed.

End Handler.

(** ** Sidebar: editing the maturities *)

Lemma typed_set_length {A : Type} (a : list A) (i : nat) (v : A) :
  length (typed_set a i v) = length a.
Proof.
  revert i. induction a as [|x a IH]; intros [|i]; cbn; try reflexivity.
  now rewrite IH.
Qed.

Lemma typed_set_nth_same {A : Type} (a : list A) (i : nat) (v : A) :
  (i < length a)%nat -> nth_error (typed_set a i v) i = Some v.
Proof.
  revert i. induction a as [|x a IH]; intros [|i] Hi; cbn in *; try lia.
  - reflexivity.
  - apply IH. lia.
Qed.

Lemma typed_set_nth_other {A : Type} (a : list A) (i j : nat) (v : A) :
  j <> i -> nth_error (typed_set a i v) j = nth_error a j.
Proof.
  revert i j. induction a as [|x a IH]; intros [|i] [|j] Hne; cbn;
    try reflexivity; try lia.
  apply IH. lia.
Qed.

Section SidebarEdits.
Context {num : Type} `{Number num}.

Lemma pushZeros_repeat (trips : nat) (l : list num) :
  pushZeros trips l = l ++ repeat (of_Z 0) trips.
Proof.
  revert l. induction trips as [|n IH]; intros l; cbn.
  - now rewrite app_nil_r.
  - rewrite IH, <- app_assoc. reflexivity.
Qed.

Lemma updateMaturity_length (index : nat) (val : num)
    (prev : SimulationParams num) :
  length (maturities (updateMaturity index val prev))
  = Nat.max (length (maturities prev)) (S index).
Proof.
  unfold updateMaturity. cbn [maturities].
  rewrite typed_set_length, pushZeros_repeat, length_app, repeat_length. lia.
Qed.

(** X7: updateMaturity stores the value at its index and changes nothing
    else: the list grows to index + 1 entries if it was shorter, the
    entries it had elsewhere are kept, the entries added below the index
    are 0, and the other parameters are untouched. *)
Theorem X7_updateMaturity_stores (index : nat) (val : num)
    (prev : SimulationParams num) :
  let next := updateMaturity index val prev in
  length (maturities next) = Nat.max (length (maturities prev)) (S index) /\
  nth_error (maturities next) index = Some val /\
  (forall j, j <> index -> (j < length (maturities prev))%nat ->
     nth_error (maturities next) j = nth_error (maturities prev) j) /\
  (forall j, (length (maturities prev) <= j < index)%nat ->
     nth_error (maturities next) j = Some (of_Z 0)) /\
  (r next, q next, s0 next, s0Step next, vol next, volStep next, nPaths next,
   strikes next)
  = (r prev, q prev, s0 prev, s0Step prev, vol prev, volStep prev,
     nPaths prev, strikes prev).
Proof.
  cbv zeta. unfold updateMaturity. cbn [maturities r q s0 s0Step vol volStep nPaths strikes].
  rewrite pushZeros_repeat.
  set (l := maturities prev).
  assert (Hlen : length (l ++ repeat (of_Z 0) (S index - length l))
                 = Nat.max (length l) (S index))
    by (rewrite length_app, repeat_length; lia).
  split; [rewrite typed_set_length; exact Hlen|].
  split; [apply typed_set_nth_same; lia|].
  split; [|split; [|reflexivity]].
  - intros j Hne Hj. rewrite typed_set_nth_other by exact Hne.
    apply nth_error_app1. exact Hj.
  - intros j Hj. rewrite typed_set_nth_other by lia.
    rewrite nth_error_app2 by lia.
    apply nth_error_repeat. lia.
Qed.

Lemma applyMaturityEdits_length (edits : list (nat * num))
    (p : SimulationParams num) :
  Forall (fun edit => (fst edit <= 2)%nat) edits ->
  (length (maturities p) <= 3)%nat ->
  (length (maturities p)
   <= length (maturities (applyMaturityEdits edits p)) <= 3)%nat /\
  nPaths (applyMaturityEdits edits p) = nPaths p.
Proof.
  unfold applyMaturityEdits. intros Hedits. revert p.
  induction Hedits as [|[i v] edits Hi _ IH]; intros p Hp; cbn [fold_left].
  - split; [lia | reflexivity].
  - cbn [fst snd] in *.
    pose proof (updateMaturity_length i v p) as Hlen.
    destruct (IH (updateMaturity i v p)) as (Hl & Hn); [lia|].
    split; [lia|]. rewrite Hn. reflexivity.
Qed.

End SidebarEdits.

(** ** Slot count and generator use of a run *)

Lemma scenarioTriples_length (M : nat) :
  length (scenarioTriples M) = (25 * M)%nat.
Proof.
  unfold scenarioTriples.
  rewrite (@flat_map_length_const _ _ _ (5 * M)); [cbn; lia|].
  intros i. rewrite (@flat_map_length_const _ _ _ M); [cbn; lia|].
  intros j. now rewrite length_map, length_seq.
Qed.

Section RunBookkeeping.
Context {num : Type} `{Number num} `{RandomSource num}.
Local Open Scope js_scope.

Lemma detailed_length_up_to_three (p : SimulationParams num) (g : rng) :
  (0 <= nPaths p)%Z ->
  (length (maturities p) <= 3)%nat ->
  exists res : SimulationResult num,
    runFullSimulation p g = Returned res /\
    length (detailedPaths res) = 27%nat.
Proof.
  intros Hn0 HM.
  destruct (runLoops_returned p Hn0 g) as (st & Hrun & Hkeys & _ & _ & _ & Hd).
  unfold runFullSimulation. rewrite Hrun. cbn [bind].
  eexists. split; [reflexivity|]. cbn [detailedPaths]. rewrite Hd.
  rewrite detailedFrom_length_within; [apply repeat_length|].
  rewrite repeat_length. apply Forall_forall. intros [[[i j] tIdx] tp] Hin.
  cbn [fst].
  assert (Hk : In (i, j, tIdx) (scenarioTriples (length (maturities p)))).
  { rewrite <- Hkeys. apply in_map_iff. now exists ((i, j, tIdx), tp). }
  apply in_scenarioTriples in Hk.
  pose proof (@mapper_range_three_maturities (Z.of_nat i) (Z.of_nat j)
                (Z.of_nat tIdx)) as Hr.
  unfold columnOf. lia.
Qed.

(** X8: whatever is typed into the three maturity inputs of the sidebar,
    the parameters keep at most three maturities (and never lose one),
    so a run on them that does not throw returns exactly 27 detailed
    slots. *)
Theorem X8_sidebar_edits_keep_27_slots (edits : list (nat * num))
    (p : SimulationParams num) (g : rng) :
  Forall (fun edit => (fst edit <= 2)%nat) edits ->
  (length (maturities p) <= 3)%nat ->
  (0 <= nPaths p)%Z ->
  (length (maturities p)
   <= length (maturities (applyMaturityEdits edits p)) <= 3)%nat /\
  exists res : SimulationResult num,
    runFullSimulation (applyMaturityEdits edits p) g = Returned res /\
    length (detailedPaths res) = 27%nat.
Proof.
  intros Hedits HM Hn0.
  destruct (applyMaturityEdits_length p Hedits HM) as (Hlen & Hn).
  split; [exact Hlen|].
  apply detailed_length_up_to_three; [rewrite Hn; exact Hn0 | lia].
Qed.

Lemma drawPrices_state (f : num -> num) (n : nat) (g : rng) :
  snd (drawPrices f n g) = skipGaussian n g.
Proof.
  revert g. induction n as [|n IH]; intros g; cbn; [reflexivity|].
  destruct (gaussianRandom g) as [z g'] eqn:Eg. cbn [snd].
  rewrite <- IH. now destruct (drawPrices f n g').
Qed.

Lemma skipGaussian_add (a b : nat) (g : rng) :
  skipGaussian (a + b) g = skipGaussian b (skipGaussian a g).
Proof.
  revert g. induction a as [|a IH]; intros g; cbn; [reflexivity | apply IH].
Qed.

Lemma stepOrStay_rng (p : SimulationParams num) (s0List volList : list num)
    (st : LoopState) (key : nat * nat * nat) :
  (0 <= nPaths p)%Z ->
  st_rng (stepOrStay p s0List volList st key)
  = skipGaussian (Z.to_nat (nPaths p)) (st_rng st).
Proof.
  intros Hn0. destruct key as [[i j] tIdx].
  unfold stepOrStay, scenarioStep.
  rewrite simulateTerminalPrices_returned by exact Hn0.
  cbn [bind st_rng]. apply drawPrices_state.
Qed.

Lemma fold_stepOrStay_rng (p : SimulationParams num)
    (s0List volList : list num) (keys : list (nat * nat * nat)) :
  (0 <= nPaths p)%Z ->
  forall st,
    st_rng (fold_left (stepOrStay p s0List volList) keys st)
    = skipGaussian (length keys * Z.to_nat (nPaths p)) (st_rng st).
Proof.
  intros Hn0. induction keys as [|key keys IH]; intros st; cbn [fold_left length].
  - reflexivity.
  - rewrite IH, stepOrStay_rng by exact Hn0.
    rewrite <- skipGaussian_add. reflexivity.
Qed.

(** X9: a run that does not throw leaves the generator where 25 * M *
    nPaths calls of gaussianRandom take it, one call per path of each of
    the 25 * M scenarios, whatever the number of strikes. *)
Theorem X9_run_draw_count (p : SimulationParams num) (g : rng) :
  (0 <= nPaths p)%Z ->
  exists st : LoopState,
    runLoops p g = Returned st /\
    st_rng st
    = skipGaussian (25 * length (maturities p) * Z.to_nat (nPaths p)) g /\
    length (st_log st) = (25 * length (maturities p))%nat.
Proof.
  intros Hn0.
  destruct (runLoops_returned p Hn0 g) as (st & Hrun & Hkeys & _).
  exists st. split; [exact Hrun|].
  pose proof (runLoops_fold p Hn0 g) as Hfold.
  rewrite Hrun in Hfold. injection Hfold as Hst.
  split.
  - rewrite Hst, fold_stepOrStay_rng by exact Hn0.
    rewrite scenarioTriples_length. reflexivity.
  - rewrite <- (length_map fst), Hkeys. apply scenarioTriples_length.
Qed.

End RunBookkeeping.

(** ** Slots with more than three maturities *)

(* The loops visit the triples in lexicographic order. *)
Lemma scenarioTriples_split_ordered (M i0 j0 t0 : nat) :
  (i0 < 5)%nat -> (j0 < 5)%nat -> (t0 < M)%nat ->
  exists before after : list (nat * nat * nat),
    scenarioTriples M = before ++ (i0, j0, t0) :: after /\
    (forall i j tIdx, In (i, j, tIdx) after ->
       (i0 < i)%nat \/ (i = i0 /\ j0 < j)%nat
       \/ (i = i0 /\ j = j0 /\ t0 < tIdx)%nat).
Proof.
  intros Hi Hj Ht.
  set (G := fun i j : nat => map (fun tIdx : nat => (i, j, tIdx)) (seq 0 M)).
  set (F := fun i : nat => flat_map (G i) (seq 0 5)).
  exists (flat_map F (seq 0 i0) ++ flat_map (G i0) (seq 0 j0)
          ++ map (fun tIdx : nat => (i0, j0, tIdx)) (seq 0 t0)).
  exists (map (fun tIdx : nat => (i0, j0, tIdx)) (seq (S t0) (M - S t0))
          ++ flat_map (G i0) (seq (S j0) (5 - S j0))
          ++ flat_map F (seq (S i0) (5 - S i0))).
  split.
  - change (scenarioTriples M) with (flat_map F (seq 0 5)).
    rewrite (seq_split_at Hi), flat_map_app. cbn [flat_map].
    unfold F at 2. rewrite (seq_split_at Hj), flat_map_app. cbn [flat_map].
    unfold G at 2. rewrite (seq_split_at Ht), map_app. cbn [map].
    repeat rewrite <- app_assoc. cbn [app]. reflexivity.
  - intros i j tIdx Hin.
    apply in_app_or in Hin as [Hin|Hin];
      [|apply in_app_or in Hin as [Hin|Hin]].
    + apply in_map_iff in Hin as (t' & Heq & Hseq).
      injection Heq as <- <- <-. apply in_seq in Hseq. lia.
    + apply in_flat_map in Hin as (j' & Hj' & Hin).
      apply in_map_iff in Hin as (t' & Heq & _).
      injection Heq as <- <- <-. apply in_seq in Hj'. lia.
    + apply in_flat_map in Hin as (i' & Hi' & Hin).
      apply in_flat_map in Hin as (j' & _ & Hin).
      apply in_map_iff in Hin as (t' & Heq & _).
      injection Heq as <- <- <-. apply in_seq in Hi'. lia.
Qed.

Section ManyMaturities.
Context {num : Type} `{Number num} `{RandomSource num}.
Local Open Scope js_scope.

Lemma detailedFrom_length_mono (log : list ((nat * nat * nat) * list num)) :
  forall init : jsarray (list num),
    (length init <= length (detailedFrom init log))%nat.
Proof.
  unfold detailedFrom.
  induction log as [|e log IH]; intros init; cbn [fold_left]; [lia|].
  destruct (Z.eqb_spec (columnOf (fst e)) (-1)) as [_|Hm]; [apply IH|].
  specialize (IH (js_set init (Z.to_nat (columnOf (fst e))) (snd e))).
  rewrite js_set_length in IH. lia.
Qed.

Lemma detailedFrom_length_bounds (log : list ((nat * nat * nat) * list num))
    (L : nat) :
  Forall (fun e => (columnOf (fst e) < Z.of_nat L)%Z) log ->
  forall init : jsarray (list num),
    (length init <= L)%nat ->
    (length init <= length (detailedFrom init log) <= L)%nat.
Proof.
  unfold detailedFrom. intros Hlog.
  induction Hlog as [|e log He _ IH]; intros init Hinit; cbn [fold_left].
  - lia.
  - pose proof (columnOf_lower_bound (fst e)) as Hlb.
    destruct (Z.eqb_spec (columnOf (fst e)) (-1)) as [_|Hm].
    + apply IH. exact Hinit.
    + specialize (IH (js_set init (Z.to_nat (columnOf (fst e))) (snd e))).
      rewrite js_set_length in IH. lia.
Qed.

Lemma detailedFrom_length_reaches (log : list ((nat * nat * nat) * list num))
    (e : (nat * nat * nat) * list num) :
  In e log ->
  forall init : jsarray (list num),
    (columnOf (fst e) < Z.of_nat (length (detailedFrom init log)))%Z.
Proof.
  intros Hin init. apply in_split in Hin as (l1 & l2 & ->).
  unfold detailedFrom. rewrite fold_left_app. cbn [fold_left].
  match goal with
  | |- context [fold_left ?f l1 init] => set (d := fold_left f l1 init)
  end.
  match goal with
  | |- context [fold_left ?f l2 ?d'] =>
      change (fold_left f l2 d') with (detailedFrom d' l2)
  end.
  destruct (Z.eqb_spec (columnOf (fst e)) (-1)) as [Hm|Hm]; [lia|].
  pose proof (columnOf_lower_bound (fst e)) as Hlb.
  pose proof (detailedFrom_length_mono l2
                (js_set d (Z.to_nat (columnOf (fst e))) (snd e))) as Hmono.
  rewrite js_set_length in Hmono. lia.
Qed.

(** X10: a run that does not throw leaves max(27, 8 * M + 3) detailed
    slots for M maturities: 27 up to three maturities, and eight more for
    each further one. *)
Theorem X10_detailed_slot_count (p : SimulationParams num) (g : rng) :
  (0 <= nPaths p)%Z ->
  exists res : SimulationResult num,
    runFullSimulation p g = Returned res /\
    length (detailedPaths res)
    = Nat.max 27 (8 * length (maturities p) + 3).
Proof.
  intros Hn0.
  destruct (runLoops_returned p Hn0 g) as (st & Hrun & Hkeys & _ & _ & _ & Hd).
  unfold runFullSimulation. rewrite Hrun. cbn [bind].
  eexists. split; [reflexivity|]. cbn [detailedPaths]. rewrite Hd.
  set (M := length (maturities p)) in *.
  assert (Hup : Forall (fun e => (columnOf (fst e)
                                  < Z.of_nat (Nat.max 27 (8 * M + 3)))%Z)
                       (st_log st)).
  { apply Forall_forall. intros [[[i j] tIdx] tp] Hin. cbn [fst].
    assert (Hk : In (i, j, tIdx) (scenarioTriples M)).
    { rewrite <- Hkeys. apply in_map_iff. now exists ((i, j, tIdx), tp). }
    apply in_scenarioTriples in Hk.
    unfold columnOf, getDetailedColumnIndex. cbv zeta. split_eqb; lia. }
  pose proof (@detailedFrom_length_bounds _ _ Hup (repeat (Some []) 27)) as Hb.
  rewrite repeat_length in Hb. specialize (Hb ltac:(lia)).
  destruct (Nat.le_gt_cases M 3) as [Hle|Hgt]; [lia|].
  assert (Hk : In (3, 3, M - 1)%nat (scenarioTriples M))
    by (apply in_scenarioTriples; lia).
  rewrite <- Hkeys in Hk. apply in_map_iff in Hk as (e & He & Hin).
  pose proof (@detailedFrom_length_reaches _ e Hin (repeat (Some []) 27)) as Hr.
  rewrite He in Hr. unfold columnOf, getDetailedColumnIndex in Hr.
  cbn [Z.of_nat Z.eqb Pos.of_succ_nat Pos.succ Pos.eqb andb] in Hr.
  lia.
Qed.

(** X11: when a maturity index 3 + 8 * b + o with o <= 3 is configured,
    the slot of that number, which the export table reads as block b's
    column of offset o (S-, S- V-, S- V+ or V-), holds at the end of the
    run the sample simulated for the pivot scenario at that maturity
    index: the pivot is visited after the four scenarios of those
    offsets and its write lands on their slot. *)
Theorem X11_pivot_overwrites_block_slot (p : SimulationParams num) (g : rng)
    (b o : nat) :
  (0 <= nPaths p)%Z ->
  (o <= 3)%nat ->
  (3 + 8 * b + o < length (maturities p))%nat ->
  exists (res : SimulationResult num) (tp : list num),
    runFullSimulation p g = Returned res /\
    nth o [columnOf (1, 2, b); columnOf (1, 1, b);
           columnOf (1, 3, b); columnOf (2, 1, b)]%nat (-1)%Z
    = columnOf (2, 2, 3 + 8 * b + o)%nat /\
    simulatedFor p g (2, 2, 3 + 8 * b + o)%nat tp /\
    nth_error (detailedPaths res) (3 + 8 * b + o) = Some (Some tp).
Proof.
  intros Hn0 Ho Ht.
  destruct (runLoops_returned p Hn0 g) as (st & Hrun & Hkeys & _ & _ & _ & Hd).
  destruct (@scenarioTriples_split_ordered (length (maturities p)) 2 2
              (3 + 8 * b + o)) as (before & after & Hsplit & Hafter);
    [lia | lia | exact Ht |].
  pose proof Hkeys as Hkeys'. rewrite Hsplit in Hkeys'.
  apply map_eq_app in Hkeys' as (lb & rest & Hlog & Hlb & Hrest).
  apply map_eq_cons in Hrest as (e & la & -> & He & Hla).
  destruct e as [key tp]. cbn [fst] in He. subst key.
  unfold runFullSimulation, simulatedFor, sampleLog. rewrite Hrun. cbn [bind].
  exists {| results := st_results st; centralDistribution := st_central st;
            detailedPaths := st_detailed st |}, tp.
  split; [reflexivity|]. split; [|split].
  - unfold columnOf, getDetailedColumnIndex.
    do 4 (destruct o as [|o]; [cbn [nth]; cbv zeta; split_eqb; lia|]). lia.
  - rewrite Hlog. apply in_or_app. right. left. reflexivity.
  - cbn [detailedPaths]. rewrite Hd, Hlog.
    change (Some (Some tp))
      with (Some (Some (snd ((2, 2, 3 + 8 * b + o)%nat, tp)))).
    apply detailedFrom_last.
    + cbn [fst]. unfold columnOf, getDetailedColumnIndex.
      cbn [Z.of_nat Z.eqb Pos.of_succ_nat Pos.succ Pos.eqb andb]. reflexivity.
    + apply Forall_forall. intros [[[i j] tIdx] tp'] Hin. cbn [fst].
      assert (Hk : In (i, j, tIdx) after).
      { rewrite <- Hla. apply in_map_iff. now exists ((i, j, tIdx), tp'). }
      specialize (Hafter _ _ _ Hk).
      assert (Hr : In (i, j, tIdx) (scenarioTriples (length (maturities p)))).
      { rewrite Hsplit. apply in_or_app. right. right. exact Hk. }
      apply in_scenarioTriples in Hr.
      unfold columnOf, getDetailedColumnIndex. cbv zeta. split_eqb; lia.
Qed.

End ManyMaturities.

(** ** Rejection loops of the Gaussian sampler *)

Section SamplerLoops.
Context {num : Type} `{Number num} `{RandomSource num}.
Local Open Scope js_scope.

Lemma drawUntilNonZero_first (k : nat) :
  forall (retries : nat) (g : rng),
    (k <= retries)%nat ->
    (forall j, (j < k)%nat -> (drawAt j g === of_Z 0) = true) ->
    (drawAt k g === of_Z 0) = false ->
    drawUntilNonZero retries g = (drawAt k g, rngAfter (S k) g).
Proof.
  induction k as [|k IH]; intros retries g Hk Hzero Hnz.
  - unfold drawAt in Hnz. cbn [rngAfter] in *.
    destruct retries as [|retries]; cbn [drawUntilNonZero];
      unfold drawAt; cbn [rngAfter];
      destruct (Math_random g) as [u g'] eqn:Eg; cbn [fst snd] in *;
      [reflexivity|].
    rewrite Hnz. reflexivity.
  - destruct retries as [|retries]; [lia|].
    cbn [drawUntilNonZero].
    pose proof (Hzero 0%nat ltac:(lia)) as Hz0. unfold drawAt in Hz0.
    cbn [rngAfter] in Hz0.
    destruct (Math_random g) as [u g'] eqn:Eg. cbn [fst] in Hz0.
    rewrite Hz0.
    rewrite (IH retries g'); [| lia | |].
    + unfold drawAt. cbn [rngAfter]. rewrite Eg. reflexivity.
    + intros j Hj. specialize (Hzero (S j) ltac:(lia)).
      unfold drawAt in *. cbn [rngAfter] in Hzero. rewrite Eg in Hzero.
      exact Hzero.
    + unfold drawAt in *. cbn [rngAfter] in Hnz. rewrite Eg in Hnz.
      exact Hnz.
Qed.

(** X12: gaussianRandom discards the draws equal to 0 that precede the
    first other draw, for u and again for v, and applies the Box-Muller
    formula to those two draws; the generator is left just after the
    draw used for v.  Here the first k draws are 0 and draw k is not,
    and after it the next l draws are 0 and the following one is not. *)
Theorem X12_gaussian_skips_zero_draws (g : rng) (k l : nat) :
  (k <= zeroRun g)%nat ->
  (forall j, (j < k)%nat -> (drawAt j g === of_Z 0) = true) ->
  (drawAt k g === of_Z 0) = false ->
  (l <= zeroRun (rngAfter (S k) g))%nat ->
  (forall j, (j < l)%nat ->
     (drawAt j (rngAfter (S k) g) === of_Z 0) = true) ->
  (drawAt l (rngAfter (S k) g) === of_Z 0) = false ->
  gaussianRandom g
  = (Math_sqrt (of_Z (-2) * Math_log (drawAt k g))
     * Math_cos (of_Z 2 * Math_PI * drawAt l (rngAfter (S k) g)),
     rngAfter (S l) (rngAfter (S k) g)).
Proof.
  intros Hk Hzk Hnk Hl Hzl Hnl. unfold gaussianRandom.
  rewrite (@drawUntilNonZero_first k _ g Hk Hzk Hnk).
  rewrite (@drawUntilNonZero_first l _ _ Hl Hzl Hnl).
  reflexivity.
Qed.

End SamplerLoops.

(* X12 on a generator whose first two draws are 0: the third draw is u
   and the fourth is v. *)
Lemma X12_gaussian_skips_zero_draws_witness :
  @gaussianRandom R RNumber zeroFirstSource 0%nat
  = ((sqrt (-2 * ln (1 / 2)) * cos (2 * PI * (1 / 2)))%R, 4%nat).
Proof.
  apply (@X12_gaussian_skips_zero_draws R RNumber zeroFirstSource
           0%nat 2%nat 0%nat).
  - cbn. lia.
  - intros j Hj. destruct j as [|[|j]]; [| |lia]; apply R_strict_eq_refl.
  - cbn. destruct (Req_dec_T _ _) as [Heq|_]; [lra | reflexivity].
  - cbn. lia.
  - intros j Hj. lia.
  - cbn. destruct (Req_dec_T _ _) as [Heq|_]; [lra | reflexivity].
Defined.

(** ** Prices of the result rows (exact arithmetic) *)

Section RowPrices.
Context `{RandomSource R}.
Local Open Scope R_scope.

Lemma strikePrice_formula (df : R) (sample : list R) (N : Z) (K : R) :
  Z.to_nat N = length sample ->
  (1 <= N)%Z ->
  strikePrice df sample N K = df * (payoffSum sample K / IZR N).
Proof.
  intros Hlen HN. unfold strikePrice.
  replace N with (Z.of_nat (length sample)) at 1 by lia.
  rewrite sumPayoffs_payoffSum. reflexivity.
Qed.

Lemma payoffSum_repeat (S K : R) (n : nat) :
  payoffSum (repeat S n) K = INR n * Rmax (S - K) 0.
Proof.
  unfold payoffSum. induction n as [|n IH].
  - cbn. ring.
  - cbn [repeat fold_right]. rewrite IH, S_INR. ring.
Qed.


Lemma in_results_of_run (p : SimulationParams R) (g : rng) :
  (1 <= nPaths p)%Z ->
  exists res : SimulationResult R,
    runFullSimulation p g = Returned res /\
    results res
    = flat_map (rowsOfEntry p (spotAxis p) (volAxis p)) (sampleLog p g) /\
    map fst (sampleLog p g) = scenarioTriples (length (maturities p)) /\
    Forall (fun e => length (snd e) = Z.to_nat (nPaths p)) (sampleLog p g).
Proof.
  intros Hn. assert (Hn0 : (0 <= nPaths p)%Z) by lia.
  destruct (runLoops_returned p Hn0 g) as (st & Hrun & Hkeys & Hs & Hr & _).
  unfold runFullSimulation, sampleLog. rewrite Hrun. cbn [bind].
  eexists. split; [reflexivity|]. cbn [results].
  split; [exact Hr|]. split; [exact Hkeys|].
  eapply Forall_impl; [|exact Hs]. intros e He.
  now apply isSampleOf_length in He.
Qed.



Lemma zero_maturities_run (p : SimulationParams R)
    (g : rng) :
  (1 <= nPaths p)%Z ->
  Forall (fun m => m = 0) (maturities p) ->
  exists res : SimulationResult R,
    runFullSimulation p g = Returned res /\
    Forall (fun row => SRow.price row = Rmax (SRow.s0 row - SRow.k row) 0)
           (results res) /\
    (maturities p <> [] ->
     centralDistribution res = repeat (s0 p) (Z.to_nat (nPaths p))).
Proof.
  intros Hn Hzero. assert (Hn0 : (0 <= nPaths p)%Z) by lia.
  assert (Hmat : forall tIdx, nth tIdx (maturities p) 0 = 0).
  { intros tIdx. destruct (Nat.lt_ge_cases tIdx (length (maturities p))).
    - rewrite Forall_forall in Hzero. apply Hzero, nth_In. assumption.
    - now apply nth_overflow. }
  assert (Hsample : forall e,
             isSampleOf p (spotAxis p) (volAxis p) e ->
             snd e = repeat (nth (fst (fst (fst e))) (spotAxis p) 0)
                            (Z.to_nat (nPaths p))).
  { intros [[[i j] tIdx] tp] (g' & Hg'). cbn [fst snd] in *.
    rewrite Hg'. cbn [of_Z RNumber]. rewrite Hmat.
    apply drawPrices_constant. intros z.
    apply terminalPrice_zero_maturity. }
  destruct (runLoops_returned p Hn0 g)
    as (st & Hrun & Hkeys & Hs & Hr & Hc & _).
  unfold runFullSimulation. rewrite Hrun. cbn [bind].
  eexists. split; [reflexivity|]. cbn [results centralDistribution].
  split.
  - rewrite Hr. apply Forall_forall. intros row Hrow.
    apply in_flat_map in Hrow as (e & He & Hrow).
    rewrite Forall_forall in Hs. specialize (Hs e He).
    pose proof (Hsample e Hs) as Htp.
    pose proof Hs as Hlen. apply isSampleOf_length in Hlen.
    destruct e as [[[i j] tIdx] tp]. unfold rowsOfEntry in Hrow.
    cbn [fst snd] in *.
    apply in_map_iff in Hrow as (K & <- & _).
    cbn [SRow.price SRow.s0 SRow.k].
    rewrite strikePrice_formula by lia.
    cbn [Math_exp neg mul div of_Z RNumber]. rewrite Hmat.
    rewrite Htp, payoffSum_repeat.
    rewrite INR_IZR_INZ, Z2Nat.id by lia.
    assert (HN : 0 < IZR (nPaths p)) by (apply IZR_lt; lia).
    replace (- (r p / 100) * 0) with 0 by ring. rewrite exp_0.
    field. lra.
  - intros Hne.
    destruct (@central_is_last_match _ _ _ p g (length (maturities p) - 1))
      as (st' & lb & la & tp & Hrun' & Hlog & Hsam & _ & Hcen & _);
      [exact Hn0 | exact Hne | | | |].
    + destruct (maturities p); [contradiction | cbn; lia].
    + rewrite !Hmat. apply R_strict_eq_refl.
    + intros tIdx Ht. lia.
    + rewrite Hrun in Hrun'. injection Hrun' as <-.
      rewrite Hcen. apply Hsample in Hsam. cbn [fst snd] in Hsam.
      rewrite Hsam. reflexivity.
Qed.

(** X15: when every maturity is 0, each result row is priced at its
    intrinsic value max(S - K, 0), S the spot of the row's scenario,
    and, if a maturity is configured, the central distribution is
    nPaths copies of the pivot spot (exact arithmetic). *)
Theorem X15_zero_maturities_price_intrinsic (p : SimulationParams R)
    (g : rng) :
  (1 <= nPaths p)%Z ->
  Forall (fun m => m = 0) (maturities p) ->
  exists res : SimulationResult R,
    runFullSimulation p g = Returned res /\
    Forall (fun row => SRow.price row = Rmax (SRow.s0 row - SRow.k row) 0)
           (results res) /\
    (maturities p <> [] ->
     centralDistribution res = repeat (s0 p) (Z.to_nat (nPaths p))).
Proof. apply zero_maturities_run. Qed.

End RowPrices.


(** ** Pricing sheet of the export *)

Section PricingSheetCells.
Context `{RandomSource R}.
Local Open Scope R_scope.

Lemma within_same (x tol : R) : 0 < tol -> within x (Some x) tol = true.
Proof.
  intros Htol. unfold within.
  replace (x - x) with 0 by ring. rewrite Rabs_R0.
  destruct (Rlt_dec 0 tol); [reflexivity | contradiction].
Qed.

Lemma within_nth (l : list R) (a b : nat) (tol : R) :
  separatedBy tol l ->
  (a < length l)%nat ->
  within (nth a l 0) (nth_error l b) tol = true ->
  a = b.
Proof.
  intros Hsep Ha Hw. unfold within in Hw.
  destruct (nth_error l b) as [y|] eqn:Eb; [|discriminate].
  assert (Hb : (b < length l)%nat) by (apply nth_error_Some; congruence).
  apply (nth_error_nth l b 0) in Eb. subst y.
  destruct (Rlt_dec _ _) as [Hlt|_]; [|discriminate].
  now apply Hsep.
Qed.

Lemma find_exists {A : Type} (f : A -> bool) (l : list A) (x : A) :
  In x l -> f x = true -> exists y, find f l = Some y.
Proof.
  intros Hin Hfx. destruct (find f l) as [y|] eqn:E; [now exists y|].
  pose proof (find_none f l E x Hin). congruence.
Qed.

(** X16: on valid parameters whose spot axis, volatility axis,
    maturities and strikes each hold values further apart than the
    tolerances of the lookup (0.001; 0.0001 for volatilities), the
    pricing sheet of the export has one row per strike below its four
    header rows, and the cell of a strike in a column of the table is
    the price computed from the sample simulated for the scenario that
    column names, discounted at that scenario's maturity; in the
    columns of a maturity that is not configured the cell is 0 (exact
    arithmetic). *)
Theorem X16_pricing_sheet_cells (p : SimulationParams R) (g : rng)
    (c kIdx : nat) (key : nat * nat * nat) (strike : R) :
  validParams p ->
  separatedBy 0.001 (spotAxis p) ->
  separatedBy 0.0001 (volAxis p) ->
  separatedBy 0.001 (maturities p) ->
  separatedBy 0.001 (strikes p) ->
  nth_error exportColDefs c = Some key ->
  nth_error (strikes p) kIdx = Some strike ->
  exists res : SimulationResult R,
    runFullSimulation p g = Returned res /\
    length (sheet1Data p res) = (4 + length (strikes p))%nat /\
    (exists row,
        nth_error (sheet1Data p res) (4 + kIdx) = Some row /\
        nth_error row 0 = Some (CellNum strike) /\
        nth_error row (S c) = Some (CellNum (pricingCell p res strike key))) /\
    ((snd key < length (maturities p))%nat ->
     exists tp : list R,
       simulatedFor p g key tp /\
       pricingCell p res strike key
       = strikePrice
           (exp (- (r p / 100) * nth (snd key) (maturities p) 0))
           tp (nPaths p) strike) /\
    ((length (maturities p) <= snd key)%nat ->
     pricingCell p res strike key = 0).
Proof.
  intros Hvalid Hsp Hvo Hma Hst Hkey Hstrike.
  destruct Hvalid as (Hn & _).
  destruct (in_results_of_run p g Hn) as (res & Hrun & Hres & Hkeys & _).
  exists res. split; [exact Hrun|].
  split; [unfold sheet1Data; rewrite length_app, length_map; reflexivity|].
  split.
  { eexists. split.
    - unfold sheet1Data.
      rewrite nth_error_app2 by (cbn [length]; lia).
      cbn [length].
      replace (4 + kIdx - 4)%nat with kIdx by lia.
      rewrite nth_error_map, Hstrike. reflexivity.
    - split; [reflexivity|]. cbn [nth_error].
      rewrite nth_error_map, Hkey. reflexivity. }
  assert (Hkin : (kIdx < length (strikes p))%nat)
    by (apply nth_error_Some; congruence).
  pose proof (nth_error_nth _ _ 0 Hstrike) as Hk.
  destruct key as [[i j] t]. cbn [snd].
  assert (Hij : (i < 5 /\ j < 5)%nat).
  { pose proof (table_entry_is_mapped _ Hkey) as (Hc & _).
    do 27 (destruct c as [|c];
           [cbn in Hkey; injection Hkey as <- <- <-; lia|]).
    lia. }
  set (pred := rowMatches (nth_error (spotAxis p) i) (nth_error (volAxis p) j)
                          (nth_error (maturities p) t) strike).
  change (pricingCell p res strike (i, j, t))
    with (match find pred (results res) with
          | Some m => SRow.price m
          | None => 0
          end).
  split.
  - intros Ht.
    assert (Hin : In (i, j, t) (scenarioTriples (length (maturities p))))
      by (apply in_scenarioTriples; lia).
    rewrite <- Hkeys in Hin. apply in_map_iff in Hin as (e0 & He0 & Hin0).
    destruct e0 as [key0 tp0]. cbn [fst] in He0. subst key0.
    set (row0 := {| SRow.s0 := nth i (spotAxis p) 0;
                    SRow.vol := nth j (volAxis p) 0;
                    SRow.t := nth t (maturities p) 0;
                    SRow.k := strike;
                    SRow.price :=
                      strikePrice
                        (Math_exp (neg (div (r p) (of_Z 100))
                                   * nth t (maturities p) 0))
                        tp0 (nPaths p) strike;
                    SRow.stdErr := 0 |}).
    assert (Hrow0 : In row0 (results res)).
    { rewrite Hres. apply in_flat_map. exists ((i, j, t)%nat, tp0).
      split; [exact Hin0|]. unfold rowsOfEntry. cbn [fst snd].
      apply in_map_iff. exists strike. split; [reflexivity|].
      eapply nth_error_In. exact Hstrike. }
    assert (Hp0 : pred row0 = true).
    { unfold pred, rowMatches, row0. cbn [SRow.s0 SRow.vol SRow.t SRow.k].
      rewrite (nth_error_nth' (spotAxis p) 0) by (cbn; lia).
      rewrite (nth_error_nth' (volAxis p) 0) by (cbn; lia).
      rewrite (nth_error_nth' (maturities p) 0) by exact Ht.
      rewrite !within_same by lra. reflexivity. }
    destruct (find_exists pred _ _ Hrow0 Hp0) as (m & Hfind).
    rewrite Hfind.
    apply find_some in Hfind as (Hm & Hpm).
    rewrite Hres in Hm. apply in_flat_map in Hm as (e & He & Hm).
    assert (Hek : In (fst e) (scenarioTriples (length (maturities p))))
      by (rewrite <- Hkeys; now apply in_map).
    destruct e as [[[i' j'] t'] tp]. cbn [fst] in Hek.
    apply in_scenarioTriples in Hek.
    unfold rowsOfEntry in Hm. cbn [fst snd] in Hm.
    apply in_map_iff in Hm as (K & <- & HK).
    unfold pred, rowMatches in Hpm. cbn [SRow.s0 SRow.vol SRow.t SRow.k] in Hpm.
    apply andb_prop in Hpm as (Hpm & Hwk).
    apply andb_prop in Hpm as (Hpm & Hwt).
    apply andb_prop in Hpm as (Hws & Hwv).
    apply within_nth in Hws; [|exact Hsp | cbn; lia].
    apply within_nth in Hwv; [|exact Hvo | cbn; lia].
    apply within_nth in Hwt; [|exact Hma | lia].
    subst i' j' t'.
    apply In_nth with (d := 0) in HK as (kIdx' & HkIdx' & HK).
    rewrite <- HK, <- Hstrike in Hwk.
    apply within_nth in Hwk; [|exact Hst | exact HkIdx'].
    subst kIdx'. rewrite Hk in HK. subst K.
    exists tp. split.
    + unfold simulatedFor. exact He.
    + reflexivity.
  - intros Ht.
    assert (Enone : nth_error (maturities p) t = None)
      by (apply nth_error_None; exact Ht).
    destruct (find pred (results res)) as [m|] eqn:Hfind; [|reflexivity].
    apply find_some in Hfind as (_ & Hpm).
    unfold pred, rowMatches in Hpm. rewrite Enone in Hpm.
    cbn [within] in Hpm. rewrite andb_false_r in Hpm. discriminate.
Qed.

End PricingSheetCells.

(** ** Histogram of the distribution chart *)

Section HistogramProperties.
Local Open Scope R_scope.

Lemma Int_part_unique (x : R) (k : Z) :
  IZR k <= x < IZR k + 1 -> Int_part x = k.
Proof.
  intros (Hlo & Hhi). destruct (base_Int_part x) as (H1 & H2).
  assert (Ha : (Int_part x < k + 1)%Z)
    by (apply lt_IZR; rewrite plus_IZR; lra).
  assert (Hb : (k < Int_part x + 1)%Z)
    by (apply lt_IZR; rewrite plus_IZR; lra).
  lia.
Qed.

Lemma scanRange_from (l seen : list R) (mn mx : R) :
  rangeOf seen mn mx ->
  exists mn' mx',
    fold_left
      (fun (acc : option R * option R) (val : R) =>
         let (min, max) := acc in
         (if belowMin val min then Some val else min,
          if aboveMax val max then Some val else max))
      l (Some mn, Some mx) = (Some mn', Some mx') /\
    rangeOf (seen ++ l) mn' mx'.
Proof.
  revert seen mn mx. induction l as [|x l IH]; intros seen mn mx Hr.
  - exists mn, mx. rewrite app_nil_r. split; [reflexivity | exact Hr].
  - cbn [fold_left]. destruct Hr as (Hmn & Hmx & Hall).
    replace (seen ++ x :: l) with ((seen ++ [x]) ++ l)
      by (rewrite <- app_assoc; reflexivity).
    unfold belowMin, aboveMax.
    assert (Hmm : mn <= mx) by (apply (Hall mn Hmn)).
    destruct (Rlt_dec x mn) as [Hlt|Hge];
      destruct (Rgt_dec x mx) as [Hgt|Hle];
      apply IH;
      (split; [|split]);
      try (apply in_or_app; first [left; assumption | right; now left]);
      intros v Hv; apply in_app_or in Hv as [Hv|[<-|[]]];
      try (specialize (Hall v Hv)); lra.
Qed.

Lemma scanRange_range (data : list R) :
  data <> [] ->
  exists mn mx, scanRange data = (Some mn, Some mx) /\ rangeOf data mn mx.
Proof.
  destruct data as [|x l]; [contradiction|]. intros _.
  unfold scanRange. cbn [fold_left belowMin aboveMax].
  apply (@scanRange_from l [x] x x).
  split; [now left|]. split; [now left|].
  intros v [<-|[]]. lra.
Qed.

Lemma rangeOf_unique (data : list R) (mn mx mn' mx' : R) :
  rangeOf data mn mx -> rangeOf data mn' mx' -> mn = mn' /\ mx = mx'.
Proof.
  intros (H1 & H2 & H3) (H1' & H2' & H3').
  pose proof (H3 mn' H1'). pose proof (H3 mx' H2').
  pose proof (H3' mn H1). pose proof (H3' mx H2). lra.
Qed.

Lemma bumpCount_length (bins : list Bin.t) (index : nat) :
  length (bumpCount bins index) = length bins.
Proof.
  revert index. induction bins as [|b bins IH]; intros [|index];
    cbn [bumpCount length]; try reflexivity. now rewrite IH.
Qed.


Lemma bumpCount_sum (bins : list Bin.t) (index : nat) :
  list_sum (map Bin.count (bumpCount bins index))
  = (list_sum (map Bin.count bins)
     + (if (index <? length bins)%nat then 1 else 0))%nat.
Proof.
  revert index. induction bins as [|b bins IH]; intros [|index];
    cbn [bumpCount map list_sum fold_right length Bin.count];
    try reflexivity.
  - change (0 <? S (length bins))%nat with true. cbv iota. lia.
  - change (fold_right Nat.add 0%nat (map Bin.count (bumpCount bins index)))
      with (list_sum (map Bin.count (bumpCount bins index))).
    rewrite IH. change (S index <? S (length bins))%nat
      with (index <? length bins)%nat. unfold list_sum.
    destruct (index <? length bins)%nat; lia.
Qed.

Lemma bumpCount_nth (bins : list Bin.t) (index i : nat) (bin : Bin.t) :
  nth_error bins i = Some bin ->
  nth_error (bumpCount bins index) i
  = Some {| Bin.rangeStart := Bin.rangeStart bin;
            Bin.rangeEnd := Bin.rangeEnd bin;
            Bin.mid := Bin.mid bin;
            Bin.name := Bin.name bin;
            Bin.count := (Bin.count bin
                          + (if (index =? i)%nat then 1 else 0))%nat |}.
Proof.
  revert index i. induction bins as [|b bins IH]; intros index i Hi.
  - destruct i; discriminate.
  - destruct index as [|index], i as [|i]; cbn [bumpCount nth_error] in *.
    + injection Hi as <-. cbn [Nat.eqb]. now rewrite Nat.add_1_r.
    + rewrite Hi. cbn [Nat.eqb]. destruct bin. cbn.
      now rewrite Nat.add_0_r.
    + injection Hi as <-. cbn [Nat.eqb]. destruct b. cbn.
      now rewrite Nat.add_0_r.
    + rewrite (IH index i Hi). reflexivity.
Qed.

Lemma fold_bumpCount_length (idx : R -> nat) (data : list R) :
  forall bins : list Bin.t,
    length (fold_left (fun bins val => bumpCount bins (idx val)) data bins)
    = length bins.
Proof.
  induction data as [|v data IH]; intros bins; cbn [fold_left];
    [reflexivity|]. now rewrite IH, bumpCount_length.
Qed.

Lemma fold_bumpCount_sum (idx : R -> nat) (data : list R) :
  forall bins : list Bin.t,
    list_sum
      (map Bin.count
           (fold_left (fun bins val => bumpCount bins (idx val)) data bins))
    = (list_sum (map Bin.count bins)
       + length (filter (fun v => (idx v <? length bins)%nat) data))%nat.
Proof.
  induction data as [|v data IH]; intros bins; cbn [fold_left filter];
    [cbn; lia|].
  rewrite IH, bumpCount_sum, bumpCount_length.
  destruct (idx v <? length bins)%nat; cbn [length]; lia.
Qed.

Lemma fold_bumpCount_nth (idx : R -> nat) (data : list R) (i : nat) :
  forall (bins : list Bin.t) (bin : Bin.t),
    nth_error bins i = Some bin ->
    nth_error (fold_left (fun bins val => bumpCount bins (idx val)) data bins)
              i
    = Some {| Bin.rangeStart := Bin.rangeStart bin;
              Bin.rangeEnd := Bin.rangeEnd bin;
              Bin.mid := Bin.mid bin;
              Bin.name := Bin.name bin;
              Bin.count :=
                (Bin.count bin
                 + length (filter (fun v => (idx v =? i)%nat) data))%nat |}.
Proof.
  induction data as [|v data IH]; intros bins bin Hi; cbn [fold_left filter].
  - rewrite Hi. destruct bin. cbn. now rewrite Nat.add_0_r.
  - rewrite (IH _ _ (bumpCount_nth bins (idx v) i Hi)).
    cbn [Bin.rangeStart Bin.rangeEnd Bin.mid Bin.name Bin.count].
    destruct (idx v =? i)%nat; cbn [length];
      [now rewrite Nat.add_1_r, Nat.add_succ_r | now rewrite Nat.add_0_r].
Qed.

Lemma binIndex_range (mn step : R) (n : nat) (v : R) :
  (1 <= n)%nat ->
  (0 <= binIndex mn step n v < Z.of_nat n)%Z.
Proof.
  intros Hn. unfold binIndex.
  destruct (Z.geb_spec (Int_part ((v - mn) / step)) (Z.of_nat n));
    match goal with
    | |- context [(?a <? 0)%Z] => destruct (Z.ltb_spec a 0)
    end; lia.
Qed.

Lemma binIndex_in_bin (mn mx : R) (n i : nat) (v : R) :
  mn < mx -> (1 <= n)%nat -> mn <= v <= mx -> (i < n)%nat ->
  let step := (mx - mn) / INR n in
  (Z.to_nat (binIndex mn step n v) =? i)%nat
  = (if Rle_dec (mn + INR i * step) v then true else false)
    && ((if Rlt_dec v (mn + (INR i + 1) * step) then true else false)
        || ((i =? n - 1)%nat
            && (if Rle_dec v (mn + (INR i + 1) * step) then true else false))).
Proof.
  intros Hlt Hn Hv Hi step.
  assert (HnR : 1 <= INR n) by (change 1 with (INR 1); now apply le_INR).
  assert (Hstep : 0 < step)
    by (unfold step; apply Rdiv_lt_0_compat; lra).
  assert (Hspan : INR n * step = mx - mn) by (unfold step; field; lra).
  set (x := (v - mn) / step).
  assert (Hx : v = mn + x * step) by (unfold x; field; lra).
  assert (Hx0 : 0 <= x).
  { unfold x, Rdiv. apply Rmult_le_pos; [lra|].
    left. now apply Rinv_0_lt_compat. }
  assert (HxN : x <= INR n).
  { apply Rmult_le_reg_r with step; [exact Hstep|]. lra. }
  unfold binIndex. fold x.
  destruct (base_Int_part x) as (Hk1 & Hk2).
  set (k := Int_part x) in *.
  assert (Hk0 : (0 <= k)%Z).
  { assert (Hgt : (-1 < k)%Z) by (apply lt_IZR; lra). lia. }
  assert (HkN : (k <= Z.of_nat n)%Z).
  { apply le_IZR. rewrite <- INR_IZR_INZ. lra. }
  assert (Hi1 : INR i + 1 <= INR n).
  { rewrite <- S_INR. apply le_INR. lia. }
  assert (Hcmp_le : forall a : R, iff (mn + a * step <= v) (a <= x)).
  { intros a. rewrite Hx. split; intros Ha; nra. }
  assert (Hcmp_lt : forall a : R, iff (v < mn + a * step) (x < a)).
  { intros a. rewrite Hx. split; intros Ha; nra. }
  pose proof (Hcmp_le (INR i)) as Hle_i.
  pose proof (Hcmp_le (INR i + 1)) as Hle_s.
  pose proof (Hcmp_lt (INR i + 1)) as Hlt_s.
  assert (Hge_s : iff (v <= mn + (INR i + 1) * step) (x <= INR i + 1)).
  { rewrite Hx. split; intros Ha; nra. }
  assert (HiZ : INR i = IZR (Z.of_nat i)) by apply INR_IZR_INZ.
  assert (Hreal : forall a b : Z, (a <= b)%Z -> IZR a <= IZR b)
    by (intros a b; apply IZR_le).
  destruct (Z.geb_spec k (Z.of_nat n)) as [Hge|Hlt'].
  - assert (Hkn : k = Z.of_nat n) by lia.
    assert (HxN' : x = INR n).
    { rewrite INR_IZR_INZ, <- Hkn. rewrite INR_IZR_INZ, <- Hkn in HxN. lra. }
    destruct (Z.ltb_spec (Z.of_nat n - 1) 0) as [Hneg|_]; [lia|].
    replace (Z.to_nat (Z.of_nat n - 1)) with (n - 1)%nat by lia.
    destruct (Nat.eqb_spec (n - 1) i) as [Heq|Hne].
    + assert (Hin : INR i + 1 = INR n).
      { rewrite <- S_INR. f_equal. lia. }
      destruct (Rle_dec (mn + INR i * step) v) as [_|Hc];
        [|exfalso; apply Hc, Hle_i; lra].
      destruct (Rlt_dec v (mn + (INR i + 1) * step)) as [Hc|_];
        [apply Hlt_s in Hc; lra|].
      destruct (Nat.eqb_spec i (n - 1)) as [_|Hc]; [|lia].
      destruct (Rle_dec v (mn + (INR i + 1) * step)) as [_|Hc];
        [reflexivity | exfalso; apply Hc, Hge_s; lra].
    + assert (Hin : INR i + 1 + 1 <= INR n).
      { rewrite <- !S_INR. apply le_INR. lia. }
      destruct (Rle_dec (mn + INR i * step) v) as [_|_]; cbn [andb];
        [|reflexivity].
      destruct (Rlt_dec v (mn + (INR i + 1) * step)) as [Hc|_];
        [apply Hlt_s in Hc; lra|].
      destruct (Nat.eqb_spec i (n - 1)) as [Hc|_]; [lia | reflexivity].
  - destruct (Z.ltb_spec k 0) as [Hneg|_]; [lia|].
    destruct (Nat.eqb_spec (Z.to_nat k) i) as [Heq|Hne].
    + assert (Hki : IZR k = INR i).
      { rewrite HiZ. f_equal. lia. }
      destruct (Rle_dec (mn + INR i * step) v) as [_|Hc];
        [|exfalso; apply Hc, Hle_i; lra].
      destruct (Rlt_dec v (mn + (INR i + 1) * step)) as [_|Hc];
        [reflexivity | exfalso; apply Hc, Hlt_s; lra].
    + destruct (Z.lt_trichotomy k (Z.of_nat i)) as [Hki|[Hki|Hki]].
      * assert (HkiR : IZR k + 1 <= INR i).
        { rewrite HiZ, <- plus_IZR. apply IZR_le. lia. }
        destruct (Rle_dec (mn + INR i * step) v) as [Hc|_];
          [apply Hle_i in Hc; lra | reflexivity].
      * lia.
      * assert (HkiR : INR i + 1 <= IZR k).
        { rewrite HiZ, <- plus_IZR. apply IZR_le. lia. }
        destruct (Rle_dec (mn + INR i * step) v) as [_|_]; cbn [andb];
          [|reflexivity].
        destruct (Rlt_dec v (mn + (INR i + 1) * step)) as [Hc|_];
          [apply Hlt_s in Hc; lra|].
        destruct (Nat.eqb_spec i (n - 1)) as [Hc|_]; [lia | reflexivity].
Qed.

Lemma chartData_spread (data : list R) (binCount : nat) (mn mx : R) :
  rangeOf data mn mx ->
  mn < mx ->
  (1 <= binCount)%nat ->
  let step := (mx - mn) / INR binCount in
  let bins := chartData data binCount in
  length bins = binCount /\
  mn + INR binCount * step = mx /\
  list_sum (map Bin.count bins) = length data /\
  forall i : nat,
    (i < binCount)%nat ->
    nth_error bins i
    = Some {| Bin.rangeStart := mn + INR i * step;
              Bin.rangeEnd := mn + (INR i + 1) * step;
              Bin.mid := mn + (INR i * step) + (step / 2);
              Bin.name := NameNumber (mn + (INR i * step) + (step / 2));
              Bin.count :=
                countBetween (mn + INR i * step) (mn + (INR i + 1) * step)
                             (i =? binCount - 1)%nat data |}.
Proof.
  intros Hrange Hlt Hn step bins.
  assert (Hne : data <> []).
  { destruct Hrange as (Hin & _). intros ->. contradiction. }
  destruct (scanRange_range Hne) as (mn' & mx' & Hscan & Hrange').
  destruct (rangeOf_unique Hrange' Hrange) as (-> & ->).
  assert (HnR : 1 <= INR binCount)
    by (change 1 with (INR 1); now apply le_INR).
  assert (Hbins : bins
            = fold_left
                (fun bins val =>
                   bumpCount bins
                     (Z.to_nat (binIndex mn step binCount val)))
                data
                (map (fun i : nat =>
                        {| Bin.rangeStart := mn + INR i * step;
                           Bin.rangeEnd := mn + (INR i + 1) * step;
                           Bin.mid := mn + (INR i * step) + (step / 2);
                           Bin.name :=
                             NameNumber (mn + (INR i * step) + (step / 2));
                           Bin.count := 0 |})
                     (seq 0 binCount))).
  { unfold bins, chartData. destruct data as [|x l]; [contradiction|].
    rewrite Hscan. destruct (Req_dec_T mn mx) as [Heq|_]; [lra|].
    reflexivity. }
  rewrite Hbins. clear Hbins bins.
  split; [now rewrite fold_bumpCount_length, length_map, length_seq|].
  split; [unfold step; field; lra|].
  split.
  - rewrite fold_bumpCount_sum, length_map, length_seq.
    replace (list_sum _) with 0%nat.
    + cbn [Nat.add]. f_equal. apply forallb_filter_id.
      apply forallb_forall. intros v _. apply Nat.ltb_lt.
      pose proof (binIndex_range mn step v Hn). lia.
    + rewrite map_map. cbn [Bin.count]. symmetry.
      generalize (seq 0 binCount). intros l.
      induction l as [|a l IH]; [reflexivity | exact IH].
  - intros i Hi.
    erewrite fold_bumpCount_nth;
      [|rewrite nth_error_map, nth_error_seq;
        destruct (Nat.ltb_spec i binCount) as [_|Hc]; [reflexivity | lia]].
    cbn [Bin.rangeStart Bin.rangeEnd Bin.mid Bin.name Bin.count option_map
         Nat.add].
    do 2 f_equal. unfold countBetween. f_equal.
    apply filter_ext_in. intros v Hv.
    apply binIndex_in_bin; try assumption.
    now apply Hrange.
Qed.

(** X17: for data with least value mn below greatest value mx and a bin
    count n >= 1, the histogram has n bins of equal width (mx - mn) / n
    that tile [mn, mx] in order; bin i counts the values v with
    rangeStart <= v < rangeEnd, the last bin also those equal to its
    end mx; and the counts add up to the number of values (exact
    arithmetic). *)
Theorem X17_histogram_bins (data : list R) (binCount : nat) (mn mx : R) :
  rangeOf data mn mx ->
  mn < mx ->
  (1 <= binCount)%nat ->
  let step := (mx - mn) / INR binCount in
  let bins := chartData data binCount in
  length bins = binCount /\
  mn + INR binCount * step = mx /\
  list_sum (map Bin.count bins) = length data /\
  forall i : nat,
    (i < binCount)%nat ->
    nth_error bins i
    = Some {| Bin.rangeStart := mn + INR i * step;
              Bin.rangeEnd := mn + (INR i + 1) * step;
              Bin.mid := mn + (INR i * step) + (step / 2);
              Bin.name := NameNumber (mn + (INR i * step) + (step / 2));
              Bin.count :=
                countBetween (mn + INR i * step) (mn + (INR i + 1) * step)
                             (i =? binCount - 1)%nat data |}.
Proof. apply chartData_spread. Qed.

Lemma chartData_single_value (data : list R) (binCount : nat)
    (x : R) :
  data <> [] ->
  Forall (fun v => v = x) data ->
  chartData data binCount
  = [ {| Bin.rangeStart := x;
         Bin.rangeEnd := x;
         Bin.mid := x;
         Bin.name := NameToFixed0 x;
         Bin.count := length data |} ].
Proof.
  intros Hne Hall.
  destruct (scanRange_range Hne) as (mn & mx & Hscan & Hmn & Hmx & _).
  rewrite Forall_forall in Hall.
  apply Hall in Hmn, Hmx. subst mn mx.
  unfold chartData. destruct data as [|v l]; [contradiction|].
  rewrite Hscan. destruct (Req_dec_T x x) as [_|Hc]; [reflexivity|].
  contradiction.
Qed.

(** X18: for data that are all the same value x, the histogram is the
    single bin [x, x] holding every value, whatever the bin count. *)
Theorem X18_histogram_single_value (data : list R) (binCount : nat)
    (x : R) :
  data <> [] ->
  Forall (fun v => v = x) data ->
  chartData data binCount
  = [ {| Bin.rangeStart := x;
         Bin.rangeEnd := x;
         Bin.mid := x;
         Bin.name := NameToFixed0 x;
         Bin.count := length data |} ].
Proof. apply chartData_single_value. Qed.

(** X19: with a bin count of 0 and data that are not all equal, the
    histogram is empty: no bin is created and no value is counted. *)
Theorem X19_histogram_no_bins (data : list R) (mn mx : R) :
  rangeOf data mn mx ->
  mn < mx ->
  chartData data 0 = [].
Proof.
  intros Hrange Hlt.
  assert (Hne : data <> []).
  { destruct Hrange as (Hin & _). intros ->. contradiction. }
  destruct (scanRange_range Hne) as (mn' & mx' & Hscan & Hrange').
  destruct (rangeOf_unique Hrange' Hrange) as (-> & ->).
  unfold chartData. destruct data as [|x l]; [contradiction|].
  rewrite Hscan. destruct (Req_dec_T mn mx) as [Heq|_]; [lra|].
  cbn [seq map].
  generalize (x :: l). intros data.
  induction data as [|v data IH]; cbn [fold_left bumpCount];
    [reflexivity | exact IH].
Qed.

End HistogramProperties.

(** ** Axes of the result table *)

Section TableAxes.
Context `{RandomSource R}.
Local Open Scope R_scope.

Lemma arrayFromSet_from (xs : list R) :
  forall set : list R,
    NoDup set ->
    let out :=
      fold_left
        (fun set x => if in_dec Req_dec_T x set then set else set ++ [x])
        xs set in
    NoDup out /\ forall x, In x out <-> In x set \/ In x xs.
Proof.
  induction xs as [|a xs IH]; intros set Hset; cbn [fold_left].
  - split; [exact Hset|]. intros x. cbn [In]. tauto.
  - destruct (in_dec Req_dec_T a set) as [Hin|Hnin].
    + destruct (IH set Hset) as (Hnd & Hmem). split; [exact Hnd|].
      intros x. rewrite Hmem. cbn [In]. split; [tauto|].
      intros [Hx|[<-|Hx]]; tauto.
    + assert (Hset' : NoDup (set ++ [a])).
      { apply NoDup_app; [exact Hset | repeat constructor; intros [] |].
        intros x Hx [<-|[]]. contradiction. }
      destruct (IH _ Hset') as (Hnd & Hmem). split; [exact Hnd|].
      intros x. rewrite Hmem, in_app_iff. cbn [In]. tauto.
Qed.

Lemma arrayFromSet_spec (xs : list R) :
  NoDup (arrayFromSet xs) /\ forall x, In x (arrayFromSet xs) <-> In x xs.
Proof.
  destruct (arrayFromSet_from xs (@NoDup_nil R)) as (Hnd & Hmem).
  split; [exact Hnd|]. intros x. unfold arrayFromSet. rewrite Hmem.
  cbn [In]. tauto.
Qed.

Lemma ascending_head (a : R) (l : list R) :
  strictlyAscending (a :: l) ->
  strictlyAscending l /\ forall x, In x l -> a < x.
Proof.
  revert a. induction l as [|b l IH]; intros a Hasc.
  - split; [exact I | intros x []].
  - destruct Hasc as (Hab & Hrest). split; [exact Hrest|].
    destruct (IH b Hrest) as (_ & Hb).
    intros x [<-|Hx]; [exact Hab|]. specialize (Hb x Hx). lra.
Qed.

Lemma ascending_cons (a : R) (l : list R) :
  strictlyAscending l -> (forall x, In x l -> a < x) ->
  strictlyAscending (a :: l).
Proof.
  intros Hasc Hlt. destruct l as [|b l]; [exact I|].
  split; [apply Hlt; now left | exact Hasc].
Qed.

Lemma insertAscending_in (x : R) (l : list R) (y : R) :
  In y (insertAscending x l) <-> y = x \/ In y l.
Proof.
  induction l as [|b l IH]; cbn [insertAscending].
  - cbn [In]. split; [intros [<-|[]]; now left | intros [->|[]]; now left].
  - destruct (Rle_dec x b); cbn [In]; [|rewrite IH]; intuition congruence.
Qed.

Lemma insertAscending_ascending (x : R) (l : list R) :
  strictlyAscending l -> ~ In x l -> strictlyAscending (insertAscending x l).
Proof.
  induction l as [|b l IH]; intros Hasc Hnin; cbn [insertAscending].
  - exact I.
  - destruct (@ascending_head _ _ Hasc) as (Hrest & Hb).
    assert (Hxb : x <> b) by (intros ->; apply Hnin; now left).
    destruct (Rle_dec x b) as [Hle|Hgt].
    + apply ascending_cons; [exact Hasc|].
      intros y [<-|Hy]; [lra|]. specialize (Hb y Hy). lra.
    + apply ascending_cons.
      * apply IH; [exact Hrest|]. intros Hin. apply Hnin. now right.
      * intros y Hy. apply insertAscending_in in Hy as [->|Hy];
          [lra | now apply Hb].
Qed.

Lemma sortAscending_spec (l : list R) :
  NoDup l ->
  strictlyAscending (sortAscending l) /\
  forall x, In x (sortAscending l) <-> In x l.
Proof.
  induction l as [|a l IH]; intros Hnd; cbn [sortAscending fold_right].
  - split; [exact I | tauto].
  - inversion Hnd as [|a' l' Hnin Hnd']; subst.
    destruct (IH Hnd') as (Hasc & Hmem).
    fold (sortAscending l). split.
    + apply insertAscending_ascending; [exact Hasc|]. now rewrite Hmem.
    + intros x. rewrite insertAscending_in, Hmem. cbn [In].
      intuition congruence.
Qed.

Lemma ascending_unique (l l' : list R) :
  strictlyAscending l -> strictlyAscending l' ->
  (forall x, In x l <-> In x l') -> l = l'.
Proof.
  revert l'. induction l as [|a l IH]; intros [|a' l'] Hl Hl' Hmem.
  - reflexivity.
  - exfalso. apply (Hmem a'). now left.
  - exfalso. apply (Hmem a). now left.
  - destruct (@ascending_head _ _ Hl) as (Hrest & Ha).
    destruct (@ascending_head _ _ Hl') as (Hrest' & Ha').
    assert (Heq : a = a').
    { destruct (proj1 (Hmem a) (or_introl eq_refl)) as [E|Hin];
        [now symmetry|].
      destruct (proj2 (Hmem a') (or_introl eq_refl)) as [E|Hin'];
        [exact E|].
      specialize (Ha _ Hin'). specialize (Ha' _ Hin). lra. }
    subst a'. f_equal. apply IH; [exact Hrest | exact Hrest'|].
    intros x. split; intros Hx.
    + destruct (proj1 (Hmem x) (or_intror Hx)) as [E|Hin]; [|exact Hin].
      specialize (Ha _ Hx). lra.
    + destruct (proj2 (Hmem x) (or_intror Hx)) as [E|Hin]; [|exact Hin].
      specialize (Ha' _ Hx). lra.
Qed.

(* Sorting the distinct values of [xs] recovers an ascending list with
   the same values. *)
Lemma sorted_set_is_axis (xs axis : list R) :
  strictlyAscending axis ->
  (forall x, In x xs <-> In x axis) ->
  sortAscending (arrayFromSet xs) = axis.
Proof.
  intros Hasc Hmem.
  destruct (arrayFromSet_spec xs) as (Hnd & Hset).
  destruct (sortAscending_spec Hnd) as (Hsorted & Hsort).
  apply ascending_unique; [exact Hsorted | exact Hasc|].
  intros x. now rewrite Hsort, Hset.
Qed.

Lemma in_crossProduct (p : SimulationParams R) (s v t k : R) :
  In (s, v, t, k) (crossProduct p) <->
  In s (spotAxis p) /\ In v (volAxis p) /\ In t (maturities p)
  /\ In k (strikes p).
Proof.
  unfold crossProduct. rewrite in_flat_map. split.
  - intros (s' & Hs & Hin). apply in_flat_map in Hin as (v' & Hv & Hin).
    apply in_flat_map in Hin as (t' & Ht & Hin).
    apply in_map_iff in Hin as (k' & Heq & Hk).
    injection Heq as <- <- <- <-. tauto.
  - intros (Hs & Hv & Ht & Hk). exists s. split; [exact Hs|].
    apply in_flat_map. exists v. split; [exact Hv|].
    apply in_flat_map. exists t. split; [exact Ht|].
    apply in_map_iff. exists k. split; [reflexivity | exact Hk].
Qed.

Lemma result_axes_values (p : SimulationParams R) (g : rng) :
  validParams p ->
  exists res : SimulationResult R,
    runFullSimulation p g = Returned res /\
    results res <> [] /\
    (forall x, In x (map (@SRow.s0 R) (results res)) <-> In x (spotAxis p)) /\
    (forall x, In x (map (@SRow.vol R) (results res)) <-> In x (volAxis p)).
Proof.
  intros (Hn & Hm & Hk & _).
  destruct (@rows_cross_product _ _ _ p g) as (res & Hrun & Hlen & Hkeys);
    [lia|].
  exists res. split; [exact Hrun|].
  assert (Hrow : forall row, In row (results res) ->
                   In (rowKey row) (crossProduct p)).
  { intros row Hrow. rewrite <- Hkeys. now apply in_map. }
  assert (Hback : forall key, In key (crossProduct p) ->
                    exists row, In row (results res) /\ rowKey row = key).
  { intros key Hkey. rewrite <- Hkeys in Hkey.
    apply in_map_iff in Hkey as (row & Heq & Hin). now exists row. }
  destruct (maturities p) as [|m ms] eqn:Em; [contradiction|].
  destruct (strikes p) as [|k ks] eqn:Ek; [contradiction|].
  split.
  { intros Hnil. rewrite Hnil in Hlen. cbn in Hlen. lia. }
  split; intros x; rewrite in_map_iff; split.
  - intros (row & <- & Hin). apply Hrow in Hin.
    destruct row as [s v t k' pr se]. unfold rowKey in Hin. cbn in Hin |- *.
    apply in_crossProduct in Hin. tauto.
  - intros Hx.
    destruct (Hback (x, nth 0 (volAxis p) 0, m, k)) as (row & Hin & Heq).
    { apply in_crossProduct. rewrite Em, Ek.
      split; [exact Hx|]. split; [cbn; now left|]. split; now left. }
    exists row. split; [|exact Hin]. unfold rowKey in Heq. congruence.
  - intros (row & <- & Hin). apply Hrow in Hin.
    destruct row as [s v t k' pr se]. unfold rowKey in Hin. cbn in Hin |- *.
    apply in_crossProduct in Hin. tauto.
  - intros Hx.
    destruct (Hback (nth 0 (spotAxis p) 0, x, m, k)) as (row & Hin & Heq).
    { apply in_crossProduct. rewrite Em, Ek.
      split; [cbn; now left|]. split; [exact Hx|]. split; now left. }
    exists row. split; [|exact Hin]. unfold rowKey in Heq. congruence.
Qed.

(** X20: on valid parameters whose spot and volatility axes are strictly
    ascending, the result table recovers both axes from the rows
    (distinct values, sorted), so it is shown instead of the message for
    missing simulation steps (exact arithmetic). *)
Theorem X20_table_recovers_axes (p : SimulationParams R) (g : rng) :
  validParams p ->
  strictlyAscending (spotAxis p) ->
  strictlyAscending (volAxis p) ->
  exists res : SimulationResult R,
    runFullSimulation p g = Returned res /\
    s0Values res = spotAxis p /\
    volValues res = volAxis p /\
    notEnoughSteps res = false.
Proof.
  intros Hvalid Hs Hv.
  destruct (result_axes_values g Hvalid) as (res & Hrun & Hne & Hs0 & Hvol).
  exists res. split; [exact Hrun|].
  assert (E1 : s0Values res = spotAxis p)
    by (apply sorted_set_is_axis; assumption).
  assert (E2 : volValues res = volAxis p)
    by (apply sorted_set_is_axis; assumption).
  split; [exact E1|]. split; [exact E2|].
  unfold notEnoughSteps. rewrite E1, E2.
  destruct (results res); [contradiction | reflexivity].
Qed.

(** X21: with a spot step of 0 the five spot scenarios coincide, the
    result table finds one spot value where it needs five, and the
    message for missing simulation steps replaces the table although
    the run returned its 25 * M * K rows. *)
Theorem X21_flat_spot_axis_hides_table (p : SimulationParams R) (g : rng) :
  validParams p ->
  s0Step p = 0 ->
  exists res : SimulationResult R,
    runFullSimulation p g = Returned res /\
    length (results res)
    = (25 * length (maturities p) * length (strikes p))%nat /\
    s0Values res = [s0 p] /\
    notEnoughSteps res = true.
Proof.
  intros Hvalid Hstep.
  destruct (result_axes_values g Hvalid) as (res & Hrun & Hne & Hs0 & _).
  destruct Hvalid as (Hn & _).
  destruct (@rows_cross_product _ _ _ p g) as (res' & Hrun' & Hlen & _);
    [lia|].
  rewrite Hrun in Hrun'. injection Hrun' as <-.
  exists res. split; [exact Hrun|]. split; [exact Hlen|].
  assert (Haxis : forall x, In x (spotAxis p) <-> In x [s0 p]).
  { intros x. unfold spotAxis. rewrite geometric_values, Hstep.
    replace (s0 p * ((1 - 0 / 100) * (1 - 0 / 100))) with (s0 p) by field.
    replace (s0 p * (1 - 0 / 100)) with (s0 p) by field.
    replace (s0 p * ((1 + 0 / 100) * (1 + 0 / 100))) with (s0 p) by field.
    replace (s0 p * (1 + 0 / 100)) with (s0 p) by field.
    cbn [In]. tauto. }
  assert (E1 : s0Values res = [s0 p]).
  { apply sorted_set_is_axis; [exact I|].
    intros x. now rewrite Hs0, Haxis. }
  split; [exact E1|].
  unfold notEnoughSteps. rewrite E1. cbn [length Nat.ltb Nat.leb].
  now rewrite orb_true_r.
Qed.

End TableAxes.

(** ** Result table and export agree; heatmap *)

Section TableAndHeatmap.
Context `{RandomSource R}.
Local Open Scope R_scope.

Lemma colDefs_keys : map colDefKey colDefs = exportColDefs.
Proof. reflexivity. Qed.

Lemma find_unconfigured_maturity (sVal vVal : option R) (k : R)
    (rows : list (ScenarioRow R)) :
  find (rowMatches sVal vVal None k) rows = None.
Proof.
  induction rows as [|row rows IH]; cbn [find]; [reflexivity|].
  unfold rowMatches at 1. cbn [within].
  rewrite andb_false_r. cbn [andb]. exact IH.
Qed.

(** X22: on valid parameters whose spot and volatility axes are strictly
    ascending, the result table shows, for each strike, the 27 values
    that the export writes to its pricing sheet for that strike. *)
Theorem X22_table_agrees_with_export (p : SimulationParams R) (g : rng) :
  validParams p ->
  strictlyAscending (spotAxis p) ->
  strictlyAscending (volAxis p) ->
  exists res : SimulationResult R,
    runFullSimulation p g = Returned res /\
    tableRows p res
    = map (fun k => (k, map (pricingCell p res k) exportColDefs))
          (strikes p).
Proof.
  intros Hvalid Hs Hv.
  destruct (result_axes_values g Hvalid) as (res & Hrun & Hne & Hs0 & Hvol).
  exists res. split; [exact Hrun|].
  assert (E1 : s0Values res = spotAxis p)
    by (apply sorted_set_is_axis; assumption).
  assert (E2 : volValues res = volAxis p)
    by (apply sorted_set_is_axis; assumption).
  unfold tableRows. apply map_ext. intros k. f_equal.
  rewrite <- colDefs_keys.
  rewrite map_map. apply map_ext_in. intros c Hc.
  unfold tableCell, pricingCell, colDefKey. rewrite E1, E2.
  fold (spotAxis p). fold (volAxis p).
  assert (Hidx : (ColDef.sIdx c < 5 /\ ColDef.vIdx c < 5)%nat).
  { unfold colDefs in Hc. cbn in Hc.
    repeat (destruct Hc as [<-|Hc]; [cbn; lia|]). contradiction. }
  change (length (spotAxis p)) with 5%nat.
  change (length (volAxis p)) with 5%nat.
  destruct (Nat.leb_spec 5 (ColDef.sIdx c)) as [Hc1|_]; [lia|].
  destruct (Nat.leb_spec 5 (ColDef.vIdx c)) as [Hc2|_]; [lia|].
  cbn [orb].
  destruct (Nat.leb_spec (length (maturities p)) (ColDef.tIdx c)) as [Ht|Ht].
  - apply nth_error_None in Ht. cbv zeta. rewrite Ht.
    now rewrite find_unconfigured_maturity.
  - reflexivity.
Qed.

Lemma handler_selects_first (p : SimulationParams R) (g : rng)
    (st : AppState) :
  validParams p ->
  exists res : SimulationResult R,
    runFullSimulation p g = Returned res /\
    handleRunSimulation p g st
    = ({| app_results := Some res;
          selectedMaturity := nth 0 (maturities p) 0;
          selectedStrike := nth 0 (strikes p) 0 |}, None).
Proof.
  intros Hvalid.
  destruct (result_axes_values g Hvalid) as (res & Hrun & Hne & _).
  exists res. split; [exact Hrun|].
  unfold handleRunSimulation. rewrite Hrun.
  destruct (results res); [contradiction | reflexivity].
Qed.

Lemma price_range (data : list (ScenarioRow R)) :
  data <> [] ->
  exists mn mx,
    Heatmap.minPrice data = Some mn /\
    Heatmap.maxPrice data = Some mx /\
    rangeOf (map (@SRow.price R) data) mn mx.
Proof.
  intros Hne. unfold Heatmap.minPrice, Heatmap.maxPrice.
  assert (Hne' : map (@SRow.price R) data <> [])
    by (destruct data; [contradiction | discriminate]).
  generalize dependent (map (@SRow.price R) data). clear data Hne.
  intros prices Hne. destruct prices as [|x l]; [contradiction|].
  cbn [fold_left].
  assert (Hgen : forall (l seen : list R) (mn mx : R),
             rangeOf seen mn mx ->
             exists mn' mx',
               fold_left
                 (fun m x => match m with
                             | None => Some x
                             | Some m' => Some (Rmin m' x)
                             end) l (Some mn) = Some mn' /\
               fold_left
                 (fun m x => match m with
                             | None => Some x
                             | Some m' => Some (Rmax m' x)
                             end) l (Some mx) = Some mx' /\
               rangeOf (seen ++ l) mn' mx').
  { clear. induction l as [|a l IH]; intros seen mn mx Hr.
    - exists mn, mx. rewrite app_nil_r.
      split; [reflexivity|]. split; [reflexivity | exact Hr].
    - cbn [fold_left].
      replace (seen ++ a :: l) with ((seen ++ [a]) ++ l)
        by (rewrite <- app_assoc; reflexivity).
      apply IH. destruct Hr as (Hmn & Hmx & Hall).
      assert (Hmm : mn <= mx) by (apply (Hall mn Hmn)).
      split; [|split].
      + apply in_or_app. unfold Rmin.
        destruct (Rle_dec mn a); [now left | right; now left].
      + apply in_or_app. unfold Rmax.
        destruct (Rle_dec mx a); [right; now left | now left].
      + intros v Hv. unfold Rmin, Rmax.
        apply in_app_or in Hv as [Hv|[<-|[]]];
          try (specialize (Hall v Hv));
          destruct (Rle_dec mn a); destruct (Rle_dec mx a); lra. }
  apply (Hgen l [x] x x).
  split; [now left|]. split; [now left|]. intros v [<-|[]]. lra.
Qed.

(** X23: the heatmap colours a cell whose price is that of a row of its
    data with an opacity between 0.1 (0.2 in dark mode) and 1 when the
    prices of the data differ, and with the fixed background colour
    when they are all equal. *)
Theorem X23_heatmap_opacity_range (data : list (ScenarioRow R))
    (isDarkMode : bool) (row : ScenarioRow R) :
  In row data ->
  exists mn mx,
    Heatmap.minPrice data = Some mn /\
    Heatmap.maxPrice data = Some mx /\
    mn <= SRow.price row <= mx /\
    (mx = mn ->
     Heatmap.getColor mn mx isDarkMode (SRow.price row)
     = ColorLiteral (if isDarkMode then "#1e293b"%string
                     else "rgb(243, 244, 246)"%string)) /\
    (mx <> mn ->
     exists opacity,
       Heatmap.getColor mn mx isDarkMode (SRow.price row)
       = (if isDarkMode then Rgba 99 102 241 opacity
          else Rgba 79 70 229 opacity) /\
       (if isDarkMode then 0.2 else 0.1) <= opacity <= 1).
Proof.
  intros Hin.
  assert (Hne : data <> []) by (intros ->; contradiction).
  destruct (price_range Hne) as (mn & mx & Hmin & Hmax & _ & _ & Hall).
  exists mn, mx. split; [exact Hmin|]. split; [exact Hmax|].
  assert (Hp : mn <= SRow.price row <= mx) by (apply Hall; now apply in_map).
  split; [exact Hp|]. unfold Heatmap.getColor. split.
  - intros Heq. destruct (Req_dec_T mx mn) as [_|Hc]; [|contradiction].
    now destruct isDarkMode.
  - intros Hneq. destruct (Req_dec_T mx mn) as [Hc|_]; [contradiction|].
    assert (Hspan : 0 < mx - mn) by lra.
    assert (Hratio : 0 <= (SRow.price row - mn) / (mx - mn) <= 1).
    { split.
      - unfold Rdiv. apply Rmult_le_pos; [lra|].
        left. now apply Rinv_0_lt_compat.
      - apply Rmult_le_reg_r with (mx - mn); [exact Hspan|].
        unfold Rdiv. rewrite Rmult_assoc, Rinv_l by lra. lra. }
    destruct isDarkMode; eexists; (split; [reflexivity|]); lra.
Qed.

(** X24: after a run on valid parameters whose first maturity and first
    strike do not occur again in their lists and whose spot and
    volatility axes are strictly ascending with values further apart
    than the tolerances of the cell lookup, the heatmap rebuilds both
    axes from its rows, and its cell for spot index i and volatility
    index j shows the price computed at the first strike from the
    sample simulated for (i, j) at the first maturity. *)
Theorem X24_heatmap_cells (p : SimulationParams R) (g : rng)
    (st : AppState) (i j : nat) :
  validParams p ->
  (forall t, (0 < t < length (maturities p))%nat ->
     nth t (maturities p) 0 <> nth 0 (maturities p) 0) ->
  (forall k, (0 < k < length (strikes p))%nat ->
     nth k (strikes p) 0 <> nth 0 (strikes p) 0) ->
  strictlyAscending (spotAxis p) ->
  strictlyAscending (volAxis p) ->
  separatedBy 0.001 (spotAxis p) ->
  separatedBy 0.0001 (volAxis p) ->
  (i < 5)%nat -> (j < 5)%nat ->
  let data := currentHeatmapData (fst (handleRunSimulation p g st)) in
  Heatmap.s0Axis data = spotAxis p /\
  Heatmap.volAxis data = volAxis p /\
  exists tp : list R,
    simulatedFor p g (i, j, 0)%nat tp /\
    Heatmap.cellPrice data (nth j (volAxis p) 0) (nth i (spotAxis p) 0)
    = strikePrice (exp (- (r p / 100) * nth 0 (maturities p) 0)) tp
                  (nPaths p) (nth 0 (strikes p) 0).
Proof.
  intros Hvalid Hmu Hku Hs Hv Hsp Hvo Hi Hj data.
  destruct (handler_selects_first g st Hvalid) as (res & Hrun & Hstate).
  pose proof Hvalid as (Hn & Hm & Hk & _).
  destruct (in_results_of_run p g Hn) as (res' & Hrun' & Hres & Hkeys & _).
  rewrite Hrun in Hrun'. injection Hrun' as <-.
  set (m0 := nth 0 (maturities p) 0) in *.
  set (k0 := nth 0 (strikes p) 0) in *.
  assert (Hdata : data
            = filter (fun row =>
                        strict_eq (SRow.t row) m0 && strict_eq (SRow.k row) k0)
                     (results res)).
  { unfold data. rewrite Hstate. reflexivity. }
  assert (HinData : forall row,
             In row data <->
             In row (results res) /\ SRow.t row = m0 /\ SRow.k row = k0).
  { intros row. rewrite Hdata, filter_In. cbn [strict_eq RNumber].
    destruct (Req_dec_T (SRow.t row) m0), (Req_dec_T (SRow.k row) k0);
      cbn [andb]; intuition congruence. }
  assert (Hm0 : In m0 (maturities p)).
  { unfold m0. destruct (maturities p); [contradiction | now left]. }
  assert (Hk0 : In k0 (strikes p)).
  { unfold k0. destruct (strikes p); [contradiction | now left]. }
  assert (HM : (0 < length (maturities p))%nat).
  { destruct (maturities p); [contradiction | cbn; lia]. }
  (* the row of scenario (a, b) at the first maturity and strike *)
  assert (Hcell : forall a b, (a < 5)%nat -> (b < 5)%nat ->
             exists tp0,
               In ((a, b, 0)%nat, tp0) (sampleLog p g) /\
               In {| SRow.s0 := nth a (spotAxis p) 0;
                     SRow.vol := nth b (volAxis p) 0;
                     SRow.t := m0;
                     SRow.k := k0;
                     SRow.price :=
                       strikePrice
                         (Math_exp (neg (div (r p) (of_Z 100)) * m0))
                         tp0 (nPaths p) k0;
                     SRow.stdErr := 0 |} data).
  { intros a b Ha Hb.
    assert (Hin : In (a, b, 0)%nat (scenarioTriples (length (maturities p))))
      by (apply in_scenarioTriples; lia).
    rewrite <- Hkeys in Hin. apply in_map_iff in Hin as (e0 & He0 & Hin0).
    destruct e0 as [key0 tp0]. cbn [fst] in He0. subst key0.
    exists tp0. split; [exact Hin0|].
    apply HinData. split; [|split; reflexivity].
    rewrite Hres. apply in_flat_map. exists ((a, b, 0)%nat, tp0).
    split; [exact Hin0|]. unfold rowsOfEntry. cbn [fst snd].
    apply in_map_iff. exists k0. split; [reflexivity | exact Hk0]. }
  (* every row of the data comes from such a scenario *)
  assert (Horigin : forall row, In row data ->
             exists a b tp,
               (a < 5)%nat /\ (b < 5)%nat /\
               In ((a, b, 0)%nat, tp) (sampleLog p g) /\
               SRow.s0 row = nth a (spotAxis p) 0 /\
               SRow.vol row = nth b (volAxis p) 0 /\
               SRow.price row
               = strikePrice (Math_exp (neg (div (r p) (of_Z 100)) * m0))
                             tp (nPaths p) k0).
  { intros row Hrow. apply HinData in Hrow as (Hrow & Ht & Hk').
    rewrite Hres in Hrow. apply in_flat_map in Hrow as (e & He & Hrow).
    assert (Hek : In (fst e) (scenarioTriples (length (maturities p))))
      by (rewrite <- Hkeys; now apply in_map).
    destruct e as [[[a b] t'] tp]. cbn [fst] in Hek.
    apply in_scenarioTriples in Hek.
    unfold rowsOfEntry in Hrow. cbn [fst snd] in Hrow.
    apply in_map_iff in Hrow as (K & <- & HK).
    cbn [SRow.t SRow.k SRow.s0 SRow.vol SRow.price] in *.
    assert (Ht0 : t' = 0%nat).
    { destruct t' as [|t']; [reflexivity|]. exfalso.
      apply (Hmu (S t')); [lia | exact Ht]. }
    subst t' K. exists a, b, tp.
    repeat split; try lia; try assumption. }
  split; [|split].
  - apply sorted_set_is_axis; [exact Hs|]. intros x. rewrite in_map_iff. split.
    + intros (row & <- & Hrow).
      destruct (Horigin row Hrow) as (a & b & tp & Ha & Hb & _ & -> & _).
      apply nth_In. cbn. lia.
    + intros Hx. apply In_nth with (d := 0) in Hx as (a & Ha & <-).
      destruct (Hcell a 0%nat Ha ltac:(lia)) as (tp0 & _ & Hrow).
      eexists. split; [|exact Hrow]. reflexivity.
  - apply sorted_set_is_axis; [exact Hv|]. intros x. rewrite in_map_iff. split.
    + intros (row & <- & Hrow).
      destruct (Horigin row Hrow) as (a & b & tp & Ha & Hb & _ & _ & -> & _).
      apply nth_In. cbn. lia.
    + intros Hx. apply In_nth with (d := 0) in Hx as (b & Hb & <-).
      destruct (Hcell 0%nat b ltac:(lia) Hb) as (tp0 & _ & Hrow).
      eexists. split; [|exact Hrow]. reflexivity.
  - unfold Heatmap.cellPrice.
    set (pred := fun d : ScenarioRow R =>
                   within (SRow.s0 d) (Some (nth i (spotAxis p) 0)) 0.001
                   && within (SRow.vol d) (Some (nth j (volAxis p) 0)) 0.0001).
    destruct (Hcell i j Hi Hj) as (tp0 & _ & Hrow0).
    match type of Hrow0 with In ?row _ => set (row0 := row) in * end.
    assert (Hp0 : pred row0 = true).
    { unfold pred, row0. cbn [SRow.s0 SRow.vol].
      rewrite !within_same by lra. reflexivity. }
    destruct (find_exists pred _ _ Hrow0 Hp0) as (m & Hfind).
    rewrite Hfind. apply find_some in Hfind as (Hm' & Hpm).
    destruct (Horigin m Hm') as (a & b & tp & Ha & Hb & Hlog & Es & Ev & Ep).
    unfold pred in Hpm. apply andb_prop in Hpm as (Hws & Hwv).
    rewrite Es, <- (nth_error_nth' (spotAxis p) 0) in Hws by (cbn; lia).
    rewrite Ev, <- (nth_error_nth' (volAxis p) 0) in Hwv by (cbn; lia).
    apply within_nth in Hws; [|exact Hsp | cbn; lia].
    apply within_nth in Hwv; [|exact Hvo | cbn; lia].
    subst a b. exists tp. split; [exact Hlog | exact Ep].
Qed.

End TableAndHeatmap.

(** ** Distribution chart of a run *)

Section ChartOfRun.
Context `{RandomSource R}.
Local Open Scope R_scope.




(** X26: when every maturity is 0, the distribution chart of the run is
    the single bin at the pivot spot holding all nPaths paths, whatever
    the bin count (exact arithmetic). *)
Theorem X26_chart_of_zero_maturities (p : SimulationParams R) (g : rng)
    (binCount : nat) :
  (1 <= nPaths p)%Z ->
  maturities p <> [] ->
  Forall (fun m => m = 0) (maturities p) ->
  exists res : SimulationResult R,
    runFullSimulation p g = Returned res /\
    chartData (centralDistribution res) binCount
    = [ {| Bin.rangeStart := s0 p;
           Bin.rangeEnd := s0 p;
           Bin.mid := s0 p;
           Bin.name := NameToFixed0 (s0 p);
           Bin.count := Z.to_nat (nPaths p) |} ].
Proof.
  intros Hn Hm Hzero.
  destruct (@zero_maturities_run _ p g Hn Hzero) as (res & Hrun & _ & Hcen).
  exists res. split; [exact Hrun|]. specialize (Hcen Hm).
  rewrite (@chartData_single_value _ binCount (s0 p)).
  - rewrite Hcen, repeat_length. reflexivity.
  - rewrite Hcen. destruct (Z.to_nat (nPaths p)) eqn:E; [lia | discriminate].
  - rewrite Hcen. apply Forall_forall. intros v Hv.
    now apply repeat_spec in Hv.
Qed.

End ChartOfRun.

(** ** A cleared maturity input *)

Section ClearedMaturity.
Context {num : Type} `{Number num} `{RandomSource num}.
Local Open Scope js_scope.

Lemma updateMaturity_nth_same (index : nat) (val : num)
    (prev : SimulationParams num) :
  nth_error (maturities (updateMaturity index val prev)) index = Some val.
Proof.
  unfold updateMaturity. cbn [maturities].
  apply typed_set_nth_same.
  rewrite pushZeros_repeat, length_app, repeat_length. lia.
Qed.

(** X27: when the first maturity input is given a value that is not
    [===] to any number (NaN, as parseFloat returns for a cleared input),
    a run on the edited parameters still returns its 25 * M * K rows but
    no scenario is recognised as central: the central distribution stays
    empty. *)
Theorem X27_cleared_first_maturity (p : SimulationParams num) (g : rng)
    (val : num) :
  (0 <= nPaths p)%Z ->
  (forall x : num, (x === val) = false) ->
  let edited := updateMaturity 0 val p in
  exists res : SimulationResult num,
    runFullSimulation edited g = Returned res /\
    nth_error (maturities edited) 0 = Some val /\
    length (results res)
    = (25 * Nat.max (length (maturities p)) 1 * length (strikes p))%nat /\
    centralDistribution res = [].
Proof.
  intros Hn0 Hnan edited.
  assert (Hval : nth_error (maturities edited) 0 = Some val)
    by apply updateMaturity_nth_same.
  assert (Hn0' : (0 <= nPaths edited)%Z) by exact Hn0.
  destruct (runLoops_returned edited Hn0' g)
    as (st & Hrun & _ & _ & _ & Hc & _).
  destruct (rows_cross_product edited g Hn0') as (res & Hres & Hlen & _).
  exists res. split; [exact Hres|]. split; [exact Hval|].
  split.
  - rewrite Hlen. unfold edited at 1. rewrite updateMaturity_length.
    reflexivity.
  - unfold runFullSimulation in Hres. rewrite Hrun in Hres. cbn [bind] in Hres.
    injection Hres as <-. cbn [centralDistribution]. rewrite Hc.
    apply centralFrom_unchanged. apply Forall_forall.
    intros [[[i j] tIdx] tp] _. unfold isCentralEntry. cbn [fst].
    rewrite Hval. cbn [isTargetMaturity]. rewrite Hnan.
    apply andb_false_r.
Qed.
End ClearedMaturity.

(* X27 with NaN written to the first of two maturities. *)
Lemma X27_cleared_first_maturity_witness :
  let edited := @updateMaturity (option R) nanNumber 0 None
                                twoMaturitiesParams in
  exists res : SimulationResult (option R),
    @runFullSimulation (option R) nanNumber nanSource edited nanSeed
    = Returned res /\
    nth_error (maturities edited) 0 = Some None /\
    length (results res) = 50%nat /\
    centralDistribution res = [].
Proof.
  apply (@X27_cleared_first_maturity (option R) nanNumber nanSource
           twoMaturitiesParams nanSeed None).
  - cbn. lia.
  - intros [x|]; reflexivity.
Defined.

(** ** Instances of the further properties on concrete inputs *)

Section FurtherInstances.
Local Open Scope R_scope.

Lemma separated_example_spot : separatedBy 0.001 (spotAxis exampleParams).
Proof. separated_concrete. Defined.

Lemma separated_example_vol : separatedBy 0.0001 (volAxis exampleParams).
Proof. separated_concrete. Defined.

Lemma separated_example_maturities :
  separatedBy 0.001 (maturities exampleParams).
Proof. separated_concrete. Defined.

Lemma separated_example_strikes : separatedBy 0.001 (strikes exampleParams).
Proof. separated_concrete. Defined.

Lemma ascending_example_spot : strictlyAscending (spotAxis exampleParams).
Proof.
  unfold spotAxis. apply geometric_ascending_iff.
  cbn [s0 s0Step exampleParams]. lra.
Defined.

Lemma ascending_example_vol : strictlyAscending (volAxis exampleParams).
Proof.
  unfold volAxis. apply arithmetic_ascending_iff.
  cbn [volStep exampleParams]. lra.
Defined.

Lemma validParams_flatSpot : validParams flatSpotParams.
Proof.
  unfold validParams. cbn [nPaths maturities strikes flatSpotParams].
  split; [lia|]. split; [discriminate|]. split; [discriminate|].
  repeat constructor; apply R_strict_eq_refl.
Defined.

Lemma example_first_maturity_unique (i : nat) :
  (0 < i < length (maturities exampleParams))%nat ->
  strict_eq (nth i (maturities exampleParams) (of_Z 0))
            (nth 0 (maturities exampleParams) (of_Z 0)) = false.
Proof.
  cbn [maturities exampleParams length nth]. intros Hi.
  destruct i as [|[|[|i]]]; try lia;
    cbn; destruct (Req_dec_T _ _) as [Heq|_]; try reflexivity; lra.
Defined.

Lemma example_first_strike_unique (i : nat) :
  (0 < i < length (strikes exampleParams))%nat ->
  strict_eq (nth i (strikes exampleParams) (of_Z 0))
            (nth 0 (strikes exampleParams) (of_Z 0)) = false.
Proof.
  cbn [strikes exampleParams length nth]. intros Hi.
  destruct i as [|[|i]]; try lia;
    cbn; destruct (Req_dec_T _ _) as [Heq|_]; try reflexivity; lra.
Defined.

(* X2 on the example parameters: slot 3 holds the sample of (1, 2, 0). *)
Lemma X2_slot_holds_its_column_sample_witness :
  exists res : SimulationResult R,
    runFullSimulation exampleParams seed = Returned res /\
    ((0 < 3)%nat ->
     exists tp : list R,
       simulatedFor exampleParams seed (1, 2, 0)%nat tp /\
       length tp = 2%nat /\
       nth_error (detailedPaths res) 3 = Some (Some tp)) /\
    ((3 <= 0)%nat ->
     nth_error (detailedPaths res) 3 = Some (Some [])).
Proof.
  apply (@X2_slot_holds_its_column_sample _ _ _ exampleParams seed
           3%nat (1, 2, 0)%nat).
  - exact validParams_example.
  - cbn. lia.
  - reflexivity.
Defined.

(* X4 on the example parameters: second data row, column of (1, 2, 0). *)
Lemma X4_path_sheet_cells_witness :
  exists (res : SimulationResult R) (row : list (cell R)),
    runFullSimulation exampleParams seed = Returned res /\
    nth_error (simulatedPathRows exampleParams res) 1 = Some row /\
    ((0 < 3)%nat ->
     exists tp : list R,
       simulatedFor exampleParams seed (1, 2, 0)%nat tp /\
       nth_error row 4 = Some (CellNum (nth 1 tp 0))) /\
    ((3 <= 0)%nat ->
     nth_error row 4 = Some (CellStr String.EmptyString)).
Proof.
  refine (@X4_path_sheet_cells _ _ _ exampleParams seed 1%nat 3%nat
            (1, 2, 0)%nat _ _ _ _).
  - exact validParams_example.
  - cbn. lia.
  - cbn. lia.
  - reflexivity.
Defined.

(* X5 on the example parameters. *)
Lemma X5_heatmap_rows_after_run_witness :
  snd (handleRunSimulation exampleParams seed initialAppState) = None /\
  map rowKey
      (currentHeatmapData
         (fst (handleRunSimulation exampleParams seed initialAppState)))
  = flat_map (fun s => map (fun v => (s, v, 4, 50000)) (volAxis exampleParams))
             (spotAxis exampleParams).
Proof.
  apply (@X5_heatmap_rows_after_run _ _ _ exampleParams seed initialAppState).
  - exact validParams_example.
  - apply R_strict_eq_refl.
  - exact example_first_maturity_unique.
  - exact example_first_strike_unique.
Defined.

(* X8: the third maturity input, then the first, edited on the example
   parameters. *)
Lemma X8_sidebar_edits_keep_27_slots_witness :
  (3 <= length (maturities
                  (applyMaturityEdits [(2%nat, 7%R); (0%nat, 1%R)] exampleParams))
   <= 3)%nat /\
  exists res : SimulationResult R,
    runFullSimulation
      (applyMaturityEdits [(2%nat, 7%R); (0%nat, 1%R)] exampleParams) seed
    = Returned res /\
    length (detailedPaths res) = 27%nat.
Proof.
  apply (@X8_sidebar_edits_keep_27_slots _ _ _ [(2%nat, 7%R); (0%nat, 1%R)]
           exampleParams seed).
  - repeat constructor.
  - cbn. lia.
  - cbn. lia.
Defined.

(* X9 on the example parameters: 25 * 3 * 2 draws. *)
Lemma X9_run_draw_count_witness :
  exists st : LoopState,
    runLoops exampleParams seed = Returned st /\
    st_rng st = skipGaussian 150 seed /\
    length (st_log st) = 75%nat.
Proof.
  apply (@X9_run_draw_count _ _ _ exampleParams seed).
  cbn. lia.
Defined.

(* X10 on four maturities: 35 slots. *)
Lemma X10_detailed_slot_count_witness :
  exists res : SimulationResult R,
    runFullSimulation fourMaturitiesParams seed = Returned res /\
    length (detailedPaths res) = 35%nat.
Proof.
  apply (@X10_detailed_slot_count _ _ _ fourMaturitiesParams seed).
  cbn. lia.
Defined.

(* X11 on four maturities: slot 3, the column of (1, 2, 0), ends with
   the sample of the pivot at maturity index 3. *)
Lemma X11_pivot_overwrites_block_slot_witness :
  exists (res : SimulationResult R) (tp : list R),
    runFullSimulation fourMaturitiesParams seed = Returned res /\
    columnOf (1, 2, 0)%nat = columnOf (2, 2, 3)%nat /\
    simulatedFor fourMaturitiesParams seed (2, 2, 3)%nat tp /\
    nth_error (detailedPaths res) 3 = Some (Some tp).
Proof.
  apply (@X11_pivot_overwrites_block_slot _ _ _ fourMaturitiesParams seed
           0%nat 0%nat).
  - cbn. lia.
  - lia.
  - cbn. lia.
Defined.


(* X15 on two maturities equal to 0. *)
Lemma X15_zero_maturities_price_intrinsic_witness :
  exists res : SimulationResult R,
    runFullSimulation zeroMaturityParams seed = Returned res /\
    Forall (fun row => SRow.price row = Rmax (SRow.s0 row - SRow.k row) 0)
           (results res) /\
    (maturities zeroMaturityParams <> [] ->
     centralDistribution res = repeat 50000 2).
Proof.
  apply (@X15_zero_maturities_price_intrinsic counterSource
           zeroMaturityParams seed).
  - cbn. lia.
  - repeat constructor.
Defined.

(* X16 on the example parameters: strike 52000 in the column of
   (1, 2, 0). *)
Lemma X16_pricing_sheet_cells_witness :
  exists res : SimulationResult R,
    runFullSimulation exampleParams seed = Returned res /\
    length (sheet1Data exampleParams res) = 6%nat /\
    (exists row,
        nth_error (sheet1Data exampleParams res) 5 = Some row /\
        nth_error row 0 = Some (CellNum 52000) /\
        nth_error row 4
        = Some (CellNum (pricingCell exampleParams res 52000 (1, 2, 0)%nat))) /\
    ((0 < 3)%nat ->
     exists tp : list R,
       simulatedFor exampleParams seed (1, 2, 0)%nat tp /\
       pricingCell exampleParams res 52000 (1, 2, 0)%nat
       = strikePrice (exp (- (3 / 100) * 4)) tp 2 52000) /\
    ((3 <= 0)%nat ->
     pricingCell exampleParams res 52000 (1, 2, 0)%nat = 0).
Proof.
  apply (@X16_pricing_sheet_cells counterSource exampleParams seed
           3%nat 1%nat (1, 2, 0)%nat 52000).
  - exact validParams_example.
  - exact separated_example_spot.
  - exact separated_example_vol.
  - exact separated_example_maturities.
  - exact separated_example_strikes.
  - reflexivity.
  - reflexivity.
Defined.

Lemma rangeOf_1_2_4 : rangeOf [1; 2; 4] 1 4.
Proof.
  split; [now left|]. split; [right; right; now left|].
  intros v [<-|[<-|[<-|[]]]]; lra.
Defined.

(* X17 on the data 1, 2, 4 with two bins: [1, 2.5) holds 1 and 2, and
   [2.5, 4] holds 4. *)
Lemma X17_histogram_bins_witness :
  let step := (4 - 1) / INR 2 in
  let bins := chartData [1; 2; 4] 2 in
  length bins = 2%nat /\
  1 + INR 2 * step = 4 /\
  list_sum (map Bin.count bins) = 3%nat /\
  forall i : nat,
    (i < 2)%nat ->
    nth_error bins i
    = Some {| Bin.rangeStart := 1 + INR i * step;
              Bin.rangeEnd := 1 + (INR i + 1) * step;
              Bin.mid := 1 + (INR i * step) + (step / 2);
              Bin.name := NameNumber (1 + (INR i * step) + (step / 2));
              Bin.count :=
                countBetween (1 + INR i * step) (1 + (INR i + 1) * step)
                             (i =? 2 - 1)%nat [1; 2; 4] |}.
Proof.
  apply (@X17_histogram_bins [1; 2; 4] 2%nat 1 4).
  - exact rangeOf_1_2_4.
  - lra.
  - lia.
Defined.

(* X18 on two values equal to 5. *)
Lemma X18_histogram_single_value_witness :
  chartData [5; 5] 40
  = [ {| Bin.rangeStart := 5; Bin.rangeEnd := 5; Bin.mid := 5;
         Bin.name := NameToFixed0 5; Bin.count := 2 |} ].
Proof.
  apply (@X18_histogram_single_value [5; 5] 40%nat 5).
  - discriminate.
  - repeat constructor.
Defined.

(* X19 on the data 1, 2, 4. *)
Lemma X19_histogram_no_bins_witness : chartData [1; 2; 4] 0 = [].
Proof.
  apply (@X19_histogram_no_bins [1; 2; 4] 1 4).
  - exact rangeOf_1_2_4.
  - lra.
Defined.

(* X20 on the example parameters. *)
Lemma X20_table_recovers_axes_witness :
  exists res : SimulationResult R,
    runFullSimulation exampleParams seed = Returned res /\
    s0Values res = spotAxis exampleParams /\
    volValues res = volAxis exampleParams /\
    notEnoughSteps res = false.
Proof.
  apply (@X20_table_recovers_axes counterSource exampleParams seed).
  - exact validParams_example.
  - exact ascending_example_spot.
  - exact ascending_example_vol.
Defined.

(* X21 on parameters with a spot step of 0. *)
Lemma X21_flat_spot_axis_hides_table_witness :
  exists res : SimulationResult R,
    runFullSimulation flatSpotParams seed = Returned res /\
    length (results res) = 25%nat /\
    s0Values res = [50000] /\
    notEnoughSteps res = true.
Proof.
  apply (@X21_flat_spot_axis_hides_table counterSource flatSpotParams seed).
  - exact validParams_flatSpot.
  - reflexivity.
Defined.

(* X22 on the example parameters. *)
Lemma X22_table_agrees_with_export_witness :
  exists res : SimulationResult R,
    runFullSimulation exampleParams seed = Returned res /\
    tableRows exampleParams res
    = map (fun k => (k, map (pricingCell exampleParams res k) exportColDefs))
          [50000; 52000].
Proof.
  apply (@X22_table_agrees_with_export counterSource exampleParams seed).
  - exact validParams_example.
  - exact ascending_example_spot.
  - exact ascending_example_vol.
Defined.

(* X23 on two rows priced 2 and 6, for the first row in light mode. *)
Lemma X23_heatmap_opacity_range_witness :
  exists mn mx,
    Heatmap.minPrice twoPriceRows = Some mn /\
    Heatmap.maxPrice twoPriceRows = Some mx /\
    mn <= 2 <= mx /\
    (mx = mn ->
     Heatmap.getColor mn mx false 2
     = ColorLiteral "rgb(243, 244, 246)"%string) /\
    (mx <> mn ->
     exists opacity,
       Heatmap.getColor mn mx false 2 = Rgba 79 70 229 opacity /\
       0.1 <= opacity <= 1).
Proof.
  apply (@X23_heatmap_opacity_range twoPriceRows false
           {| SRow.s0 := 1; SRow.vol := 1; SRow.t := 1; SRow.k := 1;
              SRow.price := 2; SRow.stdErr := 0 |}).
  now left.
Defined.

(* X24 on the example parameters: the cell of spot index 1 and
   volatility index 2. *)
Lemma X24_heatmap_cells_witness :
  let data :=
    currentHeatmapData
      (fst (handleRunSimulation exampleParams seed initialAppState)) in
  Heatmap.s0Axis data = spotAxis exampleParams /\
  Heatmap.volAxis data = volAxis exampleParams /\
  exists tp : list R,
    simulatedFor exampleParams seed (1, 2, 0)%nat tp /\
    Heatmap.cellPrice data (nth 2 (volAxis exampleParams) 0)
                      (nth 1 (spotAxis exampleParams) 0)
    = strikePrice (exp (- (3 / 100) * 4)) tp 2 50000.
Proof.
  apply (@X24_heatmap_cells counterSource exampleParams seed initialAppState
           1%nat 2%nat).
  - exact validParams_example.
  - intros t Ht Heq. pose proof (example_first_maturity_unique Ht) as Hne.
    cbn [strict_eq RNumber of_Z] in Hne. rewrite Heq in Hne.
    destruct (Req_dec_T _ _); [discriminate | contradiction].
  - intros k Hk Heq. pose proof (example_first_strike_unique Hk) as Hne.
    cbn [strict_eq RNumber of_Z] in Hne. rewrite Heq in Hne.
    destruct (Req_dec_T _ _); [discriminate | contradiction].
  - exact ascending_example_spot.
  - exact ascending_example_vol.
  - exact separated_example_spot.
  - exact separated_example_vol.
  - lia.
  - lia.
Defined.


(* X26 on two maturities equal to 0, with 50 bins. *)
Lemma X26_chart_of_zero_maturities_witness :
  exists res : SimulationResult R,
    runFullSimulation zeroMaturityParams seed = Returned res /\
    chartData (centralDistribution res) 50
    = [ {| Bin.rangeStart := 50000; Bin.rangeEnd := 50000; Bin.mid := 50000;
           Bin.name := NameToFixed0 50000; Bin.count := 2 |} ].
Proof.
  apply (@X26_chart_of_zero_maturities counterSource zeroMaturityParams seed
           50%nat).
  - cbn. lia.
  - discriminate.
  - repeat constructor.
Defined.

End FurtherInstances.
